(** * Turbo Drift 3D: the gameplay simulation layer

    A shallow embedding of [src/cars/Car.js], the rival class [EnemyCar],
    [src/world/Track.js], the keyboard class [Input] and the [Game]
    engine (collision and race-logic passes, input handling, HUD gauge
    and main loop), followed by the properties established about them.

    Modelling conventions.
    - A JavaScript number is an exact rational ([Q]); [NaN] and the
      infinities appear only where the source tests for them (the [dt]
      argument, [bestLapTime], the values stored in a saved object).
      Field updates that leave a number alone are stated with Leibniz
      equality, computed values with [==].
    - [Math.pow], [Math.sin], [Math.cos] and [Math.sqrt] and the
      CatmullRom curve of three.js are taken as parameters (the record
      [World]): no property below depends on more than what is written
      in its statement.
    - [Math.random()] reads the next draw of an explicit stream ([Rng]).
    - [emit(name, ...)] appends to the vehicle's event log.
    - Scene-graph nodes that are only drawn (materials, wheel meshes,
      lights colours, particles, HUD text) are left out. *)

From Stdlib Require Import QArith Qminmax Qabs Qround Qpower Lqa ZArith List Bool Lia.
From stdpp Require Import gmap strings pretty.

Local Open Scope Q_scope.

(** ** JavaScript values and numeric helpers *)

Module JS.

(** The values a saved object or an argument can hold. *)
#[local] Unset Elimination Schemes.
Inductive value :=
| Undefined
| Null
| Boolean (b : bool)
| Number (q : Q)
| NaN
| Str (s : string)
| Arr (l : list value).
#[local] Set Elimination Schemes.

Inductive type_tag := TUndefined | TObject | TBoolean | TNumber | TString.

Definition typeof (v : value) : type_tag :=
  match v with
  | Undefined => TUndefined
  | Null => TObject
  | Boolean _ => TBoolean
  | Number _ | NaN => TNumber
  | Str _ => TString
  | Arr _ => TObject
  end.

Definition is_number (v : value) : bool :=
  match typeof v with TNumber => true | _ => false end.

(** ToBoolean. *)
Definition truthy (v : value) : bool :=
  match v with
  | Undefined | Null | NaN => false
  | Boolean b => b
  | Number q => negb (Qeq_bool q 0)
  | Str s => negb (String.eqb s "")
  | Arr _ => true
  end.

(** [v != null]: neither [null] nor [undefined]. *)
Definition not_nullish (v : value) : bool :=
  match v with Undefined | Null => false | _ => true end.

(** [v[i]] for the values [Vector3.fromArray] can be handed. *)
Definition index (v : value) (i : nat) : value :=
  match v with
  | Arr l => nth i l Undefined
  | Str s => match String.get i s with
             | Some ch => Str (String ch EmptyString)
             | None => Undefined
             end
  | _ => Undefined
  end.

(** A property read [o.k] on an object held as a finite map. *)
Definition get (o : gmap string value) (k : string) : value :=
  match o !! k with Some v => v | None => Undefined end.

Definition ltb (a b : Q) : bool := negb (Qle_bool b a).
Definition leb (a b : Q) : bool := Qle_bool a b.

(** [THREE.MathUtils.lerp(x, y, t)]. *)
Definition lerp (x y t : Q) : Q := (1 - t) * x + t * y.

(** Truncation toward zero, and the remainder operator [a % b], whose
    result takes the sign of the dividend. *)
Definition trunc (q : Q) : Z := Z.quot (Qnum q) (Zpos (Qden q)).
Definition rem (a b : Q) : Q := a - b * inject_Z (trunc (a / b)).

(** The [dt] the main loop can hand over: a number, [NaN], nothing, or
    the boolean [Game.animate] passes in second position. *)
Inductive dt_value :=
| DtNumber (q : Q)
| DtNaN
| DtUndefined
| DtNull
| DtBoolean (b : bool).

Definition dt_falsy (d : dt_value) : bool :=
  match d with
  | DtNumber q => Qeq_bool q 0
  | DtNaN | DtUndefined | DtNull => true
  | DtBoolean b => negb b
  end.

(** ToNumber; [None] is [NaN]. *)
Definition dt_toNumber (d : dt_value) : option Q :=
  match d with
  | DtNumber q => Some q
  | DtNaN | DtUndefined => None
  | DtNull => Some 0
  | DtBoolean b => Some (if b then 1 else 0)
  end.

(** [!dt || dt <= 0]. *)
Definition dt_rejected (d : dt_value) : bool :=
  dt_falsy d || match dt_toNumber d with Some q => leb q 0 | None => false end.

End JS.

(** ** Vectors ([THREE.Vector3]) *)

Record Vec3 := mkVec3 { vx : Q; vy : Q; vz : Q }.

Module V3.
Definition zero : Vec3 := mkVec3 0 0 0.
Definition add (a b : Vec3) : Vec3 := mkVec3 (vx a + vx b) (vy a + vy b) (vz a + vz b).
Definition sub (a b : Vec3) : Vec3 := mkVec3 (vx a - vx b) (vy a - vy b) (vz a - vz b).
Definition multiplyScalar (a : Vec3) (s : Q) : Vec3 := mkVec3 (vx a * s) (vy a * s) (vz a * s).
Definition addScaledVector (a v : Vec3) (s : Q) : Vec3 :=
  mkVec3 (vx a + vx v * s) (vy a + vy v * s) (vz a + vz v * s).
Definition crossVectors (a b : Vec3) : Vec3 :=
  mkVec3 (vy a * vz b - vz a * vy b) (vz a * vx b - vx a * vz b) (vx a * vy b - vy a * vx b).
Definition lengthSq (a : Vec3) : Q := vx a * vx a + vy a * vy a + vz a * vz a.
Definition distanceToSquared (a b : Vec3) : Q := lengthSq (sub a b).

(** [a.distanceTo(b) < r].  The square root is increasing, so for a
    positive [r] the test is the one on the squares; for [r <= 0] it
    fails. *)
Definition distanceTo_lt (a b : Vec3) (r : Q) : bool :=
  JS.ltb 0 r && JS.ltb (distanceToSquared a b) (r * r).

Definition eqv (a b : Vec3) : Prop := vx a == vx b /\ vy a == vy b /\ vz a == vz b.
End V3.

(** ** The numeric library and the track curve *)

Record World := mkWorld {
  Math_pow : Q -> Q -> Q;
  Math_sin : Q -> Q;
  Math_cos : Q -> Q;
  Math_sqrt : Q -> Q;
  (** [curve.getPointAt(u)] and [curve.getTangentAt(u)] of the closed
      CatmullRom curve built by [Track.createTrackSpline]. *)
  getPointAt : Q -> Vec3;
  getTangentAt : Q -> Vec3;
  (** [new Box3().setFromObject(player.mesh).intersectsBox(new
      Box3().setFromObject(obj))], from the player's pose (position,
      yaw, roll) and the prop's position. *)
  boxesIntersect : Vec3 * Q * Q -> Vec3 -> bool
}.

Section Normalize.
Context (W : World).

(** [v.length()] and [v.normalize()], which divides by [length() || 1]. *)
Definition v3_length (v : Vec3) : Q := Math_sqrt W (V3.lengthSq v).
Definition v3_normalize (v : Vec3) : Vec3 :=
  let len := v3_length v in
  V3.multiplyScalar v (1 / (if Qeq_bool len 0 then 1 else len)).
End Normalize.

(** The stream read by [Math.random()]. *)
Record Rng := mkRng { draws : nat -> Q; cursor : nat }.

Definition random (g : Rng) : Q * Rng :=
  (draws g (cursor g), mkRng (draws g) (S (cursor g))).

(** Events a vehicle emits. *)
Inductive Event :=
| EvDamage (amount : Q)
| EvDestroyed
| EvCollision (impulse : option Q)
| EvNitroEmpty
| EvNitro (amount : Q)
| EvDrift (factor : Q)
| EvNitroStart
| EvNitroEnd.

(** ** The player's car ([src/cars/Car.js]) *)

Module Car.

(** [this.config], the tunables of the constructor. *)
Record Config := mkConfig {
  cfg_maxSpeed : Q;
  cfg_acceleration : Q;
  cfg_friction : Q;
  cfg_steeringPower : Q;
  cfg_wheelRadius : Q;
  cfg_mass : Q;
  nitroCapacity : Q;
  nitroPower : Q;
  nitroDrainRate : Q;
  nitroRegenRate : Q;
  nitroCooldownSec : Q;
  collisionRadius : Q
}.

Definition defaults : Config :=
  {| cfg_maxSpeed := 1.4; cfg_acceleration := 0.85; cfg_friction := 0.97;
     cfg_steeringPower := 2.2; cfg_wheelRadius := 0.35; cfg_mass := 1;
     nitroCapacity := 100; nitroPower := 1.6; nitroDrainRate := 30;
     nitroRegenRate := 5; nitroCooldownSec := 0.75; collisionRadius := 2 |}.

(** [input.keys]: the truth value of each key the car reads. *)
Record Keys := mkKeys { key_w : bool; key_s : bool; key_a : bool; key_d : bool; key_shift : bool }.

Definition no_keys : Keys := mkKeys false false false false false.

(** The fields of a [Car].  [position] is [mesh.position]; [meshRotY]
    and [meshRotZ] are [mesh.rotation.y] and [mesh.rotation.z]
    ([mesh.rotation.x] is never written and stays 0); [accSmoothed]
    and [cameraShake] are [undefined] until first written. *)
Record state := mkState {
  config : Config;
  speed : Q;
  maxSpeed : Q;
  acceleration : Q;
  friction : Q;
  rotation : Q;
  steeringPower : Q;
  driftFactor : Q;
  maxHealth : Q;
  health : Q;
  invulnerable : bool;
  nitroAmount : Q;
  nitroCooldown : Q;
  progress : Q;
  position : Vec3;
  meshRotY : Q;
  meshRotZ : Q;
  accSmoothed : option Q;
  wheelSpinVel : Q;
  cameraShake : option Q;
  lastCollisionTime : Q;
  boundingRadius : Q;
  events : list Event
}.

Definition set_speed (v : Q) (c : state) : state :=
{| config := config c; speed := v; maxSpeed := maxSpeed c;
   acceleration := acceleration c; friction := friction c; rotation := rotation c;
   steeringPower := steeringPower c; driftFactor := driftFactor c;
   maxHealth := maxHealth c; health := health c; invulnerable := invulnerable c;
   nitroAmount := nitroAmount c; nitroCooldown := nitroCooldown c;
   progress := progress c; position := position c; meshRotY := meshRotY c;
   meshRotZ := meshRotZ c; accSmoothed := accSmoothed c;
   wheelSpinVel := wheelSpinVel c; cameraShake := cameraShake c;
   lastCollisionTime := lastCollisionTime c; boundingRadius := boundingRadius c;
   events := events c |}.
Definition set_rotation (v : Q) (c : state) : state :=
{| config := config c; speed := speed c; maxSpeed := maxSpeed c;
   acceleration := acceleration c; friction := friction c; rotation := v;
   steeringPower := steeringPower c; driftFactor := driftFactor c;
   maxHealth := maxHealth c; health := health c; invulnerable := invulnerable c;
   nitroAmount := nitroAmount c; nitroCooldown := nitroCooldown c;
   progress := progress c; position := position c; meshRotY := meshRotY c;
   meshRotZ := meshRotZ c; accSmoothed := accSmoothed c;
   wheelSpinVel := wheelSpinVel c; cameraShake := cameraShake c;
   lastCollisionTime := lastCollisionTime c; boundingRadius := boundingRadius c;
   events := events c |}.
Definition set_driftFactor (v : Q) (c : state) : state :=
{| config := config c; speed := speed c; maxSpeed := maxSpeed c;
   acceleration := acceleration c; friction := friction c; rotation := rotation c;
   steeringPower := steeringPower c; driftFactor := v; maxHealth := maxHealth c;
   health := health c; invulnerable := invulnerable c; nitroAmount := nitroAmount c;
   nitroCooldown := nitroCooldown c; progress := progress c; position := position c;
   meshRotY := meshRotY c; meshRotZ := meshRotZ c; accSmoothed := accSmoothed c;
   wheelSpinVel := wheelSpinVel c; cameraShake := cameraShake c;
   lastCollisionTime := lastCollisionTime c; boundingRadius := boundingRadius c;
   events := events c |}.
Definition set_health (v : Q) (c : state) : state :=
{| config := config c; speed := speed c; maxSpeed := maxSpeed c;
   acceleration := acceleration c; friction := friction c; rotation := rotation c;
   steeringPower := steeringPower c; driftFactor := driftFactor c;
   maxHealth := maxHealth c; health := v; invulnerable := invulnerable c;
   nitroAmount := nitroAmount c; nitroCooldown := nitroCooldown c;
   progress := progress c; position := position c; meshRotY := meshRotY c;
   meshRotZ := meshRotZ c; accSmoothed := accSmoothed c;
   wheelSpinVel := wheelSpinVel c; cameraShake := cameraShake c;
   lastCollisionTime := lastCollisionTime c; boundingRadius := boundingRadius c;
   events := events c |}.
Definition set_invulnerable (v : bool) (c : state) : state :=
{| config := config c; speed := speed c; maxSpeed := maxSpeed c;
   acceleration := acceleration c; friction := friction c; rotation := rotation c;
   steeringPower := steeringPower c; driftFactor := driftFactor c;
   maxHealth := maxHealth c; health := health c; invulnerable := v;
   nitroAmount := nitroAmount c; nitroCooldown := nitroCooldown c;
   progress := progress c; position := position c; meshRotY := meshRotY c;
   meshRotZ := meshRotZ c; accSmoothed := accSmoothed c;
   wheelSpinVel := wheelSpinVel c; cameraShake := cameraShake c;
   lastCollisionTime := lastCollisionTime c; boundingRadius := boundingRadius c;
   events := events c |}.
Definition set_nitroAmount (v : Q) (c : state) : state :=
{| config := config c; speed := speed c; maxSpeed := maxSpeed c;
   acceleration := acceleration c; friction := friction c; rotation := rotation c;
   steeringPower := steeringPower c; driftFactor := driftFactor c;
   maxHealth := maxHealth c; health := health c; invulnerable := invulnerable c;
   nitroAmount := v; nitroCooldown := nitroCooldown c; progress := progress c;
   position := position c; meshRotY := meshRotY c; meshRotZ := meshRotZ c;
   accSmoothed := accSmoothed c; wheelSpinVel := wheelSpinVel c;
   cameraShake := cameraShake c; lastCollisionTime := lastCollisionTime c;
   boundingRadius := boundingRadius c; events := events c |}.
Definition set_nitroCooldown (v : Q) (c : state) : state :=
{| config := config c; speed := speed c; maxSpeed := maxSpeed c;
   acceleration := acceleration c; friction := friction c; rotation := rotation c;
   steeringPower := steeringPower c; driftFactor := driftFactor c;
   maxHealth := maxHealth c; health := health c; invulnerable := invulnerable c;
   nitroAmount := nitroAmount c; nitroCooldown := v; progress := progress c;
   position := position c; meshRotY := meshRotY c; meshRotZ := meshRotZ c;
   accSmoothed := accSmoothed c; wheelSpinVel := wheelSpinVel c;
   cameraShake := cameraShake c; lastCollisionTime := lastCollisionTime c;
   boundingRadius := boundingRadius c; events := events c |}.
Definition set_progress (v : Q) (c : state) : state :=
{| config := config c; speed := speed c; maxSpeed := maxSpeed c;
   acceleration := acceleration c; friction := friction c; rotation := rotation c;
   steeringPower := steeringPower c; driftFactor := driftFactor c;
   maxHealth := maxHealth c; health := health c; invulnerable := invulnerable c;
   nitroAmount := nitroAmount c; nitroCooldown := nitroCooldown c; progress := v;
   position := position c; meshRotY := meshRotY c; meshRotZ := meshRotZ c;
   accSmoothed := accSmoothed c; wheelSpinVel := wheelSpinVel c;
   cameraShake := cameraShake c; lastCollisionTime := lastCollisionTime c;
   boundingRadius := boundingRadius c; events := events c |}.
Definition set_position (v : Vec3) (c : state) : state :=
{| config := config c; speed := speed c; maxSpeed := maxSpeed c;
   acceleration := acceleration c; friction := friction c; rotation := rotation c;
   steeringPower := steeringPower c; driftFactor := driftFactor c;
   maxHealth := maxHealth c; health := health c; invulnerable := invulnerable c;
   nitroAmount := nitroAmount c; nitroCooldown := nitroCooldown c;
   progress := progress c; position := v; meshRotY := meshRotY c;
   meshRotZ := meshRotZ c; accSmoothed := accSmoothed c;
   wheelSpinVel := wheelSpinVel c; cameraShake := cameraShake c;
   lastCollisionTime := lastCollisionTime c; boundingRadius := boundingRadius c;
   events := events c |}.
Definition set_meshRotY (v : Q) (c : state) : state :=
{| config := config c; speed := speed c; maxSpeed := maxSpeed c;
   acceleration := acceleration c; friction := friction c; rotation := rotation c;
   steeringPower := steeringPower c; driftFactor := driftFactor c;
   maxHealth := maxHealth c; health := health c; invulnerable := invulnerable c;
   nitroAmount := nitroAmount c; nitroCooldown := nitroCooldown c;
   progress := progress c; position := position c; meshRotY := v;
   meshRotZ := meshRotZ c; accSmoothed := accSmoothed c;
   wheelSpinVel := wheelSpinVel c; cameraShake := cameraShake c;
   lastCollisionTime := lastCollisionTime c; boundingRadius := boundingRadius c;
   events := events c |}.
Definition set_meshRotZ (v : Q) (c : state) : state :=
{| config := config c; speed := speed c; maxSpeed := maxSpeed c;
   acceleration := acceleration c; friction := friction c; rotation := rotation c;
   steeringPower := steeringPower c; driftFactor := driftFactor c;
   maxHealth := maxHealth c; health := health c; invulnerable := invulnerable c;
   nitroAmount := nitroAmount c; nitroCooldown := nitroCooldown c;
   progress := progress c; position := position c; meshRotY := meshRotY c;
   meshRotZ := v; accSmoothed := accSmoothed c; wheelSpinVel := wheelSpinVel c;
   cameraShake := cameraShake c; lastCollisionTime := lastCollisionTime c;
   boundingRadius := boundingRadius c; events := events c |}.
Definition set_accSmoothed (v : option Q) (c : state) : state :=
{| config := config c; speed := speed c; maxSpeed := maxSpeed c;
   acceleration := acceleration c; friction := friction c; rotation := rotation c;
   steeringPower := steeringPower c; driftFactor := driftFactor c;
   maxHealth := maxHealth c; health := health c; invulnerable := invulnerable c;
   nitroAmount := nitroAmount c; nitroCooldown := nitroCooldown c;
   progress := progress c; position := position c; meshRotY := meshRotY c;
   meshRotZ := meshRotZ c; accSmoothed := v; wheelSpinVel := wheelSpinVel c;
   cameraShake := cameraShake c; lastCollisionTime := lastCollisionTime c;
   boundingRadius := boundingRadius c; events := events c |}.
Definition set_wheelSpinVel (v : Q) (c : state) : state :=
{| config := config c; speed := speed c; maxSpeed := maxSpeed c;
   acceleration := acceleration c; friction := friction c; rotation := rotation c;
   steeringPower := steeringPower c; driftFactor := driftFactor c;
   maxHealth := maxHealth c; health := health c; invulnerable := invulnerable c;
   nitroAmount := nitroAmount c; nitroCooldown := nitroCooldown c;
   progress := progress c; position := position c; meshRotY := meshRotY c;
   meshRotZ := meshRotZ c; accSmoothed := accSmoothed c; wheelSpinVel := v;
   cameraShake := cameraShake c; lastCollisionTime := lastCollisionTime c;
   boundingRadius := boundingRadius c; events := events c |}.
Definition set_cameraShake (v : option Q) (c : state) : state :=
{| config := config c; speed := speed c; maxSpeed := maxSpeed c;
   acceleration := acceleration c; friction := friction c; rotation := rotation c;
   steeringPower := steeringPower c; driftFactor := driftFactor c;
   maxHealth := maxHealth c; health := health c; invulnerable := invulnerable c;
   nitroAmount := nitroAmount c; nitroCooldown := nitroCooldown c;
   progress := progress c; position := position c; meshRotY := meshRotY c;
   meshRotZ := meshRotZ c; accSmoothed := accSmoothed c;
   wheelSpinVel := wheelSpinVel c; cameraShake := v;
   lastCollisionTime := lastCollisionTime c; boundingRadius := boundingRadius c;
   events := events c |}.
Definition set_lastCollisionTime (v : Q) (c : state) : state :=
{| config := config c; speed := speed c; maxSpeed := maxSpeed c;
   acceleration := acceleration c; friction := friction c; rotation := rotation c;
   steeringPower := steeringPower c; driftFactor := driftFactor c;
   maxHealth := maxHealth c; health := health c; invulnerable := invulnerable c;
   nitroAmount := nitroAmount c; nitroCooldown := nitroCooldown c;
   progress := progress c; position := position c; meshRotY := meshRotY c;
   meshRotZ := meshRotZ c; accSmoothed := accSmoothed c;
   wheelSpinVel := wheelSpinVel c; cameraShake := cameraShake c;
   lastCollisionTime := v; boundingRadius := boundingRadius c; events := events c |}.
Definition set_events (v : list Event) (c : state) : state :=
{| config := config c; speed := speed c; maxSpeed := maxSpeed c;
   acceleration := acceleration c; friction := friction c; rotation := rotation c;
   steeringPower := steeringPower c; driftFactor := driftFactor c;
   maxHealth := maxHealth c; health := health c; invulnerable := invulnerable c;
   nitroAmount := nitroAmount c; nitroCooldown := nitroCooldown c;
   progress := progress c; position := position c; meshRotY := meshRotY c;
   meshRotZ := meshRotZ c; accSmoothed := accSmoothed c;
   wheelSpinVel := wheelSpinVel c; cameraShake := cameraShake c;
   lastCollisionTime := lastCollisionTime c; boundingRadius := boundingRadius c;
   events := v |}.

Definition emit (e : Event) (c : state) : state := set_events (events c ++ [e]) c.

(** [new Car(scene, opts)] with [cfg] the merged configuration. *)
Definition create (cfg : Config) : state :=
  {| config := cfg; speed := 0; maxSpeed := cfg_maxSpeed cfg;
     acceleration := cfg_acceleration cfg; friction := cfg_friction cfg;
     rotation := 0; steeringPower := cfg_steeringPower cfg; driftFactor := 0;
     maxHealth := 100; health := 100; invulnerable := false;
     nitroAmount := nitroCapacity cfg; nitroCooldown := 0; progress := 0;
     position := V3.zero; meshRotY := 0; meshRotZ := 0; accSmoothed := None;
     wheelSpinVel := 0; cameraShake := None; lastCollisionTime := 0;
     boundingRadius := collisionRadius cfg; events := [] |}.

(** *** Damage and health *)

Definition onDestroyed (c : state) : state :=
  emit EvDestroyed (set_speed 0 (set_health 0 c)).

Definition applyDamage (amount : Q) (c : state) : state :=
  if invulnerable c then c
  else
    let c := set_health (health c - amount) c in
    let c := emit (EvDamage amount) c in
    if JS.leb (health c) 0 then onDestroyed c else c.

Definition repair (amount : Q) (c : state) : state :=
  set_health (Qmin (maxHealth c) (health c + amount)) c.

(** *** Collision helpers.  [now] is [performance.now()]. *)

Definition handleCollisionWithObject (now : Q) (normal : Vec3) (severity : Q)
    (c : state) : state :=
  if JS.ltb (now - lastCollisionTime c) 100 then c
  else
    let c := set_lastCollisionTime now c in
    let impulse := Qabs (speed c) * severity in
    let c := applyDamage (impulse * 10) c in
    let push := V3.multiplyScalar normal (0.8 * severity) in
    let c := set_position (V3.add (position c) push) c in
    let c := set_speed (speed c * -0.5) c in
    let c := set_cameraShake (Some 0.8) c in
    emit (EvCollision (Some impulse)) c.

Definition handleCollisionSimple (W : World) (now : Q) (objPosition : Vec3)
    (c : state) : state :=
  let dir := v3_normalize W (V3.sub (position c) objPosition) in
  handleCollisionWithObject now dir 1 c.

(** *** Nitro *)

Definition useNitro (dt : Q) (c : state) : bool * state :=
  if JS.ltb 0 (nitroCooldown c) then (false, c)
  else if JS.leb (nitroAmount c) 0 then
    (false, emit EvNitroEmpty (set_nitroCooldown (nitroCooldownSec (config c)) c))
  else
    let drain := nitroDrainRate (config c) * dt in
    let c := set_nitroAmount (Qmax 0 (nitroAmount c - drain)) c in
    let c := if Qeq_bool (nitroAmount c) 0
             then set_nitroCooldown (nitroCooldownSec (config c)) c else c in
    (true, emit (EvNitro (nitroAmount c)) c).

Definition regenNitro (dt : Q) (c : state) : state :=
  if JS.ltb 0 (nitroCooldown c) then
    set_nitroCooldown (Qmax 0 (nitroCooldown c - dt)) c
  else
    set_nitroAmount
      (Qmin (nitroCapacity (config c)) (nitroAmount c + nitroRegenRate (config c) * dt)) c.

(** *** The stages of [update(input, dt)], in source order *)

(** 1. Acceleration and braking. *)
Definition accelerate (keys : Keys) (dt : Q) (c : state) : state :=
  let accInput := if key_w keys then 1 else 0 in
  let brakeInput := if key_s keys then 1 else 0 in
  let prev := match accSmoothed c with Some a => a | None => 0 end in
  let acc := JS.lerp prev (accInput - brakeInput) (Qmin 1 (dt * 8)) in
  let c := set_accSmoothed (Some acc) c in
  if JS.ltb 0.01 acc then set_speed (speed c + acceleration c * acc * dt) c
  else if JS.ltb acc (-0.01) then set_speed (speed c + acceleration c * acc * dt * 1.5) c
  else c.

(** Whether stage 2 takes the nitro branch. *)
Definition isUsingNitro (keys : Keys) (c : state) : bool :=
  key_shift keys && JS.ltb 0 (nitroAmount c) && JS.leb (nitroCooldown c) 0.

(** 2. Nitro. *)
Definition nitro (keys : Keys) (dt : Q) (c : state) : state :=
  if isUsingNitro keys c then
    let '(used, c) := useNitro dt c in
    if used then
      set_speed (Qmin (maxSpeed c * nitroPower (config c))
                      (speed c + acceleration c * dt * 1.2)) c
    else c
  else regenNitro dt c.

(** 3. Speed limiter. *)
Definition limitSpeed (c : state) : state :=
  let currentMax := maxSpeed c in
  let c := if JS.ltb currentMax (speed c) then set_speed currentMax c else c in
  if JS.ltb (speed c) (- currentMax / 2) then set_speed (- currentMax / 2) c else c.

(** 4. Friction. *)
Definition applyFriction (W : World) (dt : Q) (c : state) : state :=
  set_speed (speed c * Math_pow W (friction c) (dt * 60 * 0.016)) c.

(** 5. Steering and drift. *)
Definition steer (keys : Keys) (dt : Q) (c : state) : state :=
  if JS.ltb 0.03 (Qabs (speed c)) then
    let steerSign := if JS.ltb 0 (speed c) then 1 else -1 in
    let steerScale := Qabs (speed c) / maxSpeed c in
    let steerAmount := steeringPower c * dt * steerSign * steerScale in
    if key_a keys then
      let c := set_rotation (rotation c + steerAmount) c in
      set_driftFactor (JS.lerp (driftFactor c) (0.25 * steerScale) (Qmin 1 (dt * 6))) c
    else if key_d keys then
      let c := set_rotation (rotation c - steerAmount) c in
      set_driftFactor (JS.lerp (driftFactor c) (-0.25 * steerScale) (Qmin 1 (dt * 6))) c
    else
      set_driftFactor (JS.lerp (driftFactor c) 0 (Qmin 1 (dt * 6))) c
  else
    set_driftFactor (JS.lerp (driftFactor c) 0 (Qmin 1 (dt * 8))) c.

(** 6 and 7. Mesh yaw and tilt, wheel spin. *)
Definition pose (dt : Q) (c : state) : state :=
  let c := set_meshRotY (rotation c) c in
  let c := set_meshRotZ (driftFactor c * (speed c / Qmax 0.001 (maxSpeed c))) c in
  set_wheelSpinVel (JS.lerp (wheelSpinVel c) (speed c * 4) (Qmin 1 (dt * 8))) c.

(** [(0, 0, -1).applyQuaternion(mesh.quaternion)]: with Euler angles
    [(0, y, z)] in XYZ order the roll fixes the vector and the yaw
    turns it to [(-sin y, 0, -cos y)]. *)
Definition forward (W : World) (c : state) : Vec3 :=
  mkVec3 (- Math_sin W (meshRotY c)) 0 (- Math_cos W (meshRotY c)).

(** 8. Movement. *)
Definition move (W : World) (c : state) : state :=
  set_position (V3.addScaledVector (position c) (forward W c) (speed c)) c.

(** 9. Drift event. *)
Definition driftEvent (c : state) : state :=
  if JS.ltb 0.15 (Qabs (driftFactor c)) then emit (EvDrift (driftFactor c)) c else c.

(** The stages up to and including the speed limiter. *)
Definition throughLimiter (keys : Keys) (dt : Q) (c : state) : state :=
  limitSpeed (nitro keys dt (accelerate keys dt c)).

(** The body of [update] once the guards have passed. *)
Definition advance (W : World) (keys : Keys) (dt : Q) (c : state) : state :=
  driftEvent (move W (pose dt (steer keys dt
    (applyFriction W dt (throughLimiter keys dt c))))).

(** [update(input, dt)].  [input] is [None] when it is missing or has
    no [keys].  A [dt] that passes the guard is used through
    arithmetic only, hence as its ToNumber. *)
Definition update (W : World) (input : option Keys) (dt : JS.dt_value) (c : state) : state :=
  if JS.dt_rejected dt then c
  else
    let keys := match input with Some k => k | None => no_keys end in
    match JS.dt_toNumber dt with
    | Some q => advance W keys q c
    | None => c
    end.

(** *** Utilities *)

(** [reset(x, y, z)]; the timer it starts ends the invulnerability. *)
Definition reset (p : Vec3) (c : state) : state :=
  set_invulnerable true (set_nitroCooldown 0 (set_nitroAmount (nitroCapacity (config c))
    (set_health (maxHealth c) (set_rotation 0 (set_speed 0 (set_position p c)))))).

Definition endInvulnerability (c : state) : state := set_invulnerable false c.

(** The object built by [toJSON()]. *)
Record saved := mkSaved {
  s_position : Vec3;
  s_rotation : Q;
  s_speed : Q;
  s_health : Q;
  s_nitro : Q;
  s_progress : Q
}.

Definition toJSON (c : state) : saved :=
  {| s_position := position c; s_rotation := rotation c; s_speed := speed c;
     s_health := health c; s_nitro := nitroAmount c; s_progress := progress c |}.

(** [fromJSON(data)] on an object of the shape [toJSON] builds. *)
Definition fromJSON (data : saved) (c : state) : state :=
  let c := set_position (s_position data) c in
  let c := set_rotation (s_rotation data) c in
  let c := set_speed (s_speed data) c in
  let c := set_health (s_health data) c in
  let c := set_nitroAmount (s_nitro data) c in
  set_progress (s_progress data) c.
(** The calls the rest of the game makes on a car. *)
Inductive op :=
| OpUpdate (input : option Keys) (dt : JS.dt_value)
| OpDamage (amount : Q)
| OpRepair (amount : Q)
| OpCollide (now : Q) (normal : Vec3) (severity : Q)
| OpReset (p : Vec3)
| OpEndInvulnerability.

Definition apply (W : World) (o : op) (c : state) : state :=
  match o with
  | OpUpdate input dt => update W input dt c
  | OpDamage amount => applyDamage amount c
  | OpRepair amount => repair amount c
  | OpCollide now normal severity => handleCollisionWithObject now normal severity c
  | OpReset p => reset p c
  | OpEndInvulnerability => endInvulnerability c
  end.


End Car.

(** ** The rivals ([EnemyCar]) *)

Module EnemyCar.

(** [this.config]; [baseSpeed] and [nitroDuration] are drawn once by the
    constructor. *)
Record Config := mkConfig {
  baseSpeed : Q;
  nitroMultiplier : Q;
  nitroDuration : Q;
  nitroCooldownMin : Q;
  nitroCooldownMax : Q;
  laneSwitchMin : Q;
  laneSwitchMax : Q;
  laneWidth : Q;
  collisionRadius : Q
}.

(** The fields of an [EnemyCar]; [position] is [group.position],
    [meshRotZ] the banking of the chassis. *)
Record state := mkState {
  config : Config;
  progress : Q;
  speed : Q;
  laneOffset : Q;
  targetLaneOffset : Q;
  isNitroActive : bool;
  nitroTimer : Q;
  nitroCooldown : Q;
  tLane : Q;
  position : Vec3;
  meshRotZ : Q;
  nitroFlareVisible : bool;
  exhaustIntensity : Q;
  underglowIntensity : Q;
  events : list Event
}.

Definition set_progress (v : Q) (c : state) : state :=
  {| config := config c; progress := v; speed := speed c; laneOffset := laneOffset c;
     targetLaneOffset := targetLaneOffset c; isNitroActive := isNitroActive c;
     nitroTimer := nitroTimer c; nitroCooldown := nitroCooldown c; tLane := tLane c;
     position := position c; meshRotZ := meshRotZ c;
     nitroFlareVisible := nitroFlareVisible c; exhaustIntensity := exhaustIntensity c;
     underglowIntensity := underglowIntensity c; events := events c |}.
Definition set_speed (v : Q) (c : state) : state :=
  {| config := config c; progress := progress c; speed := v;
     laneOffset := laneOffset c; targetLaneOffset := targetLaneOffset c;
     isNitroActive := isNitroActive c; nitroTimer := nitroTimer c;
     nitroCooldown := nitroCooldown c; tLane := tLane c; position := position c;
     meshRotZ := meshRotZ c; nitroFlareVisible := nitroFlareVisible c;
     exhaustIntensity := exhaustIntensity c;
     underglowIntensity := underglowIntensity c; events := events c |}.
Definition set_laneOffset (v : Q) (c : state) : state :=
  {| config := config c; progress := progress c; speed := speed c; laneOffset := v;
     targetLaneOffset := targetLaneOffset c; isNitroActive := isNitroActive c;
     nitroTimer := nitroTimer c; nitroCooldown := nitroCooldown c; tLane := tLane c;
     position := position c; meshRotZ := meshRotZ c;
     nitroFlareVisible := nitroFlareVisible c; exhaustIntensity := exhaustIntensity c;
     underglowIntensity := underglowIntensity c; events := events c |}.
Definition set_targetLaneOffset (v : Q) (c : state) : state :=
  {| config := config c; progress := progress c; speed := speed c;
     laneOffset := laneOffset c; targetLaneOffset := v;
     isNitroActive := isNitroActive c; nitroTimer := nitroTimer c;
     nitroCooldown := nitroCooldown c; tLane := tLane c; position := position c;
     meshRotZ := meshRotZ c; nitroFlareVisible := nitroFlareVisible c;
     exhaustIntensity := exhaustIntensity c;
     underglowIntensity := underglowIntensity c; events := events c |}.
Definition set_isNitroActive (v : bool) (c : state) : state :=
  {| config := config c; progress := progress c; speed := speed c;
     laneOffset := laneOffset c; targetLaneOffset := targetLaneOffset c;
     isNitroActive := v; nitroTimer := nitroTimer c; nitroCooldown := nitroCooldown c;
     tLane := tLane c; position := position c; meshRotZ := meshRotZ c;
     nitroFlareVisible := nitroFlareVisible c; exhaustIntensity := exhaustIntensity c;
     underglowIntensity := underglowIntensity c; events := events c |}.
Definition set_nitroTimer (v : Q) (c : state) : state :=
  {| config := config c; progress := progress c; speed := speed c;
     laneOffset := laneOffset c; targetLaneOffset := targetLaneOffset c;
     isNitroActive := isNitroActive c; nitroTimer := v;
     nitroCooldown := nitroCooldown c; tLane := tLane c; position := position c;
     meshRotZ := meshRotZ c; nitroFlareVisible := nitroFlareVisible c;
     exhaustIntensity := exhaustIntensity c;
     underglowIntensity := underglowIntensity c; events := events c |}.
Definition set_nitroCooldown (v : Q) (c : state) : state :=
  {| config := config c; progress := progress c; speed := speed c;
     laneOffset := laneOffset c; targetLaneOffset := targetLaneOffset c;
     isNitroActive := isNitroActive c; nitroTimer := nitroTimer c; nitroCooldown := v;
     tLane := tLane c; position := position c; meshRotZ := meshRotZ c;
     nitroFlareVisible := nitroFlareVisible c; exhaustIntensity := exhaustIntensity c;
     underglowIntensity := underglowIntensity c; events := events c |}.
Definition set_tLane (v : Q) (c : state) : state :=
  {| config := config c; progress := progress c; speed := speed c;
     laneOffset := laneOffset c; targetLaneOffset := targetLaneOffset c;
     isNitroActive := isNitroActive c; nitroTimer := nitroTimer c;
     nitroCooldown := nitroCooldown c; tLane := v; position := position c;
     meshRotZ := meshRotZ c; nitroFlareVisible := nitroFlareVisible c;
     exhaustIntensity := exhaustIntensity c;
     underglowIntensity := underglowIntensity c; events := events c |}.
Definition set_position (v : Vec3) (c : state) : state :=
  {| config := config c; progress := progress c; speed := speed c;
     laneOffset := laneOffset c; targetLaneOffset := targetLaneOffset c;
     isNitroActive := isNitroActive c; nitroTimer := nitroTimer c;
     nitroCooldown := nitroCooldown c; tLane := tLane c; position := v;
     meshRotZ := meshRotZ c; nitroFlareVisible := nitroFlareVisible c;
     exhaustIntensity := exhaustIntensity c;
     underglowIntensity := underglowIntensity c; events := events c |}.
Definition set_meshRotZ (v : Q) (c : state) : state :=
  {| config := config c; progress := progress c; speed := speed c;
     laneOffset := laneOffset c; targetLaneOffset := targetLaneOffset c;
     isNitroActive := isNitroActive c; nitroTimer := nitroTimer c;
     nitroCooldown := nitroCooldown c; tLane := tLane c; position := position c;
     meshRotZ := v; nitroFlareVisible := nitroFlareVisible c;
     exhaustIntensity := exhaustIntensity c;
     underglowIntensity := underglowIntensity c; events := events c |}.
Definition set_nitroFlareVisible (v : bool) (c : state) : state :=
  {| config := config c; progress := progress c; speed := speed c;
     laneOffset := laneOffset c; targetLaneOffset := targetLaneOffset c;
     isNitroActive := isNitroActive c; nitroTimer := nitroTimer c;
     nitroCooldown := nitroCooldown c; tLane := tLane c; position := position c;
     meshRotZ := meshRotZ c; nitroFlareVisible := v;
     exhaustIntensity := exhaustIntensity c;
     underglowIntensity := underglowIntensity c; events := events c |}.
Definition set_exhaustIntensity (v : Q) (c : state) : state :=
  {| config := config c; progress := progress c; speed := speed c;
     laneOffset := laneOffset c; targetLaneOffset := targetLaneOffset c;
     isNitroActive := isNitroActive c; nitroTimer := nitroTimer c;
     nitroCooldown := nitroCooldown c; tLane := tLane c; position := position c;
     meshRotZ := meshRotZ c; nitroFlareVisible := nitroFlareVisible c;
     exhaustIntensity := v; underglowIntensity := underglowIntensity c;
     events := events c |}.
Definition set_underglowIntensity (v : Q) (c : state) : state :=
  {| config := config c; progress := progress c; speed := speed c;
     laneOffset := laneOffset c; targetLaneOffset := targetLaneOffset c;
     isNitroActive := isNitroActive c; nitroTimer := nitroTimer c;
     nitroCooldown := nitroCooldown c; tLane := tLane c; position := position c;
     meshRotZ := meshRotZ c; nitroFlareVisible := nitroFlareVisible c;
     exhaustIntensity := exhaustIntensity c; underglowIntensity := v;
     events := events c |}.
Definition set_events (v : list Event) (c : state) : state :=
  {| config := config c; progress := progress c; speed := speed c;
     laneOffset := laneOffset c; targetLaneOffset := targetLaneOffset c;
     isNitroActive := isNitroActive c; nitroTimer := nitroTimer c;
     nitroCooldown := nitroCooldown c; tLane := tLane c; position := position c;
     meshRotZ := meshRotZ c; nitroFlareVisible := nitroFlareVisible c;
     exhaustIntensity := exhaustIntensity c;
     underglowIntensity := underglowIntensity c; events := v |}.
Definition emit (e : Event) (c : state) : state := set_events (events c ++ [e]) c.

(** [new EnemyCar(scene, trackCurve, color, laneOffset)]: five draws, in
    the order the constructor makes them. *)
Definition create (lane : Q) (g : Rng) : state * Rng :=
  let '(r1, g) := random g in
  let '(r2, g) := random g in
  let cfg := {| baseSpeed := 0.18 + r1 * 0.06; nitroMultiplier := 1.6;
                nitroDuration := 1.5 + r2 * 1.5; nitroCooldownMin := 4;
                nitroCooldownMax := 12; laneSwitchMin := 2.5; laneSwitchMax := 6;
                laneWidth := 4.5; collisionRadius := 2 |} in
  let '(r3, g) := random g in
  let '(r4, g) := random g in
  let '(r5, g) := random g in
  ({| config := cfg; progress := r3; speed := baseSpeed cfg; laneOffset := lane;
      targetLaneOffset := lane; isNitroActive := false; nitroTimer := 0;
      nitroCooldown := nitroCooldownMin cfg
                       + r4 * (nitroCooldownMax cfg - nitroCooldownMin cfg);
      tLane := r5 * (laneSwitchMax cfg - laneSwitchMin cfg) + laneSwitchMin cfg;
      position := V3.zero; meshRotZ := 0; nitroFlareVisible := false;
      exhaustIntensity := 4; underglowIntensity := 6; events := [] |}, g).

Definition requestNitro (c : state) : bool * state :=
  if isNitroActive c || JS.ltb 0 (nitroCooldown c) then (false, c)
  else
    let c := set_isNitroActive true c in
    let c := set_nitroTimer (nitroDuration (config c)) c in
    (true, emit EvNitroStart c).

(** *** The stages of [update(dt, options)], in source order.
    [leader] is [options.playerProgress], [None] when it is [null] or
    absent. *)

Definition cooldownTick (dt : Q) (c : state) : state :=
  set_nitroCooldown (Qmax 0 (nitroCooldown c - dt)) c.

(** The rubber-band test, the left operand of [||]. *)
Definition trailing (leader : option Q) (c : state) : bool :=
  match leader with
  | Some p => JS.ltb (progress c + 0.05) p
  | None => false
  end.

(** The activation heuristic.  [Math.random()] is the right operand of
    [||]: it is read only when the rubber-band test fails. *)
Definition nitroHeuristic (leader : option Q) (c : state) (g : Rng) : state * Rng :=
  if negb (isNitroActive c) && JS.leb (nitroCooldown c) 0 then
    let '(should, g) :=
      if trailing leader c then (true, g)
      else let '(r, g) := random g in (JS.ltb r 0.002, g) in
    if should then (snd (requestNitro c), g) else (c, g)
  else (c, g).

Definition nitroDrive (dt : Q) (c : state) (g : Rng) : state * Rng :=
  if isNitroActive c then
    let c := set_nitroTimer (nitroTimer c - dt) c in
    let target := baseSpeed (config c) * nitroMultiplier (config c) in
    let c := set_speed (JS.lerp (speed c) target (Qmin 1 (dt * 6))) c in
    let c := set_nitroFlareVisible true c in
    let c := set_exhaustIntensity 12 c in
    let c := set_underglowIntensity 12 c in
    if JS.leb (nitroTimer c) 0 then
      let c := set_isNitroActive false c in
      let '(r, g) := random g in
      let c := set_nitroCooldown
                 (nitroCooldownMin (config c)
                  + r * (nitroCooldownMax (config c) - nitroCooldownMin (config c))) c in
      let c := set_nitroFlareVisible false c in
      (emit EvNitroEnd c, g)
    else (c, g)
  else
    let c := set_speed (JS.lerp (speed c) (baseSpeed (config c)) (dt * 0.5)) c in
    let c := set_exhaustIntensity 4 c in
    (set_underglowIntensity 6 c, g).

(** [this.progress += this.speed * dt; this.progress %= 1]. *)
Definition progressStep (dt : Q) (c : state) : state :=
  let c := set_progress (progress c + speed c * dt) c in
  set_progress (JS.rem (progress c) 1) c.

Definition laneSwitch (dt : Q) (c : state) (g : Rng) : state * Rng :=
  let c := set_tLane (tLane c - dt) c in
  let '(c, g) :=
    if JS.leb (tLane c) 0 then
      let '(rng, g) := random g in
      let c := set_targetLaneOffset ((rng - 0.5) * laneWidth (config c) * 2) c in
      let '(r, g) := random g in
      (set_tLane (laneSwitchMin (config c)
                  + r * (laneSwitchMax (config c) - laneSwitchMin (config c))) c, g)
    else (c, g) in
  let laneLerp := Qmin 1 (dt * (if isNitroActive c then 2.8 else 1.6)) in
  (set_laneOffset (JS.lerp (laneOffset c) (targetLaneOffset c) laneLerp) c, g).

(** Placement on the track and banking. *)
Definition place (W : World) (c : state) : state :=
  let pos := getPointAt W (progress c) in
  let tangent := getTangentAt W (progress c) in
  let side := v3_normalize W (V3.crossVectors (mkVec3 0 1 0) tangent) in
  let c := set_position (V3.addScaledVector pos side (laneOffset c)) c in
  set_meshRotZ ((targetLaneOffset c - laneOffset c) * 0.02) c.

(** The body of [update] once the guard has passed. *)
Definition advance (W : World) (dt : Q) (leader : option Q) (c : state) (g : Rng)
    : state * Rng :=
  let c := cooldownTick dt c in
  let '(c, g) := nitroHeuristic leader c g in
  let '(c, g) := nitroDrive dt c g in
  let c := progressStep dt c in
  let '(c, g) := laneSwitch dt c g in
  (place W c, g).

(** [update(dt, options)], with the same guard as the player's car. *)
Definition update (W : World) (dt : JS.dt_value) (leader : option Q)
    (c : state) (g : Rng) : state * Rng :=
  if JS.dt_rejected dt then (c, g)
  else
    match JS.dt_toNumber dt with
    | Some q => advance W q leader c g
    | None => (c, g)
    end.

(** [handleCollisionSimple(obj)]. *)
Definition handleCollisionSimple (W : World) (objPosition : Vec3) (c : state) : state :=
  let dir := v3_normalize W (V3.sub (position c) objPosition) in
  let c := set_position (V3.addScaledVector (position c) dir 0.8) c in
  let c := set_speed (speed c * -0.5) c in
  emit (EvCollision None) c.

End EnemyCar.

(** ** Saved objects: [fromJSON] on arbitrary data

    A saved object, and the vehicle it is read into, as property maps:
    [fromJSON] is given whatever the caller parsed, so its guards are
    modelled on untyped values.  The position of a car is the nested
    [mesh.position], written here with dotted keys. *)

Module Saved.

Definition data_or_empty (data : option (gmap string JS.value)) : gmap string JS.value :=
  match data with Some d => d | None => ∅ end.

(** [Vector3.fromArray(array)]: [x = array[0]; y = array[1]; z = array[2]]. *)
Definition fromArray (a : JS.value) (this : gmap string JS.value) : gmap string JS.value :=
  <["mesh.position.z" := JS.index a 2]>
    (<["mesh.position.y" := JS.index a 1]>
      (<["mesh.position.x" := JS.index a 0]> this)).

(** [if (typeof data.k === 'number') this.f = data.k]. *)
Definition assign_number (data : gmap string JS.value) (k f : string)
    (this : gmap string JS.value) : gmap string JS.value :=
  if JS.is_number (JS.get data k) then <[f := JS.get data k]> this else this.

(** [if (data.k != null) this.k = data.k]. *)
Definition assign_present (data : gmap string JS.value) (k : string)
    (this : gmap string JS.value) : gmap string JS.value :=
  if JS.not_nullish (JS.get data k) then <[k := JS.get data k]> this else this.

(** [Car.fromJSON(data = {})]; [None] is a call without argument. *)
Definition car_fromJSON (data : option (gmap string JS.value))
    (this : gmap string JS.value) : gmap string JS.value :=
  let data := data_or_empty data in
  let this := if JS.truthy (JS.get data "position")
              then fromArray (JS.get data "position") this else this in
  let this := assign_number data "rotation" "rotation" this in
  let this := assign_number data "speed" "speed" this in
  let this := assign_number data "health" "health" this in
  let this := assign_number data "nitro" "nitroAmount" this in
  assign_number data "progress" "progress" this.

(** [EnemyCar.fromJSON(data = {})]. *)
Definition enemy_fromJSON (data : option (gmap string JS.value))
    (this : gmap string JS.value) : gmap string JS.value :=
  let data := data_or_empty data in
  let this := assign_present data "progress" this in
  let this := assign_present data "laneOffset" this in
  let this := assign_present data "speed" this in
  assign_present data "isNitroActive" this.

(** The object [Car.toJSON()] returns. *)
Definition car_encode (d : Car.saved) : gmap string JS.value :=
  <["position" := JS.Arr [JS.Number (vx (Car.s_position d));
                          JS.Number (vy (Car.s_position d));
                          JS.Number (vz (Car.s_position d))]]>
  (<["rotation" := JS.Number (Car.s_rotation d)]>
  (<["speed" := JS.Number (Car.s_speed d)]>
  (<["health" := JS.Number (Car.s_health d)]>
  (<["nitro" := JS.Number (Car.s_nitro d)]>
  (<["progress" := JS.Number (Car.s_progress d)]> ∅))))).

Definition opt_number (o : option Q) : JS.value :=
  match o with Some q => JS.Number q | None => JS.Undefined end.

(** The state-carrying properties of a [Car] object. *)
Definition car_props (c : Car.state) : gmap string JS.value :=
  <["speed" := JS.Number (Car.speed c)]>
  (<["maxSpeed" := JS.Number (Car.maxSpeed c)]>
  (<["acceleration" := JS.Number (Car.acceleration c)]>
  (<["friction" := JS.Number (Car.friction c)]>
  (<["rotation" := JS.Number (Car.rotation c)]>
  (<["steeringPower" := JS.Number (Car.steeringPower c)]>
  (<["driftFactor" := JS.Number (Car.driftFactor c)]>
  (<["maxHealth" := JS.Number (Car.maxHealth c)]>
  (<["health" := JS.Number (Car.health c)]>
  (<["invulnerable" := JS.Boolean (Car.invulnerable c)]>
  (<["nitroAmount" := JS.Number (Car.nitroAmount c)]>
  (<["nitroCooldown" := JS.Number (Car.nitroCooldown c)]>
  (<["progress" := JS.Number (Car.progress c)]>
  (<["mesh.position.x" := JS.Number (vx (Car.position c))]>
  (<["mesh.position.y" := JS.Number (vy (Car.position c))]>
  (<["mesh.position.z" := JS.Number (vz (Car.position c))]>
  (<["mesh.rotation.y" := JS.Number (Car.meshRotY c)]>
  (<["mesh.rotation.z" := JS.Number (Car.meshRotZ c)]>
  (<["_accSmoothed" := opt_number (Car.accSmoothed c)]>
  (<["_wheelSpinVel" := JS.Number (Car.wheelSpinVel c)]>
  (<["cameraShake" := opt_number (Car.cameraShake c)]>
  (<["_lastCollisionTime" := JS.Number (Car.lastCollisionTime c)]>
  (<["boundingRadius" := JS.Number (Car.boundingRadius c)]> ∅)))))))))))))))))))))).
(** The object [EnemyCar.toJSON()] returns. *)
Definition enemy_toJSON (this : gmap string JS.value) : gmap string JS.value :=
  <["progress" := JS.get this "progress"]>
  (<["laneOffset" := JS.get this "laneOffset"]>
  (<["speed" := JS.get this "speed"]>
  (<["isNitroActive" := JS.get this "isNitroActive"]> ∅))).


End Saved.

(** ** The track ([src/world/Track.js]) *)

Module Track.

(** A destructible crate: its position and [userData]. *)
Record Crate := mkCrate {
  cratePosition : Vec3;
  hit : bool;
  visible : bool;
  scoreValue : Q
}.

(** A crate as [createSceneryProps] registers it. *)
Definition newCrate (p : Vec3) : Crate :=
  {| cratePosition := p; hit := false; visible := true; scoreValue := 100 |}.

(** A registered building: its position and [userData.radius]. *)
Record Pillar := mkPillar { pillarPosition : Vec3; radius : Q }.

Definition samples : nat := 200.

(** The parameter [i / samples] of sample [i]. *)
Definition sampleAt (i : nat) : Q := inject_Z (Z.of_nat i) / inject_Z (Z.of_nat samples).

(** One turn of the sampling loop; the running minimum is [None] while
    it is still [Infinity]. *)
Definition sampleStep (W : World) (p : Vec3) (best : option Q * Q) (i : nat)
    : option Q * Q :=
  let t := sampleAt i in
  let d := V3.distanceToSquared (getPointAt W t) p in
  match fst best with
  | None => (Some d, t)
  | Some minDist => if JS.ltb d minDist then (Some d, t) else best
  end.

(** [getTrackProgress(position)]: [i] runs from 0 to [samples] included. *)
Definition getTrackProgress (W : World) (p : Vec3) : Q :=
  snd (fold_left (sampleStep W p) (seq 0 (S samples)) (None, 0)).
(** The object [getClosestPointOnTrack] returns; [distanceSq] is [None]
    while it is [Infinity]. *)
Record Closest := mkClosest { point : Vec3; closest_t : Q; distanceSq : option Q }.

Definition closestStep (W : World) (p : Vec3) (samples : nat) (best : option Q * Q)
    (i : nat) : option Q * Q :=
  let t := inject_Z (Z.of_nat i) / inject_Z (Z.of_nat samples) in
  let d := V3.distanceToSquared (getPointAt W t) p in
  match fst best with
  | None => (Some d, t)
  | Some minDist => if JS.ltb d minDist then (Some d, t) else best
  end.

(** [getClosestPointOnTrack(position, samples = 200)], for a positive
    number of samples. *)
Definition getClosestPointOnTrack (W : World) (p : Vec3) (samples : nat) : Closest :=
  let best := fold_left (closestStep W p samples) (seq 0 (S samples)) (None, 0) in
  {| point := getPointAt W (snd best); closest_t := snd best; distanceSq := fst best |}.


End Track.

(** ** The engine: race logic and collisions ([Game]) *)

Module Game.

Inductive GameState := LOADING | MENU | PLAYING | PAUSED | GAMEOVER.

Definition is_playing (s : GameState) : bool :=
  match s with PLAYING => true | _ => false end.

(** The simulation fields of [Game]; [bestLapTime] is [None] while it
    is [Infinity]. *)
Record state := mkState {
  gameState : GameState;
  score : Q;
  lap : Z;
  maxLaps : Z;
  checkpointReached : bool;
  lapStartTime : Q;
  bestLapTime : option Q;
  currentLapTime : Q;
  cameraShake : Q;
  player : Car.state;
  rivals : list EnemyCar.state;
  destructibles : list Track.Crate;
  colliders : list Track.Pillar;
  startLinePos : Vec3;
  halfwayPos : Vec3
}.

Definition set_gameState (v : GameState) (c : state) : state :=
  {| gameState := v; score := score c; lap := lap c; maxLaps := maxLaps c;
     checkpointReached := checkpointReached c; lapStartTime := lapStartTime c;
     bestLapTime := bestLapTime c; currentLapTime := currentLapTime c;
     cameraShake := cameraShake c; player := player c; rivals := rivals c;
     destructibles := destructibles c; colliders := colliders c;
     startLinePos := startLinePos c; halfwayPos := halfwayPos c |}.
Definition set_score (v : Q) (c : state) : state :=
  {| gameState := gameState c; score := v; lap := lap c; maxLaps := maxLaps c;
     checkpointReached := checkpointReached c; lapStartTime := lapStartTime c;
     bestLapTime := bestLapTime c; currentLapTime := currentLapTime c;
     cameraShake := cameraShake c; player := player c; rivals := rivals c;
     destructibles := destructibles c; colliders := colliders c;
     startLinePos := startLinePos c; halfwayPos := halfwayPos c |}.
Definition set_lap (v : Z) (c : state) : state :=
  {| gameState := gameState c; score := score c; lap := v; maxLaps := maxLaps c;
     checkpointReached := checkpointReached c; lapStartTime := lapStartTime c;
     bestLapTime := bestLapTime c; currentLapTime := currentLapTime c;
     cameraShake := cameraShake c; player := player c; rivals := rivals c;
     destructibles := destructibles c; colliders := colliders c;
     startLinePos := startLinePos c; halfwayPos := halfwayPos c |}.
Definition set_checkpointReached (v : bool) (c : state) : state :=
  {| gameState := gameState c; score := score c; lap := lap c; maxLaps := maxLaps c;
     checkpointReached := v; lapStartTime := lapStartTime c;
     bestLapTime := bestLapTime c; currentLapTime := currentLapTime c;
     cameraShake := cameraShake c; player := player c; rivals := rivals c;
     destructibles := destructibles c; colliders := colliders c;
     startLinePos := startLinePos c; halfwayPos := halfwayPos c |}.
Definition set_lapStartTime (v : Q) (c : state) : state :=
  {| gameState := gameState c; score := score c; lap := lap c; maxLaps := maxLaps c;
     checkpointReached := checkpointReached c; lapStartTime := v;
     bestLapTime := bestLapTime c; currentLapTime := currentLapTime c;
     cameraShake := cameraShake c; player := player c; rivals := rivals c;
     destructibles := destructibles c; colliders := colliders c;
     startLinePos := startLinePos c; halfwayPos := halfwayPos c |}.
Definition set_bestLapTime (v : option Q) (c : state) : state :=
  {| gameState := gameState c; score := score c; lap := lap c; maxLaps := maxLaps c;
     checkpointReached := checkpointReached c; lapStartTime := lapStartTime c;
     bestLapTime := v; currentLapTime := currentLapTime c;
     cameraShake := cameraShake c; player := player c; rivals := rivals c;
     destructibles := destructibles c; colliders := colliders c;
     startLinePos := startLinePos c; halfwayPos := halfwayPos c |}.
Definition set_currentLapTime (v : Q) (c : state) : state :=
  {| gameState := gameState c; score := score c; lap := lap c; maxLaps := maxLaps c;
     checkpointReached := checkpointReached c; lapStartTime := lapStartTime c;
     bestLapTime := bestLapTime c; currentLapTime := v; cameraShake := cameraShake c;
     player := player c; rivals := rivals c; destructibles := destructibles c;
     colliders := colliders c; startLinePos := startLinePos c;
     halfwayPos := halfwayPos c |}.
Definition set_cameraShake (v : Q) (c : state) : state :=
  {| gameState := gameState c; score := score c; lap := lap c; maxLaps := maxLaps c;
     checkpointReached := checkpointReached c; lapStartTime := lapStartTime c;
     bestLapTime := bestLapTime c; currentLapTime := currentLapTime c;
     cameraShake := v; player := player c; rivals := rivals c;
     destructibles := destructibles c; colliders := colliders c;
     startLinePos := startLinePos c; halfwayPos := halfwayPos c |}.
Definition set_player (v : Car.state) (c : state) : state :=
  {| gameState := gameState c; score := score c; lap := lap c; maxLaps := maxLaps c;
     checkpointReached := checkpointReached c; lapStartTime := lapStartTime c;
     bestLapTime := bestLapTime c; currentLapTime := currentLapTime c;
     cameraShake := cameraShake c; player := v; rivals := rivals c;
     destructibles := destructibles c; colliders := colliders c;
     startLinePos := startLinePos c; halfwayPos := halfwayPos c |}.
Definition set_rivals (v : list EnemyCar.state) (c : state) : state :=
  {| gameState := gameState c; score := score c; lap := lap c; maxLaps := maxLaps c;
     checkpointReached := checkpointReached c; lapStartTime := lapStartTime c;
     bestLapTime := bestLapTime c; currentLapTime := currentLapTime c;
     cameraShake := cameraShake c; player := player c; rivals := v;
     destructibles := destructibles c; colliders := colliders c;
     startLinePos := startLinePos c; halfwayPos := halfwayPos c |}.
Definition set_destructibles (v : list Track.Crate) (c : state) : state :=
  {| gameState := gameState c; score := score c; lap := lap c; maxLaps := maxLaps c;
     checkpointReached := checkpointReached c; lapStartTime := lapStartTime c;
     bestLapTime := bestLapTime c; currentLapTime := currentLapTime c;
     cameraShake := cameraShake c; player := player c; rivals := rivals c;
     destructibles := v; colliders := colliders c; startLinePos := startLinePos c;
     halfwayPos := halfwayPos c |}.
(** [userData.scoreValue || 100] and [userData.radius || 5]. *)
Definition awardOf (obj : Track.Crate) : Q :=
  if Qeq_bool (Track.scoreValue obj) 0 then 100 else Track.scoreValue obj.

Definition pillarRadiusOf (p : Track.Pillar) : Q :=
  if Qeq_bool (Track.radius p) 0 then 5 else Track.radius p.

(** [this.player.boundingRadius || 2]. *)
Definition playerRadius (g : state) : Q :=
  if Qeq_bool (Car.boundingRadius (player g)) 0 then 2 else Car.boundingRadius (player g).

(** [r.config.collisionRadius ? r.config.collisionRadius : 2]. *)
Definition rivalRadius (r : EnemyCar.state) : Q :=
  if Qeq_bool (EnemyCar.collisionRadius (EnemyCar.config r)) 0 then 2
  else EnemyCar.collisionRadius (EnemyCar.config r).

(** [computeRank()]. *)
Definition computeRank (g : state) : Z :=
  fold_left (fun worse r =>
               if JS.ltb (Car.progress (player g)) (EnemyCar.progress r)
               then (worse + 1)%Z else worse)
            (rivals g) 1%Z.

Definition finishRace (g : state) : state :=
  let g := set_gameState GAMEOVER g in
  set_player (Car.set_speed 0 (player g)) g.


(** *** Race logic *)

(** The checkpoint test of [updateRaceLogic]. *)
Definition nearHalfway (g : state) (pos : Vec3) : bool :=
  V3.distanceTo_lt pos (halfwayPos g) 80.

(** The finish-line test of [updateRaceLogic]. *)
Definition nearStart (g : state) (pos : Vec3) : bool :=
  V3.distanceTo_lt pos (startLinePos g) 80.

Definition armCheckpoint (pos : Vec3) (g : state) : state :=
  if negb (checkpointReached g) && nearHalfway g pos
  then set_checkpointReached true g else g.

Definition completeLap (now : Q) (g : state) : state :=
  let g := set_lap (lap g + 1)%Z g in
  let g := set_checkpointReached false g in
  let lapTime := (now - lapStartTime g) / 1000 in
  let g := match bestLapTime g with
           | None => set_bestLapTime (Some lapTime) g
           | Some best => if JS.ltb lapTime best then set_bestLapTime (Some lapTime) g else g
           end in
  let g := set_lapStartTime now g in
  if (maxLaps g <? lap g)%Z then finishRace g else g.

Definition finishLine (pos : Vec3) (now : Q) (g : state) : state :=
  if checkpointReached g && nearStart g pos then completeLap now g else g.

(** [updateRaceLogic(dt)].  The clock is read once per call; the
    player's position is the one the frame's movement left. *)
Definition updateRaceLogic (W : World) (now : Q) (g : state) : state :=
  if negb (is_playing (gameState g)) then g
  else
    let pos := Car.position (player g) in
    let g := set_player (Car.set_progress (Track.getTrackProgress W pos) (player g)) g in
    let g := armCheckpoint pos g in
    let g := finishLine pos now g in
    if is_playing (gameState g)
    then set_currentLapTime ((now - lapStartTime g) / 1000) g
    else g.

(** *** Collisions *)

Definition markHit (obj : Track.Crate) : Track.Crate :=
  {| Track.cratePosition := Track.cratePosition obj; Track.hit := true;
     Track.visible := false; Track.scoreValue := Track.scoreValue obj |}.

(** The effect of [triggerDestruction(obj)] on everything but [obj]. *)
Definition triggerDestruction (obj : Track.Crate) (g : state) : state :=
  let g := set_player (Car.set_speed (Car.speed (player g) * 0.85) (player g)) g in
  let g := set_cameraShake 0.5 g in
  set_score (score g + awardOf obj) g.

(** The pose the player's bounding box is computed from. *)
Definition poseOf (p : Car.state) : Vec3 * Q * Q :=
  (Car.position p, Car.meshRotY p, Car.meshRotZ p).

(** The collision test of one prop against the player: the
    squared-distance filter, then the boxes. *)
Definition overlapsCrate (W : World) (p : Car.state) (obj : Track.Crate) : bool :=
  JS.ltb (V3.distanceToSquared (Car.position p) (Track.cratePosition obj)) 200
  && boxesIntersect W (poseOf p) (Track.cratePosition obj).

(** One turn of the loop over [track.destructibles]. *)
Definition visitCrate (W : World) (obj : Track.Crate) (g : state) : Track.Crate * state :=
  if Track.hit obj then (obj, g)
  else if overlapsCrate W (player g) obj then (markHit obj, triggerDestruction obj g)
  else (obj, g).

(** The loop runs from the last prop to the first. *)
Definition destructiblesLoop (W : World) (objs : list Track.Crate) (g : state)
    : list Track.Crate * state :=
  fold_right (fun obj acc =>
                let '(obj', g') := visitCrate W obj (snd acc) in
                (obj' :: fst acc, g'))
             ([], g) objs.

Definition destructiblesPass (W : World) (g : state) : state :=
  let '(objs, g') := destructiblesLoop W (destructibles g) g in
  set_destructibles objs g'.

(** One turn of [rivals.forEach]: the rival is pushed first, then the
    player, from the rival's new position. *)
Definition visitRival (W : World) (now : Q) (r : EnemyCar.state) (g : state)
    : EnemyCar.state * state :=
  if V3.distanceTo_lt (Car.position (player g)) (EnemyCar.position r)
       (playerRadius g + rivalRadius r)
  then
    let r' := EnemyCar.handleCollisionSimple W (Car.position (player g)) r in
    let p' := Car.handleCollisionSimple W now (EnemyCar.position r') (player g) in
    (r', set_cameraShake 0.8 (set_player p' g))
  else (r, g).

Definition rivalsLoop (W : World) (now : Q) (rs : list EnemyCar.state) (g : state)
    : list EnemyCar.state * state :=
  fold_left (fun acc r =>
               let '(r', g') := visitRival W now r (snd acc) in
               (fst acc ++ [r'], g'))
            rs ([], g).

Definition rivalsPass (W : World) (now : Q) (g : state) : state :=
  let '(rs, g') := rivalsLoop W now (rivals g) g in
  set_rivals rs g'.

Definition visitPillar (W : World) (g : state) (pillar : Track.Pillar) : state :=
  let playerPos := Car.position (player g) in
  if V3.distanceTo_lt playerPos (Track.pillarPosition pillar)
       (pillarRadiusOf pillar + playerRadius g)
  then
    let g := set_player (Car.set_speed (Car.speed (player g) * -0.5) (player g)) g in
    let g := set_cameraShake 0.8 g in
    let dir := v3_normalize W (V3.sub playerPos (Track.pillarPosition pillar)) in
    set_player (Car.set_position (V3.addScaledVector playerPos dir 1) (player g)) g
  else g.

Definition pillarsPass (W : World) (g : state) : state :=
  fold_left (visitPillar W) (colliders g) g.

Definition respawnPlayer (g : state) : state :=
  let p := Car.set_position (mkVec3 0 5 0) (player g) in
  let p := Car.set_speed 0 p in
  let p := Car.set_meshRotZ 0 (Car.set_meshRotY 0 p) in
  set_cameraShake 1 (set_player p g).

(** [updateCollisions(dt)]. *)
Definition updateCollisions (W : World) (now : Q) (g : state) : state :=
  if negb (is_playing (gameState g)) then g
  else
    let g := destructiblesPass W g in
    let g := rivalsPass W now g in
    let g := pillarsPass W g in
    if JS.ltb (vy (Car.position (player g))) (-40) then respawnPlayer g else g.
(** *** The collision pass as [init] wires it

    [init] registers a listener for [collision] on every rival and on
    the player, and they run inside [emit].  The rival's raises
    [cameraShake] to at least 0.6.  The player's raises it to at least
    0.8 and then calls [audioManager.playSound], a method that
    [AudioManager] does not have: the [TypeError] leaves the listener,
    [emit], the player's collision handlers, the [forEach] and
    [updateCollisions].  A player inside its 100 ms debounce emits
    nothing. *)

Module Wired.

(** Whether the player's car resolves a collision at time [now], or
    ignores it as too close to the last one. *)
Definition playerResolves (now : Q) (g : state) : bool :=
  negb (JS.ltb (now - Car.lastCollisionTime (player g)) 100).

(** The overlap test of the rivals' loop. *)
Definition touches (r : EnemyCar.state) (g : state) : bool :=
  V3.distanceTo_lt (Car.position (player g)) (EnemyCar.position r)
    (playerRadius g + rivalRadius r).

(** One turn of [rivals.forEach], and whether it was left by the
    [TypeError]; the assignment [cameraShake = 0.8] that ends the turn
    is then not reached. *)
Definition visitRival (W : World) (now : Q) (r : EnemyCar.state) (g : state)
    : EnemyCar.state * state * bool :=
  let '(r', g') := visitRival W now r g in
  if touches r g && playerResolves now g
  then (r', set_cameraShake (Qmax (Qmax (cameraShake g) 0.6) 0.8) g', true)
  else (r', g', false).

(** [rivals.forEach]: the rivals in order, up to the first turn that
    throws. *)
Fixpoint rivalsLoop (W : World) (now : Q) (rs : list EnemyCar.state) (g : state)
    : list EnemyCar.state * state * bool :=
  match rs with
  | [] => ([], g, false)
  | r :: rest =>
      let '(r', g', thrown) := visitRival W now r g in
      if thrown then (r' :: rest, g', true)
      else
        let '(rest', g'', thrown') := rivalsLoop W now rest g' in
        (r' :: rest', g'', thrown')
  end.

Definition rivalsPass (W : World) (now : Q) (g : state) : state * bool :=
  let '(rs, g', thrown) := rivalsLoop W now (rivals g) g in
  (set_rivals rs g', thrown).

(** [updateCollisions(dt)].  The flag tells whether the call was left
    by the [TypeError], in which case the buildings and the void are
    not looked at. *)
Definition updateCollisions (W : World) (now : Q) (g : state) : state * bool :=
  if negb (is_playing (gameState g)) then (g, false)
  else
    let g := destructiblesPass W g in
    let '(g, thrown) := rivalsPass W now g in
    if thrown then (g, true)
    else
      let g := pillarsPass W g in
      (if JS.ltb (vy (Car.position (player g))) (-40) then respawnPlayer g else g, false).

End Wired.

(** *** Input *)

(** [this.input]: [keys[k]] is [undefined] until key [k] is seen. *)
Record Input := mkInput {
  keys : gmap string bool;
  touchLeft : bool;
  touchRight : bool;
  touchNitro : bool;
  gyroLane : Q
}.

Definition initialInput : Input :=
  {| keys := ∅; touchLeft := false; touchRight := false; touchNitro := false;
     gyroLane := 1 |}.

(** The truth value of [this.input.keys.k]. *)
Definition held (i : Input) (k : string) : bool :=
  match keys i !! k with Some b => b | None => false end.

Definition set_keys (v : gmap string bool) (i : Input) : Input :=
  {| keys := v; touchLeft := touchLeft i; touchRight := touchRight i;
     touchNitro := touchNitro i; gyroLane := gyroLane i |}.

Definition set_gyroLane (v : Q) (i : Input) : Input :=
  {| keys := keys i; touchLeft := touchLeft i; touchRight := touchRight i;
     touchNitro := touchNitro i; gyroLane := v |}.

Definition togglePause (s : GameState) : GameState :=
  match s with
  | PLAYING => PAUSED
  | PAUSED => PLAYING
  | _ => s
  end.

(** [handleKeyDown(e)] and [handleKeyUp(e)]; [key] is
    [e.key.toLowerCase()]. *)
Definition handleKeyDown (key : string) (i : Input) (s : GameState) : Input * GameState :=
  let i := set_keys (<[key := true]> (keys i)) i in
  let s := if String.eqb key "p" then togglePause s else s in
  let s := if String.eqb key "escape" && is_playing s then togglePause s else s in
  (i, s).

Definition handleKeyUp (key : string) (i : Input) : Input :=
  set_keys (<[key := false]> (keys i)) i.

(** The touch zones [createTouchControls] listens on; [down] is
    [touchstart], otherwise [touchend]. *)
Inductive Zone := ZoneLeft | ZoneRight | ZoneNitro.

Definition touch (z : Zone) (down : bool) (i : Input) : Input :=
  match z with
  | ZoneLeft => {| keys := keys i; touchLeft := down; touchRight := touchRight i;
                   touchNitro := touchNitro i; gyroLane := gyroLane i |}
  | ZoneRight => {| keys := keys i; touchLeft := touchLeft i; touchRight := down;
                    touchNitro := touchNitro i; gyroLane := gyroLane i |}
  | ZoneNitro => {| keys := keys i; touchLeft := touchLeft i; touchRight := touchRight i;
                    touchNitro := down; gyroLane := gyroLane i |}
  end.

(** The [deviceorientation] listener; [gamma] is [None] when it is
    [null]. *)
Definition deviceOrientation (gamma : option Q) (i : Input) : Input :=
  match gamma with
  | None => i
  | Some tilt => set_gyroLane (Qmax 0 (Qmin 2 (1 + tilt / 45))) i
  end.

(** [getSteeringInput()]; [gyro] tells whether the browser has
    [window.DeviceOrientationEvent] ([gyroLane] is never [undefined]). *)
Definition getSteeringInput (gyro : bool) (i : Input) : Q :=
  if gyro then gyroLane i
  else
    let steer := 0 in
    let steer := if held i "arrowleft" || held i "a" || touchLeft i
                 then steer - 1 else steer in
    let steer := if held i "arrowright" || held i "d" || touchRight i
                 then steer + 1 else steer in
    1 + steer.

(** [getNitroInput()]. *)
Definition getNitroInput (i : Input) : bool := held i "shift" || touchNitro i.

(** *** The main loop *)

(** The listener of [drift]: [score += Math.floor(Math.abs(factor) * 10)]. *)
Definition driftPoints (e : Event) : Q :=
  match e with
  | EvDrift factor => inject_Z (Qfloor (Qabs factor * 10))
  | _ => 0
  end.

(** [this.player.update(this.getSteeringInput(), this.getNitroInput(), dt)].
    [Car.update] takes [(input, dt)]: it receives the steering lane, a
    number and so without [keys], as its input and the nitro flag as
    its [dt]; the time step comes third and is dropped.  The listener
    of [drift] runs on the events the call emits. *)
Definition playerUpdate (W : World) (i : Input) (g : state) : state :=
  let p := Car.update W None (JS.DtBoolean (getNitroInput i)) (player g) in
  let emitted := drop (length (Car.events (player g))) (Car.events p) in
  set_score (fold_left (fun s e => s + driftPoints e) emitted (score g))
    (set_player p g).




(** *** The HUD *)

(** The nitro gauge of the HUD: [this.nitroAmount] and [this.maxNitro]
    of the game, not of the car. *)
Record Hud := mkHud { nitroAmount : Q; maxNitro : Q }.

(** What [updateUI(dt)] does to the gauge. *)
Definition updateUI (dt : Q) (i : Input) (s : GameState) (h : Hud) : Hud :=
  if negb (is_playing s) then h
  else if getNitroInput i && JS.ltb 0 (nitroAmount h)
  then {| nitroAmount := nitroAmount h - 30 * dt; maxNitro := maxNitro h |}
  else {| nitroAmount := Qmin (maxNitro h) (nitroAmount h + 5 * dt);
          maxNitro := maxNitro h |}.

(** The width of the gauge in percent: [Math.max(0, this.nitroAmount)]. *)
Definition nitroFillWidth (h : Hud) : Q := Qmax 0 (nitroAmount h).

(** [Math.floor(seconds / 60)], [Math.floor(seconds % 60)] and
    [Math.floor((seconds % 1) * 10)]. *)
Definition timeParts (seconds : Q) : Z * Z * Z :=
  (Qfloor (seconds / 60), Qfloor (JS.rem seconds 60), Qfloor (JS.rem seconds 1 * 10)).

(** [s.padStart(2, '0')]. *)
Definition padStart2 (s : string) : string :=
  match String.length s with
  | O => "00" +:+ s
  | S O => "0" +:+ s
  | _ => s
  end.

(** [formatTime(seconds)]. *)
Definition formatTime (seconds : Q) : string :=
  let '(mins, secs, tenths) := timeParts seconds in
  pretty mins +:+ ":" +:+ padStart2 (pretty secs) +:+ "." +:+ pretty tenths.


End Game.

(** ** The keyboard ([Input]) *)

Module Input.

(** [this.keys]. *)
Record state := mkState {
  forward : bool;
  backward : bool;
  left : bool;
  right : bool;
  space : bool;
  shift : bool;
  w : bool;
  a : bool;
  s : bool;
  d : bool
}.

(** The keys as the constructor leaves them. *)
Definition create : state :=
  {| forward := false; backward := false; left := false; right := false;
     space := false; shift := false; w := false; a := false; s := false; d := false |}.

(** The cases of the [switch] on [e.code]. *)
Inductive Key := Forward | Backward | Left | Right | Space | Shift.

Definition keyOf (code : string) : option Key :=
  if String.eqb code "ArrowUp" || String.eqb code "KeyW" then Some Forward
  else if String.eqb code "ArrowDown" || String.eqb code "KeyS" then Some Backward
  else if String.eqb code "ArrowLeft" || String.eqb code "KeyA" then Some Left
  else if String.eqb code "ArrowRight" || String.eqb code "KeyD" then Some Right
  else if String.eqb code "Space" then Some Space
  else if String.eqb code "ShiftLeft" || String.eqb code "ShiftRight" then Some Shift
  else None.

Definition write (k : Key) (v : bool) (st : state) : state :=
  match k with
  | Forward => {| forward := v; backward := backward st; left := left st;
                  right := right st; space := space st; shift := shift st;
                  w := v; a := a st; s := s st; d := d st |}
  | Backward => {| forward := forward st; backward := v; left := left st;
                   right := right st; space := space st; shift := shift st;
                   w := w st; a := a st; s := v; d := d st |}
  | Left => {| forward := forward st; backward := backward st; left := v;
               right := right st; space := space st; shift := shift st;
               w := w st; a := v; s := s st; d := d st |}
  | Right => {| forward := forward st; backward := backward st; left := left st;
                right := v; space := space st; shift := shift st;
                w := w st; a := a st; s := s st; d := v |}
  | Space => {| forward := forward st; backward := backward st; left := left st;
                right := right st; space := v; shift := shift st;
                w := w st; a := a st; s := s st; d := d st |}
  | Shift => {| forward := forward st; backward := backward st; left := left st;
                right := right st; space := space st; shift := v;
                w := w st; a := a st; s := s st; d := d st |}
  end.

(** [onKeyDown(e)] and [onKeyUp(e)], from [e.code]. *)
Definition onKeyDown (code : string) (st : state) : state :=
  match keyOf code with Some k => write k true st | None => st end.

Definition onKeyUp (code : string) (st : state) : state :=
  match keyOf code with Some k => write k false st | None => st end.

(** The keys [Car.update] reads from an [Input] passed as its input. *)
Definition toKeys (st : state) : Car.Keys :=
  {| Car.key_w := w st; Car.key_s := s st; Car.key_a := a st; Car.key_d := d st;
     Car.key_shift := shift st |}.

End Input.

(** ** Runs: sequences of frames *)

Module Run.

(** Successive [Car.update] calls, one per pair of keys and [dt]. *)
Definition car (W : World) (inputs : list (option Car.Keys * JS.dt_value))
    (c : Car.state) : Car.state :=
  fold_left (fun c i => Car.update W (fst i) (snd i) c) inputs c.

(** One frame of race logic: the frame's movement has left the player
    at [fst f], and the clock reads [snd f]. *)
Definition raceFrame (W : World) (f : Vec3 * Q) (g : Game.state) : Game.state :=
  Game.updateRaceLogic W (snd f)
    (Game.set_player (Car.set_position (fst f) (Game.player g)) g).

Definition race (W : World) (fs : list (Vec3 * Q)) (g : Game.state) : Game.state :=
  fold_left (fun g f => raceFrame W f g) fs g.

(** One frame of the loop over the destructible props, entered with
    the player as the frame's movement left it. *)
Definition crateFrame (W : World) (p : Car.state) (g : Game.state) : Game.state :=
  Game.destructiblesPass W (Game.set_player p g).

Definition crates (W : World) (ps : list Car.state) (g : Game.state) : Game.state :=
  fold_left (fun g p => crateFrame W p g) ps g.

(** The [hit] flag of prop [i]; a missing prop reads as [false]. *)
Definition hitOf (g : Game.state) (i : nat) : bool :=
  match Game.destructibles g !! i with
  | Some obj => Track.hit obj
  | None => false
  end.

(** The flag of prop [i] before the first frame and after each frame. *)
Fixpoint hitHistory (W : World) (ps : list Car.state) (g : Game.state) (i : nat)
    : list bool :=
  hitOf g i ::
  match ps with
  | [] => []
  | p :: ps' => hitHistory W ps' (crateFrame W p g) i
  end.

(** How often a sequence of flags goes from [false] to [true]. *)
Fixpoint rises (l : list bool) : nat :=
  match l with
  | a :: ((b :: _) as tl) => (if negb a && b then 1 else 0) + rises tl
  | _ => 0
  end%nat.
(** A sequence of calls on a car. *)
Definition ops (W : World) (os : list Car.op) (c : Car.state) : Car.state :=
  fold_left (fun c o => Car.apply W o c) os c.

(** What reaches [this.input] and the game state from the page. *)
Inductive InputEvent :=
| KeyDown (key : string)
| KeyUp (key : string)
| Touch (z : Game.Zone) (down : bool)
| Orientation (gamma : option Q).

Definition handle (e : InputEvent) (st : Game.Input * Game.GameState)
    : Game.Input * Game.GameState :=
  match e with
  | KeyDown key => Game.handleKeyDown key (fst st) (snd st)
  | KeyUp key => (Game.handleKeyUp key (fst st), snd st)
  | Touch z down => (Game.touch z down (fst st), snd st)
  | Orientation gamma => (Game.deviceOrientation gamma (fst st), snd st)
  end.

Definition inputs (es : list InputEvent) (st : Game.Input * Game.GameState)
    : Game.Input * Game.GameState :=
  fold_left (fun st e => handle e st) es st.



(** Successive [updateUI] calls. *)
Definition hud (s : Game.GameState) (fs : list (Q * Game.Input)) (h : Game.Hud) : Game.Hud :=
  fold_left (fun h f => Game.updateUI (fst f) (snd f) s h) fs h.

(** Successive key events on an [Input] object. *)
Definition keyboard (es : list (bool * string)) (k : Input.state) : Input.state :=
  fold_left (fun k (e : bool * string) => if fst e then Input.onKeyDown (snd e) k else Input.onKeyUp (snd e) k)
            es k.


End Run.

(** ** A computable world

    Low-order rational approximations of the numeric library, the
    polygon through the control points of [createTrackSpline] for the
    curve, and axis-aligned boxes for the props.  It serves to run the
    model on concrete inputs; the general statements quantify over every
    [World]. *)

Module Reference.

Definition pow (b e : Q) : Q :=
  let x := b - 1 in
  Qred (1 + e * x + e * (e - 1) / 2 * x * x + e * (e - 1) * (e - 2) / 6 * x * x * x).

Definition sin (x : Q) : Q := Qred (x - x * x * x / 6 + x * x * x * x * x / 120).
Definition cos (x : Q) : Q := Qred (1 - x * x / 2 + x * x * x * x / 24).

(** The integer square root of the value scaled by [10^12]: exact on
    squares of rationals with at most six decimals. *)
Definition sqrt (q : Q) : Q :=
  Qred (Z.sqrt (Qnum q * Zpos (Qden q) * 1000000000000) # (Qden q * 1000000)).

Definition controlPoints : list Vec3 :=
  [ mkVec3 0 0 0; mkVec3 120 18 180; mkVec3 360 34 320; mkVec3 700 15 200;
    mkVec3 640 (-8) (-240); mkVec3 320 (-22) (-420); mkVec3 90 (-12) (-150);
    mkVec3 (-140) 6 (-40); mkVec3 (-300) 12 160; mkVec3 (-120) 18 300 ].

Definition vertex (i : Z) : Vec3 :=
  nth (Z.to_nat (i mod 10)) controlPoints V3.zero.

Definition pointAt (u : Q) : Vec3 :=
  let s := u * 10 in
  let i := Qfloor s in
  let f := s - inject_Z i in
  V3.addScaledVector (vertex i) (V3.sub (vertex (i + 1)) (vertex i)) f.

Definition tangentAt (u : Q) : Vec3 :=
  let i := Qfloor (u * 10) in
  V3.sub (vertex (i + 1)) (vertex i).

Definition boxes (pose : Vec3 * Q * Q) (obj : Vec3) : bool :=
  let p := fst (fst pose) in
  JS.leb (Qabs (vx p - vx obj)) 2.35 && JS.leb (Qabs (vy p - vy obj)) 2.5
  && JS.leb (Qabs (vz p - vz obj)) 3.05.

Definition world : World :=
  {| Math_pow := pow; Math_sin := sin; Math_cos := cos; Math_sqrt := sqrt;
     getPointAt := pointAt; getTangentAt := tangentAt; boxesIntersect := boxes |}.

End Reference.

(** ** Vocabulary of the statements *)

(** The tunables the nitro subsystem needs to be non-negative. *)
Definition sane (cfg : Car.Config) : Prop :=
  0 <= Car.nitroCapacity cfg /\ 0 <= Car.nitroDrainRate cfg /\
  0 <= Car.nitroRegenRate cfg /\ 0 <= Car.nitroCooldownSec cfg.

Definition nitro_inv (c : Car.state) : Prop :=
  (0 <= Car.nitroAmount c <= Car.nitroCapacity (Car.config c)) /\
  (0 <= Car.nitroCooldown c <= Car.nitroCooldownSec (Car.config c)).

(** The nitro fields and the configuration, the part of the state the
    other stages leave alone. *)
Definition nitro_view (c : Car.state) : Car.Config * Q * Q :=
  (Car.config c, Car.nitroAmount c, Car.nitroCooldown c).

(** The fields of a car that [toJSON] does not save. *)
Definition unsaved (c : Car.state) :=
  (Car.config c, Car.maxSpeed c, Car.acceleration c, Car.friction c,
   Car.steeringPower c, Car.driftFactor c, Car.maxHealth c, Car.invulnerable c,
   Car.nitroCooldown c, Car.meshRotY c, Car.meshRotZ c, Car.accSmoothed c,
   Car.wheelSpinVel c, Car.cameraShake c, Car.lastCollisionTime c,
   Car.boundingRadius c, Car.events c).

(** Two saved objects holding the same numbers. *)
Definition saved_equiv (a b : Car.saved) : Prop :=
  V3.eqv (Car.s_position a) (Car.s_position b) /\
  Car.s_rotation a == Car.s_rotation b /\ Car.s_speed a == Car.s_speed b /\
  Car.s_health a == Car.s_health b /\ Car.s_nitro a == Car.s_nitro b /\
  Car.s_progress a == Car.s_progress b.

(** Whether an [EvDamage] was emitted between two states of a log. *)
Definition damage_emitted (before after : list Event) : Prop :=
  exists a, In (EvDamage a) (skipn (length before) after).

(** A displacement from [before] to [after] along [u], by a positive
    amount. *)
Definition corrected_along (u before after : Vec3) : Prop :=
  exists k, 0 < k /\ V3.eqv after (V3.addScaledVector before u k).

(** Vehicle-vehicle resolution as the specification words it: both
    vehicles displaced along the unit vector pointing from the other to
    themselves, both damaged. *)
Definition symmetric_resolution (W : World) (now : Q) (r : EnemyCar.state)
    (g : Game.state) : Prop :=
  let p := Game.player g in
  let r' := fst (Game.visitRival W now r g) in
  let p' := Game.player (snd (Game.visitRival W now r g)) in
  corrected_along (v3_normalize W (V3.sub (EnemyCar.position r) (Car.position p)))
                  (EnemyCar.position r) (EnemyCar.position r') /\
  corrected_along (v3_normalize W (V3.sub (Car.position p) (EnemyCar.position r)))
                  (Car.position p) (Car.position p') /\
  damage_emitted (Car.events p) (Car.events p') /\
  damage_emitted (EnemyCar.events r) (EnemyCar.events r').

(** The sum of a list of numbers. *)
Definition Qsum (l : list Q) : Q := fold_right Qplus 0 l.

(** Whether some frame of a run finds the player overlapping a prop. *)
Definition touched (W : World) (ps : list Car.state) (obj : Track.Crate) : bool :=
  existsb (fun p => Game.overlapsCrate W p obj) ps.

(** What a prop adds to the score over a run: its award if it was
    standing at the start and is touched, nothing otherwise. *)
Definition contribution (W : World) (ps : list Car.state) (obj : Track.Crate) : Q :=
  if negb (Track.hit obj) && touched W ps obj then Game.awardOf obj else 0.

(** The props a frame destroys. *)
Definition destroyedBy (W : World) (p : Car.state) (objs : list Track.Crate)
    : list Track.Crate :=
  List.filter (fun o => negb (Track.hit o) && Game.overlapsCrate W p o) objs.

(** A [dt] that is a positive number, as the specification reads it. *)
Definition positive_number (d : JS.dt_value) : Prop :=
  match d with
  | JS.DtNumber q => 0 < q
  | _ => False
  end.

(** The values of [dt] the guard [!dt || dt <= 0] turns away: numbers
    that are not positive, [NaN], [undefined], [null] and [false]. *)
Definition ignored_dt (d : JS.dt_value) : Prop :=
  match d with
  | JS.DtNumber q => q <= 0
  | JS.DtNaN | JS.DtUndefined | JS.DtNull => True
  | JS.DtBoolean b => b = false
  end.

(** What [EnemyCar.fromJSON] stores under key [k]: the value of [data]
    there, whatever its type, unless it is [null] or [undefined]. *)
Definition enemy_written (data : gmap string JS.value) (k : string) : option JS.value :=
  let present_at src :=
    if JS.not_nullish (JS.get data src) then Some (JS.get data src) else None in
  if bool_decide (k = "progress") then present_at "progress"
  else if bool_decide (k = "laneOffset") then present_at "laneOffset"
  else if bool_decide (k = "speed") then present_at "speed"
  else if bool_decide (k = "isNitroActive") then present_at "isNitroActive"
  else None.

(** What [Car.fromJSON] stores under key [k]: a number for the five
    scalar fields, and for the three coordinates the first three
    elements of [data.position] whenever that value is truthy. *)
Definition car_written (data : gmap string JS.value) (k : string) : option JS.value :=
  let number_at src :=
    if JS.is_number (JS.get data src) then Some (JS.get data src) else None in
  let coordinate i :=
    if JS.truthy (JS.get data "position")
    then Some (JS.index (JS.get data "position") i) else None in
  if bool_decide (k = "rotation") then number_at "rotation"
  else if bool_decide (k = "speed") then number_at "speed"
  else if bool_decide (k = "health") then number_at "health"
  else if bool_decide (k = "nitroAmount") then number_at "nitro"
  else if bool_decide (k = "progress") then number_at "progress"
  else if bool_decide (k = "mesh.position.x") then coordinate 0%nat
  else if bool_decide (k = "mesh.position.y") then coordinate 1%nat
  else if bool_decide (k = "mesh.position.z") then coordinate 2%nat
  else None.

(** The type a saved rival field is meant to have. *)
Definition enemy_expected (k : string) (v : JS.value) : bool :=
  if bool_decide (k = "isNitroActive")
  then match JS.typeof v with JS.TBoolean => true | _ => false end
  else if bool_decide (k = "progress") || bool_decide (k = "laneOffset")
          || bool_decide (k = "speed")
  then JS.is_number v
  else false.

(** [EnemyCar.fromJSON] as the specification words it: a field is
    overwritten exactly when its key is present with the expected type. *)
Definition enemy_typed_overwrite (data this : gmap string JS.value) : Prop :=
  forall k, Saved.enemy_fromJSON (Some data) this !! k
            = if enemy_expected k (JS.get data k) then Some (JS.get data k)
              else this !! k.

(** The part of the game the checkpoint latch lives in. *)
Definition latch (g : Game.state) : Z * bool * Vec3 * Vec3 :=
  (Game.lap g, Game.checkpointReached g, Game.halfwayPos g, Game.startLinePos g).

(** What one frame does to one prop, and what it then adds to the score. *)
Definition touch (W : World) (p : Car.state) (o : Track.Crate) : Track.Crate :=
  if Track.hit o then o else if Game.overlapsCrate W p o then Game.markHit o else o.

Definition award (W : World) (p : Car.state) (o : Track.Crate) : Q :=
  if negb (Track.hit o) && Game.overlapsCrate W p o then Game.awardOf o else 0.

(** What the nitro stages of a rival decide. *)
Definition drive (c : EnemyCar.state) : list Event * Q * bool * Q :=
  (EnemyCar.events c, EnemyCar.nitroTimer c, EnemyCar.isNitroActive c, EnemyCar.speed c).

(** The squared distance from sample [i] of the curve to a position. *)
Definition sampleDist (W : World) (p : Vec3) (i : nat) : Q :=
  V3.distanceToSquared (getPointAt W (Track.sampleAt i)) p.

Module Examples.

Definition keys_w_shift : Car.Keys := Car.mkKeys true false false false true.
Definition keys_shift : Car.Keys := Car.mkKeys false false false false true.

(** A default car restored at speed 1.39, just under [maxSpeed]. *)
Definition fastCar : Car.state := Car.set_speed 1.39 (Car.create Car.defaults).

(** A rival as [resetRace] leaves the first one: progress 0, speed 0.3. *)
Definition rivalConfig : EnemyCar.Config :=
  {| EnemyCar.baseSpeed := 0.2; EnemyCar.nitroMultiplier := 1.6;
     EnemyCar.nitroDuration := 2; EnemyCar.nitroCooldownMin := 4;
     EnemyCar.nitroCooldownMax := 12; EnemyCar.laneSwitchMin := 2.5;
     EnemyCar.laneSwitchMax := 6; EnemyCar.laneWidth := 4.5;
     EnemyCar.collisionRadius := 2 |}.

Definition rivalAtStart : EnemyCar.state :=
  {| EnemyCar.config := rivalConfig; EnemyCar.progress := 0; EnemyCar.speed := 0.3;
     EnemyCar.laneOffset := -4.5; EnemyCar.targetLaneOffset := -4.5;
     EnemyCar.isNitroActive := false; EnemyCar.nitroTimer := 0;
     EnemyCar.nitroCooldown := 5; EnemyCar.tLane := 3;
     EnemyCar.position := V3.zero; EnemyCar.meshRotZ := 0;
     EnemyCar.nitroFlareVisible := false; EnemyCar.exhaustIntensity := 4;
     EnemyCar.underglowIntensity := 6; EnemyCar.events := [] |}.

(** The same rival once the player, three units away, has bumped it. *)
Definition rivalBumped : EnemyCar.state :=
  EnemyCar.handleCollisionSimple Reference.world (mkVec3 3 0 0) rivalAtStart.

(** A stream of draws that are all one half. *)
Definition halves : Rng := mkRng (fun _ => 0.5) 0.

(** A race in progress on the reference track: one rival, one crate,
    one building. *)
Definition game0 : Game.state :=
  {| Game.gameState := Game.PLAYING; Game.score := 0; Game.lap := 1; Game.maxLaps := 3;
     Game.checkpointReached := false; Game.lapStartTime := 0; Game.bestLapTime := None;
     Game.currentLapTime := 0; Game.cameraShake := 0;
     Game.player := Car.create Car.defaults; Game.rivals := [rivalAtStart];
     Game.destructibles := [Track.newCrate (mkVec3 10 2 0); Track.newCrate (mkVec3 50 2 0)];
     Game.colliders := [Track.mkPillar (mkVec3 200 0 0) 20];
     Game.startLinePos := Reference.pointAt 0;
     Game.halfwayPos := Reference.pointAt 0.25 |}.

(** A default car that has held nitro for four frames of one second:
    the tank is empty and the cooldown has started. *)
Definition drainedCar : Car.state :=
  Run.car Reference.world
    [ (Some keys_shift, JS.DtNumber 1); (Some keys_shift, JS.DtNumber 1);
      (Some keys_shift, JS.DtNumber 1); (Some keys_shift, JS.DtNumber 1) ]
    (Car.create Car.defaults).

(** The player at the origin at speed 1 and a rival three units away:
    the spheres of radius 2 overlap. *)
Definition rivalNear : EnemyCar.state := EnemyCar.set_position (mkVec3 3 0 0) rivalAtStart.

Definition contactGame : Game.state :=
  Game.set_player (Car.set_speed 1 (Car.create Car.defaults)) game0.

End Examples.

(** Sine and cosine give equal numbers on equal numbers. *)
Definition trig_respects_eq (W : World) : Prop :=
  (forall x y, x == y -> Math_sin W x == Math_sin W y) /\
  (forall x y, x == y -> Math_cos W x == Math_cos W y).

(** The smoothed acceleration [update] starts from:
    [this._accSmoothed || 0]. *)
Definition acc_or_zero (c : Car.state) : Q :=
  match Car.accSmoothed c with Some a => a | None => 0 end.

(** Two cars of the same tuning. *)
Definition same_tuning (a b : Car.state) : Prop :=
  Car.config a = Car.config b /\ Car.maxSpeed a = Car.maxSpeed b /\
  Car.acceleration a = Car.acceleration b /\ Car.friction a = Car.friction b /\
  Car.steeringPower a = Car.steeringPower b.

(** The state that [toJSON] leaves out and that [update] reads to
    move the car: nitro cooldown, drift factor and smoothed
    acceleration. *)
Definition same_hidden_state (a b : Car.state) : Prop :=
  Car.nitroCooldown a == Car.nitroCooldown b /\
  Car.driftFactor a == Car.driftFactor b /\
  acc_or_zero a == acc_or_zero b.

(** Two cars in the same state: tuning, saved fields, nitro cooldown,
    drift factor and smoothed acceleration.  Left out are the mesh
    rotation and the wheel spin, which [update] writes for the
    renderer, and what only collisions read (invulnerability, time of
    the last collision). *)
Definition alike (a b : Car.state) : Prop :=
  same_tuning a b /\ same_hidden_state a b /\ saved_equiv (Car.toJSON a) (Car.toJSON b).

(** Two events of the same name with the same payload. *)
Definition event_alike (e1 e2 : Event) : Prop :=
  match e1, e2 with
  | EvDamage a, EvDamage b | EvNitro a, EvNitro b | EvDrift a, EvDrift b => a == b
  | EvCollision (Some a), EvCollision (Some b) => a == b
  | EvCollision None, EvCollision None => True
  | EvDestroyed, EvDestroyed | EvNitroEmpty, EvNitroEmpty
  | EvNitroStart, EvNitroStart | EvNitroEnd, EvNitroEnd => True
  | _, _ => False
  end.

(** Two cars that have emitted the same events since their logs were
    [base1] and [base2]. *)
Definition emitted_alike (base1 base2 : list Event) (c1 c2 : Car.state) : Prop :=
  exists l1 l2,
    Car.events c1 = base1 ++ l1 /\ Car.events c2 = base2 ++ l2 /\
    Forall2 event_alike l1 l2.

(** Alike in state and in what they have emitted. *)
Definition in_step (base1 base2 : list Event) (c1 c2 : Car.state) : Prop :=
  alike c1 c2 /\ emitted_alike base1 base2 c1 c2.

(** A default car that drove for three frames and then coasted for one
    long frame: it is moving, its smoothed acceleration and its drift
    factor are back to zero. *)
Definition coastingCar : Car.state :=
  Run.car Reference.world
    [ (Some (Car.mkKeys true false false false false), JS.DtNumber 0.05);
      (Some (Car.mkKeys true false true false false), JS.DtNumber 0.05);
      (Some (Car.mkKeys true false false false false), JS.DtNumber 0.05);
      (None, JS.DtNumber 0.2) ]
    (Car.create Car.defaults).



(** Damage, repairs and collision severities that are not negative. *)
Definition op_nonneg (o : Car.op) : Prop :=
  match o with
  | Car.OpDamage amount | Car.OpRepair amount => 0 <= amount
  | Car.OpCollide _ _ severity => 0 <= severity
  | _ => True
  end.

(** The fields of a car [update] only reads. *)
Definition static (c : Car.state) :=
  (Car.config c, Car.maxSpeed c, Car.acceleration c, Car.friction c,
   Car.steeringPower c, Car.maxHealth c, Car.health c, Car.invulnerable c,
   Car.progress c, Car.cameraShake c, Car.lastCollisionTime c, Car.boundingRadius c).


(** A smoothed acceleration that is an intent in [[-1, 1]]. *)
Definition intent_in_range (a : option Q) : Prop :=
  match a with
  | Some x => -1 <= x <= 1
  | None => True
  end.

(** The aliases of an [Input] object agree with the keys they mirror. *)
Definition input_aliased (st : Input.state) : Prop :=
  Input.w st = Input.forward st /\ Input.s st = Input.backward st /\
  Input.a st = Input.left st /\ Input.d st = Input.right st.

(** The flag an [Input] object holds for a case of its [switch]. *)
Definition key_state (k : Input.Key) (st : Input.state) : bool :=
  match k with
  | Input.Forward => Input.forward st
  | Input.Backward => Input.backward st
  | Input.Left => Input.left st
  | Input.Right => Input.right st
  | Input.Space => Input.space st
  | Input.Shift => Input.shift st
  end.

Definition same_key (k k' : Input.Key) : bool :=
  match k, k' with
  | Input.Forward, Input.Forward | Input.Backward, Input.Backward
  | Input.Left, Input.Left | Input.Right, Input.Right
  | Input.Space, Input.Space | Input.Shift, Input.Shift => true
  | _, _ => false
  end.

(** The direction of the last event of [es] that concerns [k]. *)
Definition last_event (k : Input.Key) (es : list (bool * string)) : option bool :=
  fold_left (fun acc (e : bool * string) =>
               match Input.keyOf (snd e) with
               | Some k' => if same_key k' k then Some (fst e) else acc
               | None => acc
               end)
            es None.

(** A game that is being raced, paused or not. *)
Definition in_race (s : Game.GameState) : bool :=
  match s with Game.PLAYING | Game.PAUSED => true | _ => false end.

(** The rivals [computeRank] counts. *)
Definition ahead (g : Game.state) (r : EnemyCar.state) : bool :=
  JS.ltb (Car.progress (Game.player g)) (EnemyCar.progress r).

(** The keys [EnemyCar.toJSON] writes. *)
Definition enemy_saved_keys : list string :=
  ["progress"; "laneOffset"; "speed"; "isNitroActive"].

(** A best lap time that is at least as good as an earlier one;
    [None] is [Infinity]. *)
Definition best_improves (before after : option Q) : Prop :=
  match before, after with
  | Some b, Some b' => b' <= b
  | Some _, None => False
  | None, _ => True
  end.

(** What the race logic decides: state of the game, lap counter, lap
    limit and best lap. *)
Definition standing (g : Game.state) :=
  (Game.gameState g, Game.lap g, Game.maxLaps g, Game.bestLapTime g).

(** A car that stands still, with a speed limit that is not negative. *)
Definition at_rest (c : Car.state) : Prop :=
  Car.speed c == 0 /\ 0 <= Car.maxSpeed c.

(** What the overlap test and the debounce of the rivals' loop read of
    the player. *)
Definition contact (g : Game.state) :=
  (Car.position (Game.player g), Car.boundingRadius (Game.player g),
   Car.lastCollisionTime (Game.player g)).

(** * Properties *)

(** ** Comparisons, minima and maxima *)

Lemma ltb_true (a b : Q) : JS.ltb a b = true <-> a < b.
Proof.
  unfold JS.ltb. rewrite negb_true_iff. split; intros H.
  - destruct (Qlt_le_dec a b) as [|Hle]; [assumption|].
    apply Qle_bool_iff in Hle. congruence.
  - destruct (Qle_bool b a) eqn:E; [|reflexivity].
    apply Qle_bool_iff in E. lra.
Qed.

Lemma ltb_false (a b : Q) : JS.ltb a b = false <-> b <= a.
Proof.
  unfold JS.ltb. rewrite negb_false_iff. apply Qle_bool_iff.
Qed.

Lemma leb_true (a b : Q) : JS.leb a b = true <-> a <= b.
Proof. apply Qle_bool_iff. Qed.

Lemma leb_false (a b : Q) : JS.leb a b = false <-> b < a.
Proof.
  unfold JS.leb. split; intros H.
  - destruct (Qlt_le_dec b a) as [|Hle]; [assumption|].
    apply Qle_bool_iff in Hle. congruence.
  - destruct (Qle_bool a b) eqn:E; [|reflexivity].
    apply Qle_bool_iff in E. lra.
Qed.

Lemma eqb_true (a b : Q) : Qeq_bool a b = true <-> a == b.
Proof. apply Qeq_bool_iff. Qed.

Lemma eqb_false (a b : Q) : Qeq_bool a b = false <-> ~ a == b.
Proof.
  split; intros H.
  - intros E. apply Qeq_bool_iff in E. congruence.
  - destruct (Qeq_bool a b) eqn:E; [|reflexivity].
    apply Qeq_bool_iff in E. contradiction.
Qed.

(** Case analysis on the comparisons of the model, turning each into
    the order fact it decides. *)
Ltac cmp_cases :=
  repeat match goal with
  | |- context [JS.ltb ?a ?b] =>
      let E := fresh "Hcmp" in
      destruct (JS.ltb a b) eqn:E;
      [apply ltb_true in E | apply ltb_false in E]
  | |- context [JS.leb ?a ?b] =>
      let E := fresh "Hcmp" in
      destruct (JS.leb a b) eqn:E;
      [apply leb_true in E | apply leb_false in E]
  | |- context [Qeq_bool ?a ?b] =>
      let E := fresh "Hcmp" in
      destruct (Qeq_bool a b) eqn:E;
      [apply eqb_true in E | apply eqb_false in E]
  end.

(** Linear arithmetic after the divisions by constants are computed. *)
Ltac qlra :=
  unfold Qdiv in *;
  repeat match goal with
  | |- context [Qinv (Qmake ?n ?d)] =>
      let r := eval cbv in (Qinv (Qmake n d)) in
      change (Qinv (Qmake n d)) with r
  | H : context [Qinv (Qmake ?n ?d)] |- _ =>
      let r := eval cbv in (Qinv (Qmake n d)) in
      change (Qinv (Qmake n d)) with r in H
  end;
  lra.

Lemma max0_bounds (x hi : Q) : 0 <= hi -> x <= hi -> 0 <= Qmax 0 x <= hi.
Proof.
  intros Hhi Hx. split; [apply Q.le_max_l | apply Q.max_lub; assumption].
Qed.

Lemma min_bounds (cap x : Q) : 0 <= cap -> 0 <= x -> 0 <= Qmin cap x <= cap.
Proof.
  intros Hc Hx. split; [apply Q.min_glb; assumption | apply Q.le_min_l].
Qed.

(** A [dt] that passes the guard is a positive number of seconds. *)
Lemma dt_accepted (d : JS.dt_value) :
  JS.dt_rejected d = false -> exists q, JS.dt_toNumber d = Some q /\ 0 < q.
Proof.
  unfold JS.dt_rejected. intros H. apply orb_false_iff in H as [Hf Hle].
  destruct d as [q| | | |b]; simpl in *; try discriminate.
  - exists q. split; [reflexivity|]. now apply leb_false.
  - destruct b; [|discriminate]. exists 1. split; [reflexivity|lra].
Qed.

(** ** Nitro bounds (C1) *)

Section NitroBounds.

Context (W : World).

Ltac frame_stage :=
  intros; unfold nitro_view;
  repeat match goal with
  | |- context [if ?b then _ else _] => destruct b
  end; reflexivity.

Lemma accelerate_nitro keys dt c :
  nitro_view (Car.accelerate keys dt c) = nitro_view c.
Proof. unfold Car.accelerate. frame_stage. Qed.

Lemma limitSpeed_nitro c : nitro_view (Car.limitSpeed c) = nitro_view c.
Proof. unfold Car.limitSpeed. frame_stage. Qed.

Lemma applyFriction_nitro dt c : nitro_view (Car.applyFriction W dt c) = nitro_view c.
Proof. reflexivity. Qed.

Lemma steer_nitro keys dt c : nitro_view (Car.steer keys dt c) = nitro_view c.
Proof. unfold Car.steer. frame_stage. Qed.

Lemma pose_nitro dt c : nitro_view (Car.pose dt c) = nitro_view c.
Proof. reflexivity. Qed.

Lemma move_nitro c : nitro_view (Car.move W c) = nitro_view c.
Proof. reflexivity. Qed.

Lemma driftEvent_nitro c : nitro_view (Car.driftEvent c) = nitro_view c.
Proof. unfold Car.driftEvent. frame_stage. Qed.

Lemma nitro_view_config c c' : nitro_view c' = nitro_view c -> Car.config c' = Car.config c.
Proof. intros E. exact (f_equal (fun v => fst (fst v)) E). Qed.

Lemma nitro_inv_view c c' : nitro_view c' = nitro_view c -> nitro_inv c -> nitro_inv c'.
Proof.
  unfold nitro_inv. intros E.
  pose proof (f_equal (fun v => fst (fst v)) E) as Ecfg.
  pose proof (f_equal (fun v => snd (fst v)) E) as Eamt.
  pose proof (f_equal snd E) as Ecd. simpl in Ecfg, Eamt, Ecd.
  rewrite Ecfg, Eamt, Ecd. tauto.
Qed.

Lemma useNitro_inv dt c :
  sane (Car.config c) -> 0 < dt -> nitro_inv c ->
  nitro_inv (snd (Car.useNitro dt c)) /\
  Car.config (snd (Car.useNitro dt c)) = Car.config c.
Proof.
  intros (Hcap & Hdrain & Hregen & Hcd) Hdt [[Ha0 Ha1] [Hc0 Hc1]].
  unfold Car.useNitro, nitro_inv.
  destruct (JS.ltb 0 (Car.nitroCooldown c)); [simpl; tauto|].
  destruct (JS.leb (Car.nitroAmount c) 0); [simpl; repeat split; lra|].
  assert (Hm : 0 <= Qmax 0 (Car.nitroAmount c - Car.nitroDrainRate (Car.config c) * dt)
               <= Car.nitroCapacity (Car.config c)).
  { apply max0_bounds; [assumption|]. nra. }
  cbn [snd]. destruct (Qeq_bool _ 0); simpl; repeat split; lra || tauto.
Qed.

Lemma regenNitro_inv dt c :
  sane (Car.config c) -> 0 < dt -> nitro_inv c ->
  nitro_inv (Car.regenNitro dt c) /\ Car.config (Car.regenNitro dt c) = Car.config c.
Proof.
  intros (Hcap & Hdrain & Hregen & Hcd) Hdt [[Ha0 Ha1] [Hc0 Hc1]].
  unfold Car.regenNitro, nitro_inv.
  destruct (JS.ltb 0 (Car.nitroCooldown c)); simpl.
  - assert (Hm : 0 <= Qmax 0 (Car.nitroCooldown c - dt)
                 <= Car.nitroCooldownSec (Car.config c)).
    { apply max0_bounds; [assumption|lra]. }
    repeat split; lra || tauto.
  - assert (Hm : 0 <= Qmin (Car.nitroCapacity (Car.config c))
                        (Car.nitroAmount c + Car.nitroRegenRate (Car.config c) * dt)
                 <= Car.nitroCapacity (Car.config c)).
    { apply min_bounds; [assumption|nra]. }
    repeat split; lra || tauto.
Qed.

Lemma nitro_stage_inv keys dt c :
  sane (Car.config c) -> 0 < dt -> nitro_inv c ->
  nitro_inv (Car.nitro keys dt c) /\ Car.config (Car.nitro keys dt c) = Car.config c.
Proof.
  intros Hs Hdt Hi. unfold Car.nitro.
  destruct (Car.isUsingNitro keys c).
  - pose proof (useNitro_inv dt c Hs Hdt Hi) as [Hu Hcfg].
    destruct (Car.useNitro dt c) as [used c']. cbn [snd] in Hu, Hcfg.
    destruct used; [|tauto]. split; [|exact Hcfg].
    eapply nitro_inv_view; [|exact Hu]. reflexivity.
  - now apply regenNitro_inv.
Qed.

Lemma advance_inv keys dt c :
  sane (Car.config c) -> 0 < dt -> nitro_inv c ->
  nitro_inv (Car.advance W keys dt c) /\
  Car.config (Car.advance W keys dt c) = Car.config c.
Proof.
  intros Hs Hdt Hi. unfold Car.advance, Car.throughLimiter.
  set (c1 := Car.accelerate keys dt c).
  assert (V1 : nitro_view c1 = nitro_view c) by apply accelerate_nitro.
  assert (Hs1 : sane (Car.config c1)).
  { now rewrite (nitro_view_config _ _ V1). }
  assert (Hi1 : nitro_inv c1) by (eapply nitro_inv_view; eauto).
  destruct (nitro_stage_inv keys dt c1 Hs1 Hdt Hi1) as [Hi2 Hcfg2].
  set (c2 := Car.nitro keys dt c1) in *.
  match goal with |- nitro_inv ?x /\ _ => assert (V : nitro_view x = nitro_view c2) end.
  { rewrite driftEvent_nitro, move_nitro, pose_nitro, steer_nitro,
      applyFriction_nitro, limitSpeed_nitro. reflexivity. }
  split; [eapply nitro_inv_view; eauto|].
  rewrite (nitro_view_config _ _ V), Hcfg2. exact (nitro_view_config _ _ V1).
Qed.

Lemma update_inv input d c :
  sane (Car.config c) -> nitro_inv c ->
  nitro_inv (Car.update W input d c) /\
  Car.config (Car.update W input d c) = Car.config c.
Proof.
  intros Hs Hi. unfold Car.update.
  destruct (JS.dt_rejected d) eqn:Hr; [tauto|].
  destruct (dt_accepted d Hr) as (q & -> & Hq).
  now apply advance_inv.
Qed.

Lemma create_inv cfg : sane cfg -> nitro_inv (Car.create cfg).
Proof.
  intros (Hcap & _ & _ & Hcd). unfold nitro_inv. simpl. repeat split; lra.
Qed.

Lemma run_inv inputs : forall c,
  sane (Car.config c) -> nitro_inv c ->
  nitro_inv (Run.car W inputs c) /\ Car.config (Run.car W inputs c) = Car.config c.
Proof.
  induction inputs as [|i inputs IH]; intros c Hs Hi; [simpl; tauto|].
  simpl. destruct (update_inv (fst i) (snd i) c Hs Hi) as [Hi' Hcfg].
  destruct (IH (Car.update W (fst i) (snd i) c)) as [Hr Hc].
  - now rewrite Hcfg.
  - exact Hi'.
  - split; [exact Hr | congruence].
Qed.

(** C1. Started from a freshly constructed car, any finite sequence of
    [update] calls, whatever the keys and whatever each [dt] (zero,
    negative and non-numbers included), leaves [nitroAmount] in
    [[0, nitroCapacity]] and [nitroCooldown] in [[0, nitroCooldownSec]]. *)
Theorem nitro_bounds_after_updates (cfg : Car.Config)
    (inputs : list (option Car.Keys * JS.dt_value)) :
  sane cfg ->
  let c := Run.car W inputs (Car.create cfg) in
  (0 <= Car.nitroAmount c <= Car.nitroCapacity cfg) /\
  (0 <= Car.nitroCooldown c <= Car.nitroCooldownSec cfg).
Proof.
  intros Hs c.
  destruct (run_inv inputs (Car.create cfg) Hs (create_inv cfg Hs)) as [Hi Hcfg].
  unfold nitro_inv in Hi. fold c in Hi, Hcfg. rewrite Hcfg in Hi. exact Hi.
Qed.

End NitroBounds.

Lemma sane_defaults : sane Car.defaults.
Proof. unfold sane. simpl. repeat split; lra. Qed.

Lemma nitro_bounds_witness :
  sane Car.defaults /\
  let c := Run.car Reference.world
             [ (Some Examples.keys_shift, JS.DtNumber 4); (None, JS.DtNumber 0);
               (Some Examples.keys_w_shift, JS.DtBoolean true); (None, JS.DtNaN);
               (Some Car.no_keys, JS.DtNumber 0.016) ]
             (Car.create Car.defaults) in
  (0 <= Car.nitroAmount c <= Car.nitroCapacity Car.defaults) /\
  (0 <= Car.nitroCooldown c <= Car.nitroCooldownSec Car.defaults).
Proof.
  split; [exact sane_defaults|].
  exact (nitro_bounds_after_updates Reference.world Car.defaults _ sane_defaults).
Defined.

(** ** The speed limiter (C2) *)

(** Whatever the nitro stage did, the limiter leaves the speed in
    [[-maxSpeed/2, maxSpeed]]. *)
Lemma limitSpeed_range (c : Car.state) :
  0 <= Car.maxSpeed c ->
  - Car.maxSpeed c / 2 <= Car.speed (Car.limitSpeed c) <= Car.maxSpeed c.
Proof.
  intros Hm. unfold Car.limitSpeed. cbv zeta.
  destruct (JS.ltb (Car.maxSpeed c) (Car.speed c)) eqn:E1;
    [apply ltb_true in E1 | apply ltb_false in E1]; cbn [Car.speed Car.set_speed].
  - destruct (JS.ltb _ _) eqn:E2;
      [apply ltb_true in E2 | apply ltb_false in E2]; simpl in *; qlra.
  - destruct (JS.ltb _ _) eqn:E2;
      [apply ltb_true in E2 | apply ltb_false in E2]; simpl in *; qlra.
Qed.

Lemma limitSpeed_maxSpeed (c : Car.state) :
  Car.maxSpeed (Car.limitSpeed c) = Car.maxSpeed c.
Proof.
  unfold Car.limitSpeed.
  repeat match goal with |- context [if ?b then _ else _] => destruct b end; reflexivity.
Qed.

(** The limiter never reads the nitro state: a draining car is held to
    [maxSpeed] like any other. *)
Lemma throughLimiter_ceiling (keys : Car.Keys) (dt : Q) (c : Car.state) :
  0 <= Car.maxSpeed c ->
  Car.speed (Car.throughLimiter keys dt c) <= Car.maxSpeed c.
Proof.
  intros Hm. unfold Car.throughLimiter.
  set (c2 := Car.nitro keys dt (Car.accelerate keys dt c)).
  assert (E : Car.maxSpeed c2 = Car.maxSpeed c).
  { unfold c2, Car.nitro, Car.useNitro, Car.regenNitro, Car.accelerate.
    repeat match goal with |- context [if ?b then _ else _] => destruct b end;
      reflexivity. }
  rewrite <- E. apply limitSpeed_range. now rewrite E.
Qed.

(** The cap the nitro stage itself applies is [maxSpeed * nitroPower]. *)
Lemma nitro_stage_cap (keys : Car.Keys) (dt : Q) (c : Car.state) :
  Car.isUsingNitro keys c = true ->
  Car.speed (Car.nitro keys dt c) <= Car.maxSpeed c * Car.nitroPower (Car.config c).
Proof.
  intros Hu. unfold Car.nitro. rewrite Hu.
  unfold Car.isUsingNitro in Hu.
  apply andb_true_iff in Hu as [Hu Hcd]. apply andb_true_iff in Hu as [_ Hamt].
  apply ltb_true in Hamt. apply leb_true in Hcd.
  unfold Car.useNitro.
  destruct (JS.ltb 0 (Car.nitroCooldown c)) eqn:E1; [apply ltb_true in E1; lra|].
  destruct (JS.leb (Car.nitroAmount c) 0) eqn:E2; [apply leb_true in E2; lra|].
  destruct (Qeq_bool _ 0); simpl; apply Q.le_min_l.
Qed.

(** C2. A default car at speed 1.39 with throttle and nitro held for a
    frame of 0.05 s: nitro drains and the nitro stage raises the speed
    above [maxSpeed] (its own cap being [maxSpeed * nitroPower = 2.24]),
    and the limiter then cuts it back to [maxSpeed = 1.4]: the normal
    ceiling applies while nitro is draining. *)
Theorem nitro_boost_cut_to_maxSpeed :
  let c := Examples.fastCar in
  let keys := Examples.keys_w_shift in
  let boosted := Car.nitro keys 0.05 (Car.accelerate keys 0.05 c) in
  Car.isUsingNitro keys (Car.accelerate keys 0.05 c) = true /\
  Car.nitroAmount boosted < Car.nitroAmount c /\
  Car.maxSpeed c < Car.speed boosted /\
  Car.speed boosted < Car.maxSpeed c * Car.nitroPower (Car.config c) /\
  Car.speed (Car.throughLimiter keys 0.05 c) == Car.maxSpeed c /\
  Car.maxSpeed c == 1.4 /\
  Car.maxSpeed c * Car.nitroPower (Car.config c) == 2.24.
Proof.
  vm_compute. repeat split; reflexivity || discriminate.
Qed.

(** ** Track progress (C3) *)

(** [a % 1] is the remainder of the numerator by the denominator. *)
Lemma rem1_eq (a : Q) :
  JS.rem a 1 == Z.rem (Qnum a) (Zpos (Qden a)) # Qden a.
Proof.
  destruct a as [n d]. unfold JS.rem, JS.trunc, Qdiv.
  change (/ 1) with 1.
  cbn [Qmult Qnum Qden]. rewrite Z.mul_1_r, Pos.mul_1_r.
  pose proof (Z.quot_rem' n (Zpos d)) as E.
  unfold Qeq, Qminus, Qplus, Qopp, Qmult, inject_Z. cbn [Qnum Qden].
  rewrite Pos2Z.inj_mul. nia.
Qed.

Lemma rem1_of_nonneg (a : Q) : 0 <= a -> 0 <= JS.rem a 1 < 1.
Proof.
  intros Ha. rewrite rem1_eq. destruct a as [n d].
  unfold Qle in Ha. cbn [Qnum Qden] in *.
  assert (Hn : (0 <= n)%Z) by lia.
  pose proof (Z.rem_bound_pos_pos n (Zpos d) (Pos2Z.is_pos d) Hn) as [H0 H1].
  unfold Qle, Qlt. cbn [Qnum Qden]. lia.
Qed.

Lemma rem1_of_nonpos (a : Q) : a <= 0 -> -1 < JS.rem a 1 <= 0.
Proof.
  intros Ha. rewrite rem1_eq. destruct a as [n d].
  unfold Qle in Ha. cbn [Qnum Qden] in *.
  assert (Hn : (n <= 0)%Z) by lia.
  pose proof (Z.rem_bound_pos_neg n (Zpos d) (Pos2Z.is_pos d) Hn) as [H0 H1].
  unfold Qle, Qlt. cbn [Qnum Qden]. lia.
Qed.

(** A negative value above -1 is its own remainder: it stays negative. *)
Lemma rem1_small_negative (a : Q) : -1 < a -> a < 0 -> JS.rem a 1 == a.
Proof.
  intros Hlo Hhi. rewrite rem1_eq. destruct a as [n d].
  unfold Qlt in Hlo, Hhi. cbn [Qnum Qden] in *.
  assert (E : Z.rem n (Zpos d) = n).
  { rewrite <- (Z.opp_involutive n) at 1 2. rewrite Z.rem_opp_l'.
    rewrite Z.rem_small by lia. lia. }
  rewrite E. reflexivity.
Qed.

(** What [progressStep] guarantees: the result lies strictly between -1
    and 1 and takes the sign of the sum it wraps. *)
Lemma progressStep_range (dt : Q) (c : EnemyCar.state) :
  let s := EnemyCar.progress c + EnemyCar.speed c * dt in
  (0 <= s -> 0 <= EnemyCar.progress (EnemyCar.progressStep dt c) < 1) /\
  (s <= 0 -> -1 < EnemyCar.progress (EnemyCar.progressStep dt c) <= 0).
Proof.
  unfold EnemyCar.progressStep. cbn [EnemyCar.progress EnemyCar.set_progress].
  split; intros H; [now apply rem1_of_nonneg | now apply rem1_of_nonpos].
Qed.

Lemma progressStep_negative (dt : Q) (c : EnemyCar.state) :
  -1 < EnemyCar.progress c + EnemyCar.speed c * dt < 0 ->
  EnemyCar.progress (EnemyCar.progressStep dt c) < 0.
Proof.
  intros [Hlo Hhi]. unfold EnemyCar.progressStep.
  cbn [EnemyCar.progress EnemyCar.set_progress].
  rewrite rem1_small_negative; assumption.
Qed.

(** The stages after [progressStep] do not write [progress]. *)
Lemma laneSwitch_progress (dt : Q) (c : EnemyCar.state) (g : Rng) :
  EnemyCar.progress (fst (EnemyCar.laneSwitch dt c g)) = EnemyCar.progress c.
Proof.
  unfold EnemyCar.laneSwitch. cbv zeta.
  cbn [EnemyCar.tLane EnemyCar.set_tLane].
  destruct (JS.leb (EnemyCar.tLane c - dt) 0); reflexivity.
Qed.

Lemma advance_progress (W : World) (dt : Q) (leader : option Q)
    (c : EnemyCar.state) (g : Rng) :
  let h := EnemyCar.nitroHeuristic leader (EnemyCar.cooldownTick dt c) g in
  EnemyCar.progress (fst (EnemyCar.advance W dt leader c g))
  = EnemyCar.progress
      (EnemyCar.progressStep dt (fst (EnemyCar.nitroDrive dt (fst h) (snd h)))).
Proof.
  unfold EnemyCar.advance. cbv zeta.
  destruct (EnemyCar.nitroHeuristic leader (EnemyCar.cooldownTick dt c) g) as [c1 g1].
  cbn [fst snd].
  destruct (EnemyCar.nitroDrive dt c1 g1) as [c2 g2]. cbn [fst].
  pose proof (laneSwitch_progress dt (EnemyCar.progressStep dt c2) g2) as L.
  destruct (EnemyCar.laneSwitch dt (EnemyCar.progressStep dt c2) g2) as [c3 g3].
  exact L.
Qed.

(** A rival that coasts (no nitro, cooldown still running) with a speed
    that a collision has turned negative leaves [update] with a
    negative progress, in every world and for every stream of draws. *)
Lemma coasting_backwards_progress (W : World) (dt : Q) (leader : option Q)
    (c : EnemyCar.state) (g : Rng) :
  0 < dt ->
  EnemyCar.isNitroActive c = false ->
  dt < EnemyCar.nitroCooldown c ->
  let v := JS.lerp (EnemyCar.speed c) (EnemyCar.baseSpeed (EnemyCar.config c)) (dt * 0.5) in
  -1 < EnemyCar.progress c + v * dt < 0 ->
  EnemyCar.progress (fst (EnemyCar.update W (JS.DtNumber dt) leader c g)) < 0.
Proof.
  intros Hdt Hn Hcd v Hv. unfold EnemyCar.update.
  assert (Hr : JS.dt_rejected (JS.DtNumber dt) = false).
  { unfold JS.dt_rejected. cbn. apply orb_false_iff. split.
    - apply eqb_false. lra.
    - apply leb_false. exact Hdt. }
  rewrite Hr. cbn [JS.dt_toNumber].
  rewrite advance_progress. cbv zeta.
  unfold EnemyCar.nitroHeuristic, EnemyCar.cooldownTick.
  cbn [EnemyCar.isNitroActive EnemyCar.nitroCooldown EnemyCar.set_nitroCooldown].
  rewrite Hn. cbn [negb andb].
  assert (Hpos : 0 < Qmax 0 (EnemyCar.nitroCooldown c - dt)).
  { eapply Qlt_le_trans; [|apply Q.le_max_r]. lra. }
  apply leb_false in Hpos. rewrite Hpos. cbn [fst snd].
  unfold EnemyCar.nitroDrive.
  cbn [EnemyCar.isNitroActive EnemyCar.set_nitroCooldown]. rewrite Hn. cbn [fst].
  apply progressStep_negative. exact Hv.
Qed.

(** C3. The first rival after [resetRace] (progress 0, speed 0.3), once
    bumped by the player, has speed -0.15; its next [update] with
    [dt = 0.016] leaves [this.progress] negative, outside [[0, 1)]:
    [%] keeps the sign of the dividend. *)
Theorem rival_progress_negative_after_bump :
  let r := Examples.rivalBumped in
  EnemyCar.progress r == 0 /\
  EnemyCar.speed r == -0.15 /\
  EnemyCar.progress
    (fst (EnemyCar.update Reference.world (JS.DtNumber 0.016) (Some 0) r Examples.halves))
  == -0.0023552.
Proof.
  vm_compute. repeat split; reflexivity.
Qed.

(** *** [getTrackProgress] *)

Lemma sampleAt_eq (i : nat) : Track.sampleAt i == Z.of_nat i # 200.
Proof.
  unfold Track.sampleAt, Track.samples, Qdiv.
  change (/ inject_Z (Z.of_nat 200)) with (1 # 200).
  unfold Qeq, Qmult, inject_Z. cbn [Qnum Qden]. lia.
Qed.

Lemma sampleAt_range (i : nat) : (i <= 200)%nat -> 0 <= Track.sampleAt i <= 1.
Proof.
  intros Hi. rewrite sampleAt_eq. unfold Qle. cbn [Qnum Qden]. lia.
Qed.

Lemma sampleAt_below_one (i : nat) : (i < 200)%nat -> Track.sampleAt i < 1.
Proof.
  intros Hi. rewrite sampleAt_eq. unfold Qlt. cbn [Qnum Qden]. lia.
Qed.

Section TrackProgress.

Context (W : World) (p : Vec3).

Lemma sampling_range (l : list nat) : forall best,
  Forall (fun i => (i <= 200)%nat) l ->
  0 <= snd best <= 1 ->
  0 <= snd (fold_left (Track.sampleStep W p) l best) <= 1.
Proof.
  induction l as [|i l IH]; intros best Hl Hb; [exact Hb|].
  inversion Hl as [|? ? Hi Hl']; subst. cbn [fold_left]. apply IH; [exact Hl'|].
  unfold Track.sampleStep. cbv zeta.
  destruct (fst best) as [m|]; [destruct (JS.ltb _ m)|]; cbn [snd];
    auto using sampleAt_range.
Qed.

(** Once sample 0 has been seen the running minimum is at most its
    distance, so a last sample at the same point cannot win. *)
Lemma sampling_below_one (l : list nat) : forall m t,
  sampleDist W p 200 == sampleDist W p 0 ->
  Forall (fun i => (i <= 200)%nat) l ->
  m <= sampleDist W p 0 -> t < 1 ->
  snd (fold_left (Track.sampleStep W p) l (Some m, t)) < 1.
Proof.
  induction l as [|i l IH]; intros m t Hclosed Hl Hm Ht; [exact Ht|].
  inversion Hl as [|? ? Hi Hl']; subst. cbn [fold_left].
  unfold Track.sampleStep at 2. cbv zeta. cbn [fst].
  fold (sampleDist W p i).
  destruct (JS.ltb (sampleDist W p i) m) eqn:E.
  - apply ltb_true in E. apply IH; [exact Hclosed | exact Hl' | lra |].
    apply sampleAt_below_one.
    destruct (Nat.eq_dec i 200%nat) as [->|]; [lra | lia].
  - now apply IH.
Qed.

(** [getTrackProgress] returns one of the sampled parameters. *)
Lemma getTrackProgress_range : 0 <= Track.getTrackProgress W p <= 1.
Proof.
  unfold Track.getTrackProgress. apply sampling_range.
  - apply Forall_forall. intros i Hi. apply elem_of_seq in Hi. unfold Track.samples in Hi. lia.
  - cbn [snd]. lra.
Qed.

(** On a closed curve, where the parameters 0 and 1 name the same
    point, the value 1 is never returned. *)
Lemma getTrackProgress_below_one :
  getPointAt W (Track.sampleAt 200) = getPointAt W (Track.sampleAt 0) ->
  Track.getTrackProgress W p < 1.
Proof.
  intros Hclosed. unfold Track.getTrackProgress.
  assert (E : seq 0 (S Track.samples) = 0%nat :: seq 1 Track.samples) by reflexivity.
  rewrite E. clear E.
  assert (Hl : Forall (fun i => (i <= 200)%nat) (seq 1 Track.samples)).
  { apply Forall_forall. intros i Hi. apply elem_of_seq in Hi.
    unfold Track.samples in Hi. lia. }
  revert Hl. generalize (seq 1 Track.samples) as l. intros l Hl.
  cbn [fold_left]. unfold Track.sampleStep at 2. cbv zeta. cbn [fst].
  apply sampling_below_one.
  - unfold sampleDist. rewrite Hclosed. reflexivity.
  - exact Hl.
  - apply Qle_refl.
  - apply sampleAt_below_one. lia.
Qed.

End TrackProgress.

(** ** The checkpoint latch (C4) *)

Section Checkpoint.

Context (W : World).

Lemma armCheckpoint_view (pos : Vec3) (g : Game.state) :
  latch (Game.armCheckpoint pos g)
  = (Game.lap g, Game.checkpointReached g || Game.nearHalfway g pos,
     Game.halfwayPos g, Game.startLinePos g).
Proof.
  unfold Game.armCheckpoint, latch.
  destruct (Game.checkpointReached g) eqn:E, (Game.nearHalfway g pos);
    cbn; rewrite ?E; reflexivity.
Qed.

Lemma completeLap_view (now : Q) (g : Game.state) :
  latch (Game.completeLap now g)
  = ((Game.lap g + 1)%Z, false, Game.halfwayPos g, Game.startLinePos g).
Proof.
  unfold Game.completeLap, Game.finishRace, latch.
  repeat match goal with
  | |- context [if ?b then _ else _] => destruct b
  | |- context [match ?o with Some _ => _ | None => _ end] => destruct o
  end; reflexivity.
Qed.

Lemma finishLine_view (pos : Vec3) (now : Q) (g : Game.state) :
  latch (Game.finishLine pos now g)
  = if Game.checkpointReached g && Game.nearStart g pos
    then ((Game.lap g + 1)%Z, false, Game.halfwayPos g, Game.startLinePos g)
    else latch g.
Proof.
  unfold Game.finishLine.
  destruct (Game.checkpointReached g && Game.nearStart g pos);
    [apply completeLap_view | reflexivity].
Qed.

Lemma view_inv (g : Game.state) (a : Z) (b : bool) (c d : Vec3) :
  latch g = (a, b, c, d) ->
  Game.lap g = a /\ Game.checkpointReached g = b /\
  Game.halfwayPos g = c /\ Game.startLinePos g = d.
Proof.
  unfold latch. intros E. injection E as E1 E2 E3 E4. auto.
Qed.

(** The latch after one frame, in terms of the state before it. *)
Lemma raceFrame_view (f : Vec3 * Q) (g : Game.state) :
  latch (Run.raceFrame W f g)
  = if Game.is_playing (Game.gameState g) then
      let armed := Game.checkpointReached g || Game.nearHalfway g (fst f) in
      if armed && Game.nearStart g (fst f)
      then ((Game.lap g + 1)%Z, false, Game.halfwayPos g, Game.startLinePos g)
      else (Game.lap g, armed, Game.halfwayPos g, Game.startLinePos g)
    else latch g.
Proof.
  destruct f as [pos now]. unfold Run.raceFrame, Game.updateRaceLogic. cbn [fst snd].
  cbn [Game.gameState Game.set_player].
  destruct (Game.is_playing (Game.gameState g)); cbn [negb]; [|reflexivity].
  cbn [Game.player Game.set_player Car.position Car.set_position].
  set (g0 := Game.set_player _ (Game.set_player _ g)).
  set (g1 := Game.armCheckpoint pos g0).
  set (g2 := Game.finishLine pos now g1).
  assert (V2 : latch (if Game.is_playing (Game.gameState g2)
                     then Game.set_currentLapTime ((now - Game.lapStartTime g2) / 1000) g2
                     else g2) = latch g2).
  { destruct (Game.is_playing (Game.gameState g2)); reflexivity. }
  rewrite V2. unfold g2. rewrite finishLine_view.
  pose proof (armCheckpoint_view pos g0) as V1. fold g1 in V1.
  destruct (view_inv _ _ _ _ _ V1) as (E1 & E2 & E3 & E4).
  unfold Game.nearStart at 1. rewrite E2, E4. cbv zeta.
  change (Game.nearHalfway g0 pos) with (Game.nearHalfway g pos).
  change (Game.checkpointReached g0) with (Game.checkpointReached g).
  change (Game.startLinePos g0) with (Game.startLinePos g).
  fold (Game.nearStart g pos).
  destruct (_ && Game.nearStart g pos); [now rewrite E1, E3|exact V1].
Qed.

Lemma raceFrame_halfwayPos (f : Vec3 * Q) (g : Game.state) :
  Game.halfwayPos (Run.raceFrame W f g) = Game.halfwayPos g.
Proof.
  pose proof (f_equal (fun v => snd (fst v)) (raceFrame_view f g)) as E.
  cbn beta in E. unfold latch at 1 in E. cbn [fst snd] in E. rewrite E.
  destruct (Game.is_playing _); [|reflexivity]. cbv zeta.
  destruct (_ && _); reflexivity.
Qed.

Lemma raceFrame_startLinePos (f : Vec3 * Q) (g : Game.state) :
  Game.startLinePos (Run.raceFrame W f g) = Game.startLinePos g.
Proof.
  pose proof (f_equal snd (raceFrame_view f g)) as E.
  unfold latch at 1 in E. cbn [fst snd] in E. rewrite E.
  destruct (Game.is_playing _); [|reflexivity]. cbv zeta.
  destruct (_ && _); reflexivity.
Qed.

Lemma race_halfwayPos (fs : list (Vec3 * Q)) : forall g,
  Game.halfwayPos (Run.race W fs g) = Game.halfwayPos g.
Proof.
  induction fs as [|f fs IH]; intros g; [reflexivity|].
  cbn [Run.race fold_left]. fold (Run.race W fs (Run.raceFrame W f g)).
  rewrite IH. apply raceFrame_halfwayPos.
Qed.

Lemma race_startLinePos (fs : list (Vec3 * Q)) : forall g,
  Game.startLinePos (Run.race W fs g) = Game.startLinePos g.
Proof.
  induction fs as [|f fs IH]; intros g; [reflexivity|].
  cbn [Run.race fold_left]. fold (Run.race W fs (Run.raceFrame W f g)).
  rewrite IH. apply raceFrame_startLinePos.
Qed.

(** The lap counter and the latch after one frame, by cases on the
    latch before it and on the two proximity tests. *)
Lemma raceFrame_cases (f : Vec3 * Q) (g : Game.state) :
  let g' := Run.raceFrame W f g in
  (Game.lap g' = Game.lap g /\
   (Game.checkpointReached g' = true ->
    Game.checkpointReached g = true \/ Game.nearHalfway g (fst f) = true))
  \/
  (Game.lap g' = (Game.lap g + 1)%Z /\ Game.checkpointReached g' = false /\
   Game.nearStart g (fst f) = true /\
   (Game.checkpointReached g = true \/ Game.nearHalfway g (fst f) = true)).
Proof.
  cbv zeta. pose proof (raceFrame_view f g) as V.
  pose proof (f_equal (fun v => fst (fst (fst v))) V) as Vlap.
  pose proof (f_equal (fun v => snd (fst (fst v))) V) as Vcp.
  cbn beta in Vlap, Vcp. unfold latch at 1 in Vlap. unfold latch at 1 in Vcp.
  cbn [fst snd] in Vlap, Vcp. rewrite Vlap, Vcp. clear V Vlap Vcp.
  destruct (Game.is_playing _); [|left; unfold latch; cbn; auto].
  cbv zeta.
  destruct (Game.checkpointReached g), (Game.nearHalfway g (fst f)),
    (Game.nearStart g (fst f)); cbn; auto 7.
Qed.

(** While the player stays away from the quarter-point, an unarmed
    latch stays unarmed and the lap counter stands still. *)
Lemma race_unarmed (fs : list (Vec3 * Q)) : forall g,
  Game.checkpointReached g = false ->
  Forall (fun f => Game.nearHalfway g (fst f) = false) fs ->
  Game.lap (Run.race W fs g) = Game.lap g /\
  Game.checkpointReached (Run.race W fs g) = false.
Proof.
  induction fs as [|f fs IH]; intros g Hcp Hfar; [split; [reflexivity|exact Hcp]|].
  inversion Hfar as [|? ? Hf Hfs]; subst.
  cbn [Run.race fold_left]. fold (Run.race W fs (Run.raceFrame W f g)).
  destruct (raceFrame_cases f g) as [[Hlap Harm] | (_ & _ & _ & [H|H])];
    try congruence.
  assert (Hcp' : Game.checkpointReached (Run.raceFrame W f g) = false).
  { destruct (Game.checkpointReached (Run.raceFrame W f g)); [|reflexivity].
    destruct (Harm eq_refl); congruence. }
  destruct (IH (Run.raceFrame W f g) Hcp') as [IHlap IHcp].
  - eapply Forall_impl; [exact Hfs|]. intros x Hx. cbn beta in *.
    unfold Game.nearHalfway in *. now rewrite raceFrame_halfwayPos.
  - split; congruence.
Qed.

Lemma near_or_far (g : Game.state) (fs : list (Vec3 * Q)) :
  Exists (fun f => Game.nearHalfway g (fst f) = true) fs \/
  Forall (fun f => Game.nearHalfway g (fst f) = false) fs.
Proof.
  induction fs as [|f fs [IH|IH]].
  - right. constructor.
  - left. now constructor 2.
  - destruct (Game.nearHalfway g (fst f)) eqn:E.
    + left. now constructor 1.
    + right. now constructor.
Qed.

(** In a run of the race-logic step, if the lap counter is incremented
    in one frame and again in a later frame, then in some frame after
    the first increment, up to and including the frame of the second,
    the player was within the checkpoint radius of the quarter-point:
    an increment consumes the latch and only that proximity arms it
    again. *)
Lemma lap_increments_need_checkpoint (g : Game.state)
    (pre : list (Vec3 * Q)) (fi : Vec3 * Q) (mid : list (Vec3 * Q)) (fj : Vec3 * Q) :
  let g1 := Run.race W pre g in
  let g2 := Run.raceFrame W fi g1 in
  let g3 := Run.race W mid g2 in
  let g4 := Run.raceFrame W fj g3 in
  Game.lap g2 = (Game.lap g1 + 1)%Z ->
  Game.lap g4 = (Game.lap g3 + 1)%Z ->
  Exists (fun f => Game.nearHalfway g (fst f) = true) (mid ++ [fj]).
Proof.
  intros g1 g2 g3 g4 Hi Hj.
  assert (Hcp2 : Game.checkpointReached g2 = false).
  { destruct (raceFrame_cases fi g1) as [[Hlap _] | (_ & Hcp & _)];
      [fold g2 in Hlap; lia | exact Hcp]. }
  assert (Hhalf : Game.halfwayPos g2 = Game.halfwayPos g).
  { unfold g2, g1. now rewrite raceFrame_halfwayPos, race_halfwayPos. }
  destruct (near_or_far g2 (mid ++ [fj])) as [Hnear | Hfar].
  - eapply Exists_impl; [exact Hnear|]. intros x Hx. cbn beta in *.
    unfold Game.nearHalfway in *. now rewrite <- Hhalf.
  - exfalso.
    destruct (race_unarmed (mid ++ [fj]) g2 Hcp2 Hfar) as [Hlap _].
    apply Forall_app in Hfar as [Hmid _].
    destruct (race_unarmed mid g2 Hcp2 Hmid) as [Hlap3 _].
    unfold Run.race in Hlap. rewrite fold_left_app in Hlap. cbn [fold_left] in Hlap.
    fold (Run.race W mid g2) in Hlap. fold g3 in Hlap, Hlap3. fold g4 in Hlap. lia.
Qed.

(** Where no position is within the radius of both points (as on the
    track of this game, whose quarter-point is far from the start), the
    arming frame comes strictly before the second increment. *)
Lemma lap_increments_need_checkpoint_strictly (g : Game.state)
    (pre : list (Vec3 * Q)) (fi : Vec3 * Q) (mid : list (Vec3 * Q)) (fj : Vec3 * Q) :
  (forall pos, Game.nearHalfway g pos = true -> Game.nearStart g pos = false) ->
  let g1 := Run.race W pre g in
  let g2 := Run.raceFrame W fi g1 in
  let g3 := Run.race W mid g2 in
  let g4 := Run.raceFrame W fj g3 in
  Game.lap g2 = (Game.lap g1 + 1)%Z ->
  Game.lap g4 = (Game.lap g3 + 1)%Z ->
  Exists (fun f => Game.nearHalfway g (fst f) = true) mid.
Proof.
  intros Hsep g1 g2 g3 g4 Hi Hj.
  assert (Hcp2 : Game.checkpointReached g2 = false).
  { destruct (raceFrame_cases fi g1) as [[Hlap _] | (_ & Hcp & _)];
      [fold g2 in Hlap; lia | exact Hcp]. }
  assert (Hhalf : Game.halfwayPos g2 = Game.halfwayPos g).
  { unfold g2, g1. now rewrite raceFrame_halfwayPos, race_halfwayPos. }
  destruct (near_or_far g2 mid) as [Hnear | Hfar].
  - eapply Exists_impl; [exact Hnear|]. intros x Hx. cbn beta in *.
    unfold Game.nearHalfway in *. now rewrite <- Hhalf.
  - exfalso. destruct (race_unarmed mid g2 Hcp2 Hfar) as [_ Hcp3]. fold g3 in Hcp3.
    destruct (raceFrame_cases fj g3) as [[Hlap _] | (_ & _ & Hs & [Hc|Hh])];
      [fold g4 in Hlap; lia | congruence |].
    assert (E3 : Game.halfwayPos g3 = Game.halfwayPos g).
    { unfold g3. now rewrite race_halfwayPos. }
    assert (S3 : Game.startLinePos g3 = Game.startLinePos g).
    { unfold g3, g2, g1.
      now rewrite race_startLinePos, raceFrame_startLinePos, race_startLinePos. }
    unfold Game.nearHalfway in Hh. rewrite E3 in Hh.
    unfold Game.nearStart in Hs. rewrite S3 in Hs.
    specialize (Hsep _ Hh). unfold Game.nearStart in Hsep. congruence.
Qed.

End Checkpoint.

Section CheckpointApart.

Context (W : World).

Lemma square_nonneg (a : Q) : 0 <= a * a.
Proof.
  destruct (Qlt_le_dec a 0) as [H|H].
  - setoid_replace (a * a) with ((- a) * (- a)) using relation Qeq by ring.
    apply Qmult_le_0_compat; lra.
  - now apply Qmult_le_0_compat.
Qed.

(** Two points at least 160 apart: no position is within 80 of both. *)
Lemma zones_disjoint (g : Game.state) (pos : Vec3) :
  25600 <= V3.distanceToSquared (Game.startLinePos g) (Game.halfwayPos g) ->
  Game.nearHalfway g pos = true -> Game.nearStart g pos = false.
Proof.
  intros Hfar Hh. destruct (Game.nearStart g pos) eqn:Hs; [exfalso|reflexivity].
  unfold Game.nearHalfway, Game.nearStart, V3.distanceTo_lt in *.
  apply andb_true_iff in Hh as [_ Hh]. apply andb_true_iff in Hs as [_ Hs].
  apply ltb_true in Hh. apply ltb_true in Hs.
  unfold V3.distanceToSquared, V3.lengthSq, V3.sub in *. cbn [vx vy vz] in *.
  set (sx := vx (Game.startLinePos g)) in *. set (sy := vy (Game.startLinePos g)) in *.
  set (sz := vz (Game.startLinePos g)) in *. set (hx := vx (Game.halfwayPos g)) in *.
  set (hy := vy (Game.halfwayPos g)) in *. set (hz := vz (Game.halfwayPos g)) in *.
  set (x := vx pos) in *. set (y := vy pos) in *. set (z := vz pos) in *.
  clearbody sx sy sz hx hy hz x y z.
  pose proof (square_nonneg (x - sx + (x - hx))) as Px.
  pose proof (square_nonneg (y - sy + (y - hy))) as Py.
  pose proof (square_nonneg (z - sz + (z - hz))) as Pz.
  change (80 * 80) with 6400 in Hh, Hs. lra.
Qed.

(** C4.  On a track whose start line and quarter-point are at least
    160 apart, so that the two radii of 80 do not meet: if the lap
    counter is incremented in one frame and again in a later frame,
    then in some frame strictly between the two the player was within
    the checkpoint radius of the quarter-point. *)
Theorem laps_need_intervening_checkpoint (g : Game.state)
    (pre : list (Vec3 * Q)) (fi : Vec3 * Q) (mid : list (Vec3 * Q)) (fj : Vec3 * Q) :
  25600 <= V3.distanceToSquared (Game.startLinePos g) (Game.halfwayPos g) ->
  let g1 := Run.race W pre g in
  let g2 := Run.raceFrame W fi g1 in
  let g3 := Run.race W mid g2 in
  let g4 := Run.raceFrame W fj g3 in
  Game.lap g2 = (Game.lap g1 + 1)%Z ->
  Game.lap g4 = (Game.lap g3 + 1)%Z ->
  Exists (fun f => Game.nearHalfway g (fst f) = true) mid.
Proof.
  intros Hfar. apply lap_increments_need_checkpoint_strictly.
  intros pos. now apply zones_disjoint.
Qed.

End CheckpointApart.

Lemma laps_need_intervening_witness :
  let W := Reference.world in
  let g := Examples.game0 in
  let pre := [(Reference.pointAt 0.25, 1000)] in
  let fi := (Reference.pointAt 0, 2000) in
  let mid := [(mkVec3 100 0 100, 2500); (Reference.pointAt 0.25, 3000)] in
  let fj := (Reference.pointAt 0, 4000) in
  let g1 := Run.race W pre g in
  let g2 := Run.raceFrame W fi g1 in
  let g3 := Run.race W mid g2 in
  let g4 := Run.raceFrame W fj g3 in
  25600 <= V3.distanceToSquared (Game.startLinePos g) (Game.halfwayPos g) /\
  Game.lap g2 = (Game.lap g1 + 1)%Z /\
  Game.lap g4 = (Game.lap g3 + 1)%Z /\
  Exists (fun f => Game.nearHalfway g (fst f) = true) mid.
Proof.
  intros W g pre fi mid fj g1 g2 g3 g4.
  assert (H0 : 25600 <= V3.distanceToSquared (Game.startLinePos g) (Game.halfwayPos g))
    by (vm_compute; discriminate).
  assert (H1 : Game.lap g2 = (Game.lap g1 + 1)%Z) by (vm_compute; reflexivity).
  assert (H2 : Game.lap g4 = (Game.lap g3 + 1)%Z) by (vm_compute; reflexivity).
  split; [exact H0|]. split; [exact H1|]. split; [exact H2|].
  exact (laps_need_intervening_checkpoint W g pre fi mid fj H0 H1 H2).
Defined.

(** The distance is needed: with a quarter-point only 100 from the
    start line, a player standing between the two is within both radii
    and the counter goes up in two consecutive frames. *)
Lemma overlapping_zones_count_every_frame :
  let W := Reference.world in
  let g := {| Game.gameState := Game.PLAYING; Game.score := 0; Game.lap := 1;
              Game.maxLaps := 3; Game.checkpointReached := false;
              Game.lapStartTime := 0; Game.bestLapTime := None;
              Game.currentLapTime := 0; Game.cameraShake := 0;
              Game.player := Car.create Car.defaults; Game.rivals := [];
              Game.destructibles := []; Game.colliders := [];
              Game.startLinePos := mkVec3 0 0 0;
              Game.halfwayPos := mkVec3 100 0 0 |} in
  let g1 := Run.raceFrame W (mkVec3 50 0 0, 1000) g in
  let g2 := Run.raceFrame W (mkVec3 50 0 0, 1016) g1 in
  Game.lap g1 = 2%Z /\ Game.lap g2 = 3%Z.
Proof.
  cbv zeta. split; vm_compute; reflexivity.
Qed.

(** ** Saving and restoring a car (C5) *)

Lemma fromJSON_toJSON (c c' : Car.state) :
  Car.toJSON (Car.fromJSON (Car.toJSON c) c') = Car.toJSON c.
Proof. reflexivity. Qed.

Lemma fromJSON_unsaved (data : Car.saved) (c' : Car.state) :
  unsaved (Car.fromJSON data c') = unsaved c'.
Proof. reflexivity. Qed.

Lemma fromJSON_same_unsaved (c c' : Car.state) :
  unsaved c' = unsaved c -> Car.fromJSON (Car.toJSON c) c' = c.
Proof.
  destruct c, c'. unfold unsaved. cbn. intros E.
  injection E as -> -> -> -> -> -> -> -> -> -> -> -> -> -> -> -> ->. reflexivity.
Qed.

Section Restored.

Context (W : World) (Htrig : trig_respects_eq W).

#[local] Instance sin_proper : Proper (Qeq ==> Qeq) (Math_sin W).
Proof. intros x y E. now apply Htrig. Qed.

#[local] Instance cos_proper : Proper (Qeq ==> Qeq) (Math_cos W).
Proof. intros x y E. now apply Htrig. Qed.

#[local] Instance ltb_proper : Proper (Qeq ==> Qeq ==> eq) JS.ltb.
Proof. intros a b E c d F. unfold JS.ltb. now rewrite E, F. Qed.

#[local] Instance leb_proper : Proper (Qeq ==> Qeq ==> eq) JS.leb.
Proof. intros a b E c d F. unfold JS.leb. now rewrite E, F. Qed.

#[local] Instance lerp_proper : Proper (Qeq ==> Qeq ==> Qeq ==> Qeq) JS.lerp.
Proof. intros a b E c d F x y G. unfold JS.lerp. now rewrite E, F, G. Qed.

Ltac state_fields :=
  cbn [Car.config Car.speed Car.maxSpeed Car.acceleration Car.friction Car.rotation
       Car.steeringPower Car.driftFactor Car.maxHealth Car.health Car.invulnerable
       Car.nitroAmount Car.nitroCooldown Car.progress Car.position Car.meshRotY
       Car.meshRotZ Car.accSmoothed Car.wheelSpinVel Car.cameraShake
       Car.lastCollisionTime Car.boundingRadius Car.events
       Car.set_speed Car.set_rotation Car.set_driftFactor Car.set_health
       Car.set_invulnerable Car.set_nitroAmount Car.set_nitroCooldown
       Car.set_progress Car.set_position Car.set_meshRotY Car.set_meshRotZ
       Car.set_accSmoothed Car.set_wheelSpinVel Car.set_cameraShake
       Car.set_lastCollisionTime Car.set_events Car.emit
       Car.toJSON Car.s_position Car.s_rotation Car.s_speed Car.s_health
       Car.s_nitro Car.s_progress vx vy vz] in *.


(** The hypotheses of [in_step], one by one. *)
Ltac open_step H :=
  let Tc := fresh "Tc" in let Tm := fresh "Tm" in let Ta := fresh "Ta" in
  let Tf := fresh "Tf" in let Ts := fresh "Ts" in
  let Hcd := fresh "Hcd" in let Hdf := fresh "Hdf" in
  let Hac := fresh "Hac" in
  let Px := fresh "Px" in let Py := fresh "Py" in let Pz := fresh "Pz" in
  let Hr := fresh "Hr" in let Hs := fresh "Hs" in let Hh := fresh "Hh" in
  let Hn := fresh "Hn" in let Hg := fresh "Hg" in let Hev := fresh "Hev" in
  destruct H as (((Tc & Tm & Ta & Tf & Ts) & (Hcd & Hdf & Hac)
                  & ((Px & Py & Pz) & Hr & Hs & Hh & Hn & Hg)) & Hev);
  state_fields.

(** Equal numbers, from the hypotheses in the context. *)
Ltac numbers :=
  state_fields;
  repeat match goal with
  | H : @eq Q _ _ |- _ => rewrite H
  | H : @eq Car.Config _ _ |- _ => rewrite H
  end;
  repeat match goal with
  | H : _ == _ |- _ => rewrite H; clear H
  end;
  try reflexivity.

Ltac alike_goal :=
  unfold alike, same_tuning, same_hidden_state, saved_equiv, V3.eqv, acc_or_zero;
  state_fields; repeat split; numbers.

Lemma in_step_intro (b1 b2 : list Event) (c1 c2 d1 d2 : Car.state) :
  emitted_alike b1 b2 c1 c2 ->
  Car.events d1 = Car.events c1 -> Car.events d2 = Car.events c2 ->
  alike d1 d2 -> in_step b1 b2 d1 d2.
Proof.
  intros (l1 & l2 & E1 & E2 & F) D1 D2 A. split; [exact A|].
  exists l1, l2. rewrite D1, D2. auto.
Qed.

Lemma in_step_emit (b1 b2 : list Event) (c1 c2 d1 d2 : Car.state) (e1 e2 : Event) :
  emitted_alike b1 b2 c1 c2 -> event_alike e1 e2 ->
  Car.events d1 = Car.events c1 ++ [e1] -> Car.events d2 = Car.events c2 ++ [e2] ->
  alike d1 d2 -> in_step b1 b2 d1 d2.
Proof.
  intros (l1 & l2 & E1 & E2 & F) He D1 D2 A. split; [exact A|].
  exists (l1 ++ [e1]), (l2 ++ [e2]). rewrite D1, D2, E1, E2, <- !app_assoc.
  split; [reflexivity|]. split; [reflexivity|].
  apply Forall2_app; [exact F|]. constructor; [exact He|constructor].
Qed.

(** 1. Acceleration and braking. *)
Lemma accelerate_in_step (keys : Car.Keys) (dt : Q) (b1 b2 : list Event)
    (c1 c2 : Car.state) :
  in_step b1 b2 c1 c2 ->
  in_step b1 b2 (Car.accelerate keys dt c1) (Car.accelerate keys dt c2).
Proof.
  intros H. open_step H. unfold Car.accelerate. cbv zeta.
  fold (acc_or_zero c1). fold (acc_or_zero c2).
  set (a1 := JS.lerp (acc_or_zero c1) _ _). set (a2 := JS.lerp (acc_or_zero c2) _ _).
  assert (Ea : a1 == a2) by (unfold a1, a2; now rewrite Hac).
  clearbody a1 a2.
  assert (E1 : JS.ltb 0.01 a1 = JS.ltb 0.01 a2) by now rewrite Ea.
  assert (E2 : JS.ltb a1 (-0.01) = JS.ltb a2 (-0.01)) by now rewrite Ea.
  rewrite E1, E2.
  destruct (JS.ltb 0.01 a2); [|destruct (JS.ltb a2 (-0.01))];
    (eapply in_step_intro; [exact Hev | reflexivity | reflexivity |]); alike_goal.
Qed.

(** 2. Nitro. *)
Lemma useNitro_in_step (dt : Q) (b1 b2 : list Event) (c1 c2 : Car.state) :
  in_step b1 b2 c1 c2 ->
  @eq bool (fst (Car.useNitro dt c1)) (fst (Car.useNitro dt c2)) /\
  in_step b1 b2 (snd (Car.useNitro dt c1)) (snd (Car.useNitro dt c2)).
Proof.
  intros H. pose proof H as H0. open_step H. unfold Car.useNitro.
  assert (E1 : JS.ltb 0 (Car.nitroCooldown c1) = JS.ltb 0 (Car.nitroCooldown c2))
    by now rewrite Hcd.
  assert (E2 : JS.leb (Car.nitroAmount c1) 0 = JS.leb (Car.nitroAmount c2) 0)
    by now rewrite Hn.
  rewrite E1, E2.
  destruct (JS.ltb 0 (Car.nitroCooldown c2)); [split; [reflexivity|exact H0]|].
  destruct (JS.leb (Car.nitroAmount c2) 0); cbv zeta; cbn [fst snd].
  - split; [reflexivity|].
    eapply (in_step_emit _ _ c1 c2 _ _ EvNitroEmpty EvNitroEmpty);
      [exact Hev | exact I | reflexivity | reflexivity |]. alike_goal.
  - split; [reflexivity|]. state_fields.
    set (n1 := Qmax 0 (Car.nitroAmount c1 - Car.nitroDrainRate (Car.config c1) * dt)).
    set (n2 := Qmax 0 (Car.nitroAmount c2 - Car.nitroDrainRate (Car.config c2) * dt)).
    assert (En : n1 == n2) by (unfold n1, n2; now rewrite Tc, Hn).
    clearbody n1 n2.
    assert (E3 : Qeq_bool n1 0 = Qeq_bool n2 0) by now rewrite En.
    rewrite E3.
    destruct (Qeq_bool n2 0); state_fields;
      (eapply (in_step_emit _ _ c1 c2 _ _ (EvNitro n1) (EvNitro n2));
       [exact Hev | exact En | reflexivity | reflexivity |]); alike_goal.
Qed.

Lemma regenNitro_in_step (dt : Q) (b1 b2 : list Event) (c1 c2 : Car.state) :
  in_step b1 b2 c1 c2 ->
  in_step b1 b2 (Car.regenNitro dt c1) (Car.regenNitro dt c2).
Proof.
  intros H. open_step H. unfold Car.regenNitro.
  assert (E1 : JS.ltb 0 (Car.nitroCooldown c1) = JS.ltb 0 (Car.nitroCooldown c2))
    by now rewrite Hcd.
  rewrite E1.
  destruct (JS.ltb 0 (Car.nitroCooldown c2));
    (eapply in_step_intro; [exact Hev | reflexivity | reflexivity |]); alike_goal.
Qed.

Lemma nitro_in_step (keys : Car.Keys) (dt : Q) (b1 b2 : list Event)
    (c1 c2 : Car.state) :
  in_step b1 b2 c1 c2 ->
  in_step b1 b2 (Car.nitro keys dt c1) (Car.nitro keys dt c2).
Proof.
  intros H. unfold Car.nitro.
  assert (E : Car.isUsingNitro keys c1 = Car.isUsingNitro keys c2).
  { pose proof H as H0. open_step H0. unfold Car.isUsingNitro. now rewrite Hn, Hcd. }
  rewrite E. destruct (Car.isUsingNitro keys c2); [|now apply regenNitro_in_step].
  destruct (useNitro_in_step dt b1 b2 c1 c2 H) as [Eu Hu].
  destruct (Car.useNitro dt c1) as [u1 d1], (Car.useNitro dt c2) as [u2 d2].
  cbn [fst snd] in Eu, Hu. subst u2. destruct u1; [|exact Hu].
  open_step Hu.
  (eapply in_step_intro; [exact Hev | reflexivity | reflexivity |]); alike_goal.
Qed.

(** 3. Speed limiter. *)
Lemma limitSpeed_in_step (b1 b2 : list Event) (c1 c2 : Car.state) :
  in_step b1 b2 c1 c2 -> in_step b1 b2 (Car.limitSpeed c1) (Car.limitSpeed c2).
Proof.
  intros H. pose proof H as H0. open_step H. unfold Car.limitSpeed. cbv zeta.
  assert (E1 : JS.ltb (Car.maxSpeed c1) (Car.speed c1)
               = JS.ltb (Car.maxSpeed c2) (Car.speed c2)) by now rewrite Tm, Hs.
  rewrite E1. destruct (JS.ltb (Car.maxSpeed c2) (Car.speed c2)); state_fields.
  - rewrite Tm.
    destruct (JS.ltb (Car.maxSpeed c2) (- Car.maxSpeed c2 / 2));
      (eapply in_step_intro; [exact Hev | reflexivity | reflexivity |]); alike_goal.
  - assert (E2 : JS.ltb (Car.speed c1) (- Car.maxSpeed c1 / 2)
                 = JS.ltb (Car.speed c2) (- Car.maxSpeed c2 / 2)) by now rewrite Tm, Hs.
    rewrite E2.
    destruct (JS.ltb (Car.speed c2) (- Car.maxSpeed c2 / 2)); [|exact H0].
    (eapply in_step_intro; [exact Hev | reflexivity | reflexivity |]); alike_goal.
Qed.

(** 4. Friction. *)
Lemma applyFriction_in_step (dt : Q) (b1 b2 : list Event) (c1 c2 : Car.state) :
  in_step b1 b2 c1 c2 ->
  in_step b1 b2 (Car.applyFriction W dt c1) (Car.applyFriction W dt c2).
Proof.
  intros H. open_step H. unfold Car.applyFriction.
  (eapply in_step_intro; [exact Hev | reflexivity | reflexivity |]); alike_goal.
Qed.

(** 5. Steering and drift. *)
Lemma steer_in_step (keys : Car.Keys) (dt : Q) (b1 b2 : list Event)
    (c1 c2 : Car.state) :
  in_step b1 b2 c1 c2 ->
  in_step b1 b2 (Car.steer keys dt c1) (Car.steer keys dt c2).
Proof.
  intros H. open_step H. unfold Car.steer. cbv zeta.
  assert (E1 : JS.ltb 0.03 (Qabs (Car.speed c1)) = JS.ltb 0.03 (Qabs (Car.speed c2)))
    by now rewrite Hs.
  assert (E2 : JS.ltb 0 (Car.speed c1) = JS.ltb 0 (Car.speed c2)) by now rewrite Hs.
  rewrite E1, E2.
  destruct (JS.ltb 0.03 (Qabs (Car.speed c2))); [destruct (Car.key_a keys);
    [|destruct (Car.key_d keys)]|]; state_fields;
    (eapply in_step_intro; [exact Hev | reflexivity | reflexivity |]); alike_goal.
Qed.

(** 6 to 8. Pose and movement. *)
Lemma move_in_step (dt : Q) (b1 b2 : list Event) (c1 c2 : Car.state) :
  in_step b1 b2 c1 c2 ->
  in_step b1 b2 (Car.move W (Car.pose dt c1)) (Car.move W (Car.pose dt c2)).
Proof.
  intros H. open_step H. unfold Car.move, Car.pose, Car.forward. cbv zeta.
  unfold V3.addScaledVector. state_fields.
  (eapply in_step_intro; [exact Hev | reflexivity | reflexivity |]); alike_goal.
Qed.

(** 9. Drift event. *)
Lemma driftEvent_in_step (b1 b2 : list Event) (c1 c2 : Car.state) :
  in_step b1 b2 c1 c2 -> in_step b1 b2 (Car.driftEvent c1) (Car.driftEvent c2).
Proof.
  intros H. pose proof H as H0. open_step H. unfold Car.driftEvent.
  assert (E1 : JS.ltb 0.15 (Qabs (Car.driftFactor c1))
               = JS.ltb 0.15 (Qabs (Car.driftFactor c2))) by now rewrite Hdf.
  rewrite E1. destruct (JS.ltb 0.15 (Qabs (Car.driftFactor c2))); [|exact H0].
  eapply (in_step_emit _ _ c1 c2 _ _ (EvDrift (Car.driftFactor c1))
            (EvDrift (Car.driftFactor c2)));
    [exact Hev | exact Hdf | reflexivity | reflexivity |]. alike_goal.
Qed.

Lemma update_in_step (input : option Car.Keys) (d : JS.dt_value) (b1 b2 : list Event)
    (c1 c2 : Car.state) :
  in_step b1 b2 c1 c2 ->
  in_step b1 b2 (Car.update W input d c1) (Car.update W input d c2).
Proof.
  intros H. unfold Car.update. destruct (JS.dt_rejected d); [exact H|].
  destruct (JS.dt_toNumber d) as [q|]; [|exact H].
  unfold Car.advance, Car.throughLimiter.
  now apply driftEvent_in_step, move_in_step, steer_in_step, applyFriction_in_step,
    limitSpeed_in_step, nitro_in_step, accelerate_in_step.
Qed.

Lemma run_in_step (inputs : list (option Car.Keys * JS.dt_value)) (b1 b2 : list Event) :
  forall c1 c2, in_step b1 b2 c1 c2 ->
  in_step b1 b2 (Run.car W inputs c1) (Run.car W inputs c2).
Proof.
  induction inputs as [|[input d] inputs IH]; intros c1 c2 H; [exact H|].
  cbn [Run.car fold_left fst snd]. apply IH. now apply update_in_step.
Qed.


(** C5, as the code has it.  [fromJSON (toJSON c)] gives the receiving
    car [c'] the position, heading, speed, health, nitro amount and
    progress of [c] and leaves each of its other fields as it was.  If
    [c'] has the tuning of [c] and agrees with it on the three numbers
    that are not saved and that move the car (nitro cooldown, drift
    factor, smoothed acceleration, an undefined one counting as 0),
    then over every sequence of inputs and time steps the restored car
    and [c] stay in the same state and emit the same events. *)
Theorem restored_car_behaves_alike (c c' : Car.state)
    (inputs : list (option Car.Keys * JS.dt_value)) :
  same_tuning c' c -> same_hidden_state c' c ->
  let r := Car.fromJSON (Car.toJSON c) c' in
  Car.toJSON r = Car.toJSON c /\
  unsaved r = unsaved c' /\
  alike (Run.car W inputs r) (Run.car W inputs c) /\
  emitted_alike (Car.events c') (Car.events c) (Run.car W inputs r) (Run.car W inputs c).
Proof.
  intros Ht Hh r. split; [reflexivity|]. split; [reflexivity|].
  apply run_in_step. split.
  - split; [exact Ht|]. split; [exact Hh|].
    unfold saved_equiv, V3.eqv. cbn. repeat split; reflexivity.
  - exists [], []. rewrite !app_nil_r. repeat split. constructor.
Qed.

End Restored.

Lemma reference_trig : trig_respects_eq Reference.world.
Proof.
  split; intros x y E; cbn [Math_sin Math_cos Reference.world];
    unfold Reference.sin, Reference.cos; rewrite !Qred_correct, E; reflexivity.
Qed.

Lemma restored_car_witness :
  let W := Reference.world in
  let c := coastingCar in
  let c' := Car.create Car.defaults in
  let inputs := [ (Some Examples.keys_w_shift, JS.DtNumber 0.05);
                  (Some (Car.mkKeys false false false true false), JS.DtNumber 0.05) ] in
  let r := Car.fromJSON (Car.toJSON c) c' in
  trig_respects_eq W /\ same_tuning c' c /\ same_hidden_state c' c /\
  0 < Car.speed c /\ Car.accSmoothed c' = None /\
  alike (Run.car W inputs r) (Run.car W inputs c) /\
  emitted_alike (Car.events c') (Car.events c) (Run.car W inputs r) (Run.car W inputs c).
Proof.
  intros W c c' inputs r.
  assert (H1 : same_tuning c' c) by (repeat split).
  assert (H2 : same_hidden_state c' c) by (repeat split; vm_compute; reflexivity).
  split; [exact reference_trig|]. split; [exact H1|]. split; [exact H2|].
  split; [vm_compute; reflexivity|]. split; [reflexivity|].
  exact (proj2 (proj2 (restored_car_behaves_alike W reference_trig c c' inputs H1 H2))).
Defined.

(** The nitro cooldown is not saved: a car restored from the save of a
    drained car, into a new car of the same configuration, has the saved
    fields of the original but refills its tank on the next frame, while
    the original is still cooling down. *)
Lemma restored_car_diverges :
  let c := Examples.drainedCar in
  let r := Car.fromJSON (Car.toJSON c) (Car.create Car.defaults) in
  let frame := [(None, JS.DtNumber 0.1)] in
  Car.config r = Car.config c /\
  Car.toJSON r = Car.toJSON c /\
  Car.nitroAmount c == 0 /\ Car.nitroCooldown c == 0.75 /\ Car.nitroCooldown r == 0 /\
  ~ saved_equiv (Car.toJSON (Run.car Reference.world frame r))
                (Car.toJSON (Run.car Reference.world frame c)).
Proof.
  cbv zeta. split; [reflexivity|]. split; [reflexivity|].
  split; [vm_compute; reflexivity|]. split; [vm_compute; reflexivity|].
  split; [vm_compute; reflexivity|].
  unfold saved_equiv. intros (_ & _ & _ & _ & Hn & _).
  vm_compute in Hn. discriminate Hn.
Qed.

(** The smoothed acceleration is not saved either: a car saved while
    accelerating and restored into a new car coasts on its intent for
    some frames, the restored car does not. *)
Lemma unsaved_acceleration_matters :
  let W := Reference.world in
  let c := Run.car W [(Some (Car.mkKeys true false false false false), JS.DtNumber 0.05)]
             (Car.create Car.defaults) in
  let r := Car.fromJSON (Car.toJSON c) (Car.create Car.defaults) in
  let frame := [(None, JS.DtNumber 0.05)] in
  same_tuning r c /\ Car.nitroCooldown r == Car.nitroCooldown c /\
  Car.driftFactor r == Car.driftFactor c /\ acc_or_zero c == 0.4 /\ acc_or_zero r == 0 /\
  Car.speed (Run.car W frame r) < Car.speed (Run.car W frame c).
Proof.
  cbv zeta. split; [repeat split|]. repeat split; vm_compute; reflexivity.
Qed.

(** Nor is the drift factor: a car saved in a drift emits a [drift]
    event on the next frame, the restored car does not. *)
Lemma unsaved_drift_matters :
  let W := Reference.world in
  let c := Run.car W [(Some (Car.mkKeys false false true false false), JS.DtNumber 0.2)]
             Examples.fastCar in
  let r := Car.fromJSON (Car.toJSON c) (Car.create Car.defaults) in
  let frame := [(None, JS.DtNumber 0.05)] in
  same_tuning r c /\ Car.nitroCooldown r == Car.nitroCooldown c /\
  acc_or_zero r == acc_or_zero c /\
  Car.events (Run.car W frame r) = Car.events r /\
  exists d, Car.events (Run.car W frame c) = Car.events c ++ [EvDrift d].
Proof.
  cbv zeta. split; [repeat split|]. split; [vm_compute; reflexivity|].
  split; [vm_compute; reflexivity|]. split; [vm_compute; reflexivity|].
  eexists. vm_compute. reflexivity.
Qed.

(** ** Vehicle against vehicle (C6) *)

Section RivalCollision.

Context (W : World).


(** Within 100 ms of the last resolved collision the car ignores the
    call. *)
Lemma player_debounced (now : Q) (normal : Vec3) (severity : Q) (c : Car.state) :
  now - Car.lastCollisionTime c < 100 ->
  Car.handleCollisionWithObject now normal severity c = c.
Proof.
  intros H. unfold Car.handleCollisionWithObject.
  apply ltb_true in H. now rewrite H.
Qed.

Lemma applyDamage_view (amount : Q) (c : Car.state) :
  Car.position (Car.applyDamage amount c) = Car.position c /\
  Car.lastCollisionTime (Car.applyDamage amount c) = Car.lastCollisionTime c /\
  (if Car.invulnerable c
   then Car.applyDamage amount c = c
   else exists tail,
          Car.events (Car.applyDamage amount c)
          = Car.events c ++ EvDamage amount :: tail /\
          Car.health (Car.applyDamage amount c)
          = (if JS.leb (Car.health c - amount) 0 then 0 else Car.health c - amount)).
Proof.
  unfold Car.applyDamage.
  destruct (Car.invulnerable c); [auto|].
  cbn [Car.health Car.set_health Car.emit Car.events Car.set_events].
  destruct (JS.leb (Car.health c - amount) 0).
  - repeat split. exists [EvDestroyed]. cbn. rewrite <- app_assoc. auto.
  - repeat split. exists []. auto.
Qed.

(** A resolved collision of the car: pushed by [0.8 * severity] along
    the normal, damaged by ten times the impulse unless invulnerable. *)
Lemma player_resolved (now : Q) (normal : Vec3) (severity : Q) (c : Car.state) :
  100 <= now - Car.lastCollisionTime c ->
  let c' := Car.handleCollisionWithObject now normal severity c in
  let damage := Qabs (Car.speed c) * severity * 10 in
  Car.position c' = V3.add (Car.position c) (V3.multiplyScalar normal (0.8 * severity)) /\
  Car.lastCollisionTime c' = now /\
  (if Car.invulnerable c
   then Car.health c' = Car.health c /\ ~ damage_emitted (Car.events c) (Car.events c')
   else Car.health c'
        = (if JS.leb (Car.health c - damage) 0 then 0 else Car.health c - damage) /\
        damage_emitted (Car.events c) (Car.events c')).
Proof.
  intros H. cbv zeta. unfold Car.handleCollisionWithObject.
  apply ltb_false in H. rewrite H.
  set (c1 := Car.set_lastCollisionTime now c).
  pose proof (applyDamage_view (Qabs (Car.speed c1) * severity * 10) c1) as (Hp & Ht & Hd).
  set (c2 := Car.applyDamage _ c1) in *.
  cbn [Car.position Car.set_position Car.emit Car.set_events Car.set_cameraShake
       Car.set_speed Car.lastCollisionTime Car.health Car.events].
  rewrite Hp, Ht. split; [reflexivity|]. split; [reflexivity|].
  change (Car.invulnerable c1) with (Car.invulnerable c) in Hd.
  destruct (Car.invulnerable c).
  - rewrite Hd. split; [reflexivity|].
    cbn [Car.events Car.set_lastCollisionTime].
    intros [a Ha]. rewrite skipn_app, skipn_all, Nat.sub_diag in Ha.
    cbn in Ha. destruct Ha as [Ha|[]]. discriminate Ha.
  - destruct Hd as (tail & Hev & Hh). split; [exact Hh|].
    rewrite Hev. cbn [Car.events Car.set_lastCollisionTime].
    exists (Qabs (Car.speed c) * severity * 10).
    rewrite <- app_assoc, skipn_app, skipn_all, Nat.sub_diag. cbn. auto.
Qed.


End RivalCollision.

Section PushedApart.

Context (W : World).

Lemma lengthSq_nonneg (v : Vec3) : 0 <= V3.lengthSq v.
Proof. unfold V3.lengthSq. nra. Qed.





End PushedApart.

Section PushedApartTheorem.

Context (W : World).


End PushedApartTheorem.



(** And a player hit again within 100 ms receives neither push nor
    damage. *)
Lemma debounced_player_untouched :
  let W := Reference.world in
  let g := Game.set_player (Car.set_lastCollisionTime 4950 (Game.player Examples.contactGame))
             Examples.contactGame in
  let r := Examples.rivalNear in
  V3.distanceTo_lt (Car.position (Game.player g)) (EnemyCar.position r)
    (Game.playerRadius g + Game.rivalRadius r) = true /\
  Game.player (snd (Game.visitRival W 5000 r g)) = Game.player g /\
  ~ symmetric_resolution W 5000 r g.
Proof.
  cbv zeta. split; [reflexivity|]. split; [reflexivity|].
  intros (_ & _ & [a Ha] & _). cbn in Ha. exact Ha.
Qed.

(** ** Destructible props (C7) *)

Section Destructibles.

Context (W : World).

Lemma Qsum_cons (x : Q) (l : list Q) : Qsum (x :: l) = x + Qsum l.
Proof. reflexivity. Qed.

(** The loop over the props: each prop is touched independently, the
    score grows by the awards of those destroyed, the player's speed is
    damped once per destroyed prop and the rest of the player and of the
    game is as before. *)
Lemma destructiblesLoop_spec (objs : list Track.Crate) (g : Game.state) :
  let n := Z.of_nat (length (destroyedBy W (Game.player g) objs)) in
  let res := Game.destructiblesLoop W objs g in
  fst res = map (touch W (Game.player g)) objs /\
  Game.score (snd res) == Game.score g + Qsum (map (award W (Game.player g)) objs) /\
  Car.speed (Game.player (snd res)) == Car.speed (Game.player g) * 0.85 ^ n /\
  Game.poseOf (Game.player (snd res)) = Game.poseOf (Game.player g) /\
  Game.destructibles (snd res) = Game.destructibles g.
Proof.
  induction objs as [|o objs IH]; cbv zeta.
  - unfold Qsum. cbn. repeat split; try reflexivity; [lra|].
    change (0.85 ^ Z.of_nat 0) with 1. lra.
  - cbv zeta in IH. destruct IH as (Hl & Hs & Hv & Hp & Hd).
    cbn [Game.destructiblesLoop fold_right].
    fold (Game.destructiblesLoop W objs g).
    set (res := Game.destructiblesLoop W objs g) in *.
    assert (Hov : Game.overlapsCrate W (Game.player (snd res)) o
                  = Game.overlapsCrate W (Game.player g) o).
    { unfold Game.overlapsCrate. rewrite Hp.
      now rewrite (f_equal (fun t => fst (fst t)) Hp : Car.position _ = Car.position _). }
    unfold Game.visitCrate. rewrite Hov.
    cbn [map destroyedBy List.filter]. fold (destroyedBy W (Game.player g) objs).
    unfold touch at 1, award at 1.
    destruct (Track.hit o); cbn [negb andb].
    + cbn [fst snd]. rewrite Hl. repeat split; auto. rewrite Qsum_cons. lra.
    + destruct (Game.overlapsCrate W (Game.player g) o); cbn [fst snd].
      * rewrite Hl. split; [reflexivity|].
        cbn [Game.triggerDestruction Game.score Game.set_score Game.set_cameraShake
             Game.set_player Game.player Car.speed Car.set_speed length].
        unfold Game.triggerDestruction.
        cbn [Game.score Game.set_score Game.set_cameraShake
             Game.set_player Game.player Car.speed Car.set_speed Game.destructibles].
        split; [|split; [|split]].
        -- rewrite Qsum_cons. lra.
        -- rewrite Hv. rewrite Nat2Z.inj_succ, <- Z.add_1_r.
           rewrite Qpower_plus by (intros E; discriminate E).
           change (0.85 ^ 1) with 0.85. ring.
        -- exact Hp.
        -- exact Hd.
      * rewrite Hl. repeat split; auto. rewrite Qsum_cons. lra.
Qed.

Lemma crateFrame_spec (p : Car.state) (g : Game.state) :
  let g' := Run.crateFrame W p g in
  Game.destructibles g' = map (touch W p) (Game.destructibles g) /\
  Game.score g' == Game.score g + Qsum (map (award W p) (Game.destructibles g)) /\
  Car.speed (Game.player g')
  == Car.speed p * 0.85 ^ Z.of_nat (length (destroyedBy W p (Game.destructibles g))).
Proof.
  cbv zeta. unfold Run.crateFrame, Game.destructiblesPass.
  pose proof (destructiblesLoop_spec (Game.destructibles g) (Game.set_player p g))
    as (Hl & Hs & Hv & _).
  cbn [Game.destructibles Game.set_player Game.player Game.score] in *.
  destruct (Game.destructiblesLoop W (Game.destructibles g) (Game.set_player p g))
    as [objs g'].
  cbn [fst snd] in *. cbn [Game.destructibles Game.set_destructibles Game.score Game.player].
  auto.
Qed.

Lemma touch_hit (p : Car.state) (o : Track.Crate) :
  Track.hit (touch W p o) = Track.hit o || Game.overlapsCrate W p o.
Proof.
  unfold touch. destruct (Track.hit o) eqn:E; [exact E|].
  destruct (Game.overlapsCrate W p o); [reflexivity|exact E].
Qed.

Lemma touch_overlaps (p q : Car.state) (o : Track.Crate) :
  Game.overlapsCrate W q (touch W p o) = Game.overlapsCrate W q o.
Proof.
  unfold touch. destruct (Track.hit o); [reflexivity|].
  destruct (Game.overlapsCrate W p o); reflexivity.
Qed.

Lemma touch_touched (p : Car.state) (ps : list Car.state) (o : Track.Crate) :
  touched W ps (touch W p o) = touched W ps o.
Proof.
  unfold touched. induction ps as [|q ps IH]; [reflexivity|].
  cbn [existsb]. now rewrite IH, touch_overlaps.
Qed.

Lemma touch_awardOf (p : Car.state) (o : Track.Crate) :
  Game.awardOf (touch W p o) = Game.awardOf o.
Proof.
  unfold touch. destruct (Track.hit o); [reflexivity|].
  destruct (Game.overlapsCrate W p o); reflexivity.
Qed.

Lemma hitOf_crateFrame (p : Car.state) (g : Game.state) (i : nat) (o : Track.Crate) :
  Game.destructibles g !! i = Some o ->
  Game.destructibles (Run.crateFrame W p g) !! i = Some (touch W p o).
Proof.
  intros Hi. destruct (crateFrame_spec p g) as [-> _].
  rewrite list_lookup_fmap, Hi. reflexivity.
Qed.

Lemma rises_all_true (n : nat) : Run.rises (repeat true n) = 0%nat.
Proof.
  induction n as [|n IH]; [reflexivity|].
  destruct n as [|n]; [reflexivity|]. cbn [repeat] in *. cbn [Run.rises negb andb].
  exact IH.
Qed.

Lemma rises_false_cons (b : bool) (tl : list bool) :
  Run.rises (false :: b :: tl) = ((if b then 1 else 0) + Run.rises (b :: tl))%nat.
Proof. reflexivity. Qed.

Lemma hitHistory_head (ps : list Car.state) (g : Game.state) (i : nat) :
  exists tl, Run.hitHistory W ps g i = Run.hitOf g i :: tl.
Proof. destruct ps; cbn [Run.hitHistory]; eauto. Qed.

(** Once hit, the flag of a prop stays set. *)
Lemma history_after_hit (ps : list Car.state) : forall g i o,
  Game.destructibles g !! i = Some o -> Track.hit o = true ->
  Run.hitHistory W ps g i = repeat true (S (length ps)).
Proof.
  induction ps as [|p ps IH]; intros g i o Hi Hh; cbn [Run.hitHistory];
    unfold Run.hitOf at 1; rewrite Hi, Hh; [reflexivity|].
  cbn [length repeat]. f_equal.
  eapply IH; [apply hitOf_crateFrame; exact Hi|].
  rewrite touch_hit, Hh. reflexivity.
Qed.

(** The flag of a standing prop rises once if some frame touches it,
    and never otherwise. *)
Lemma history_of_standing (ps : list Car.state) : forall g i o,
  Game.destructibles g !! i = Some o -> Track.hit o = false ->
  Run.rises (Run.hitHistory W ps g i) = (if touched W ps o then 1 else 0)%nat.
Proof.
  induction ps as [|p ps IH]; intros g i o Hi Hh; [reflexivity|].
  cbn [Run.hitHistory]. unfold Run.hitOf at 1. rewrite Hi, Hh.
  pose proof (hitOf_crateFrame p g i o Hi) as Hi'.
  destruct (hitHistory_head ps (Run.crateFrame W p g) i) as [tl Etl].
  rewrite Etl, rises_false_cons, <- Etl.
  unfold Run.hitOf. rewrite Hi', touch_hit, Hh. cbn [orb].
  unfold touched. cbn [existsb]. fold (touched W ps o).
  destruct (Game.overlapsCrate W p o) eqn:Hov; cbn [orb].
  - rewrite (history_after_hit ps _ i _ Hi') by (rewrite touch_hit, Hov; apply orb_true_r).
    now rewrite rises_all_true.
  - rewrite (IH _ i _ Hi') by (rewrite touch_hit, Hh, Hov; reflexivity).
    now rewrite touch_touched.
Qed.

Lemma crates_lookup (ps : list Car.state) : forall g i o,
  Game.destructibles g !! i = Some o ->
  exists o', Game.destructibles (Run.crates W ps g) !! i = Some o' /\
             Track.hit o' = Track.hit o || touched W ps o.
Proof.
  induction ps as [|p ps IH]; intros g i o Hi.
  - exists o. split; [exact Hi|]. cbn. now rewrite orb_false_r.
  - cbn [Run.crates fold_left]. fold (Run.crates W ps (Run.crateFrame W p g)).
    destruct (IH _ i _ (hitOf_crateFrame p g i o Hi)) as (o' & Ho' & Hh).
    exists o'. split; [exact Ho'|]. rewrite Hh, touch_hit, touch_touched.
    unfold touched. cbn [existsb]. now rewrite orb_assoc.
Qed.

Lemma Qsum_pointwise {A : Type} (f h k : A -> Q) (l : list A) :
  (forall x, f x + h x == k x) ->
  Qsum (map f l) + Qsum (map h l) == Qsum (map k l).
Proof.
  intros E. induction l as [|x l IH]; cbn [map]; [unfold Qsum; cbn; lra|].
  rewrite !Qsum_cons. specialize (E x). lra.
Qed.

Lemma contribution_step (p : Car.state) (ps : list Car.state) (o : Track.Crate) :
  award W p o + contribution W ps (touch W p o) == contribution W (p :: ps) o.
Proof.
  unfold contribution, award. rewrite touch_hit, touch_touched, touch_awardOf.
  unfold touched at 2. cbn [existsb]. fold (touched W ps o).
  destruct (Track.hit o), (Game.overlapsCrate W p o), (touched W ps o); cbn; lra.
Qed.

(** Over a run the score grows by the contribution of each prop. *)
Lemma crates_score (ps : list Car.state) : forall g,
  Game.score (Run.crates W ps g)
  == Game.score g + Qsum (map (contribution W ps) (Game.destructibles g)).
Proof.
  induction ps as [|p ps IH]; intros g.
  - cbn [Run.crates fold_left].
    assert (E : Qsum (map (contribution W []) (Game.destructibles g)) == 0).
    { induction (Game.destructibles g) as [|o l IHl]; [reflexivity|].
      cbn [map]. rewrite Qsum_cons.
      unfold contribution at 1, touched. cbn [existsb]. rewrite andb_false_r. lra. }
    lra.
  - cbn [Run.crates fold_left]. fold (Run.crates W ps (Run.crateFrame W p g)).
    rewrite IH. destruct (crateFrame_spec p g) as (-> & -> & _).
    rewrite map_map.
    pose proof (Qsum_pointwise (award W p) (fun o => contribution W ps (touch W p o))
                  (contribution W (p :: ps)) (Game.destructibles g)
                  (contribution_step p ps)) as E.
    lra.
Qed.

(** C7. For every run of frames and every prop standing at its start:
    the [hit] flag rises exactly once if the collision test succeeds in
    at least one frame, whatever their number, and never otherwise; a
    prop that is hit is passed over without any test and without any
    effect; over the run each prop adds its award to the score once, if
    it was destroyed, the award being the configured score value when
    one is configured; and in each frame the player's speed is damped
    by the factor 0.85 once per prop destroyed in that frame. *)
Theorem destructible_one_shot (g : Game.state) (ps : list Car.state) :
  (forall i obj, Game.destructibles g !! i = Some obj -> Track.hit obj = false ->
     Run.rises (Run.hitHistory W ps g i) = (if touched W ps obj then 1 else 0)%nat /\
     Run.hitOf (Run.crates W ps g) i = touched W ps obj) /\
  (forall obj g', Track.hit obj = true -> Game.visitCrate W obj g' = (obj, g')) /\
  Game.score (Run.crates W ps g)
  == Game.score g + Qsum (map (contribution W ps) (Game.destructibles g)) /\
  (forall obj, ~ Track.scoreValue obj == 0 -> Game.awardOf obj = Track.scoreValue obj) /\
  (forall p g0,
     Car.speed (Game.player (Run.crateFrame W p g0))
     == Car.speed p * 0.85 ^ Z.of_nat (length (destroyedBy W p (Game.destructibles g0)))).
Proof.
  split; [|split; [|split; [|split]]].
  - intros i obj Hi Hh. split; [now apply history_of_standing|].
    destruct (crates_lookup ps g i obj Hi) as (o' & Ho' & Hh').
    unfold Run.hitOf. now rewrite Ho', Hh', Hh.
  - intros obj g' Hh. unfold Game.visitCrate. now rewrite Hh.
  - apply crates_score.
  - intros obj Hv. unfold Game.awardOf. apply eqb_false in Hv. now rewrite Hv.
  - intros p g0. apply crateFrame_spec.
Qed.

End Destructibles.

Lemma destructible_witness :
  let W := Reference.world in
  let g := Examples.game0 in
  let at_crate := Car.set_position (mkVec3 10 0 0) (Car.set_speed 1 (Game.player g)) in
  let ps := [Game.player g; at_crate; at_crate; at_crate] in
  Game.destructibles g !! 0%nat = Some (Track.newCrate (mkVec3 10 2 0)) /\
  touched W ps (Track.newCrate (mkVec3 10 2 0)) = true /\
  Run.rises (Run.hitHistory W ps g 0) = 1%nat /\
  Game.score (Run.crates W ps g) == 100.
Proof.
  intros W g at_crate ps.
  assert (Hi : Game.destructibles g !! 0%nat = Some (Track.newCrate (mkVec3 10 2 0)))
    by reflexivity.
  assert (Ht : touched W ps (Track.newCrate (mkVec3 10 2 0)) = true) by reflexivity.
  destruct (destructible_one_shot W g ps) as (Hrise & _ & Hscore & _).
  destruct (Hrise 0%nat _ Hi eq_refl) as [Hr _]. rewrite Ht in Hr.
  split; [exact Hi|]. split; [exact Ht|]. split; [exact Hr|].
  rewrite Hscore. vm_compute. reflexivity.
Defined.

(** ** The guard on [dt] (C8) *)

Lemma ignored_dt_rejected (d : JS.dt_value) : ignored_dt d <-> JS.dt_rejected d = true.
Proof.
  unfold JS.dt_rejected. destruct d as [q| | | |b]; cbn.
  - rewrite orb_true_iff, eqb_true. fold (JS.leb q 0). rewrite leb_true. split; [auto|].
    intros [E|H]; [rewrite E; apply Qle_refl | exact H].
  - tauto.
  - tauto.
  - tauto.
  - destruct b; cbn; [|tauto]. split; [discriminate|].
    intros H. fold (JS.leb 1 0) in H. apply leb_true in H. lra.
Qed.

(** A boolean [true] passes the guard and counts as one second. *)
Lemma update_true_is_one_second (W : World) (input : option Car.Keys) (c : Car.state) :
  Car.update W input (JS.DtBoolean true) c = Car.update W input (JS.DtNumber 1) c.
Proof.
  unfold Car.update.
  change (JS.dt_rejected (JS.DtBoolean true)) with false.
  change (JS.dt_rejected (JS.DtNumber 1)) with false.
  cbn [JS.dt_toNumber]. reflexivity.
Qed.

(** C8, as the code has it.  For the player's car and for a rival, in
    every state: when [dt] is a number that is not positive, [NaN],
    [undefined], [null] or [false], [update] returns with every field,
    the event log and the stream of draws as they were. *)
Theorem update_ignores_rejected_dt (W : World) (d : JS.dt_value)
    (input : option Car.Keys) (c : Car.state)
    (leader : option Q) (r : EnemyCar.state) (g : Rng) :
  ignored_dt d ->
  Car.update W input d c = c /\ EnemyCar.update W d leader r g = (r, g).
Proof.
  intros H. apply ignored_dt_rejected in H.
  unfold Car.update, EnemyCar.update. rewrite H. split; reflexivity.
Qed.

Lemma update_ignores_witness :
  ignored_dt (JS.DtNumber (-0.016)) /\
  Car.update Reference.world (Some Examples.keys_w_shift) (JS.DtNumber (-0.016))
    Examples.fastCar = Examples.fastCar /\
  EnemyCar.update Reference.world (JS.DtNumber (-0.016)) (Some 0.5)
    Examples.rivalAtStart Examples.halves
  = (Examples.rivalAtStart, Examples.halves).
Proof.
  assert (H : ignored_dt (JS.DtNumber (-0.016))) by (cbn; lra).
  split; [exact H|].
  exact (update_ignores_rejected_dt Reference.world (JS.DtNumber (-0.016))
           (Some Examples.keys_w_shift) Examples.fastCar (Some 0.5)
           Examples.rivalAtStart Examples.halves H).
Defined.

(** [true] is not a positive number, yet [update] runs with it: the
    car's smoothed acceleration is written and its nitro is unchanged
    only because the tank is full; the rival's cooldown goes from 5 to
    4.  [Game.animate] passes the nitro key, a boolean, in the place of
    [dt]. *)
Lemma boolean_dt_is_not_ignored :
  let c := Car.create Car.defaults in
  let r := Examples.rivalAtStart in
  ~ positive_number (JS.DtBoolean true) /\
  Car.update Reference.world None (JS.DtBoolean true) c <> c /\
  Car.accSmoothed c = None /\
  Car.accSmoothed (Car.update Reference.world None (JS.DtBoolean true) c) <> None /\
  fst (EnemyCar.update Reference.world (JS.DtBoolean true) None r Examples.halves) <> r /\
  EnemyCar.nitroCooldown
    (fst (EnemyCar.update Reference.world (JS.DtBoolean true) None r Examples.halves)) == 4.
Proof.
  cbv zeta. split; [intros []|]. split.
  - intros E. apply (f_equal Car.accSmoothed) in E. vm_compute in E. discriminate E.
  - split; [reflexivity|]. split; [vm_compute; discriminate|]. split.
    + intros E. apply (f_equal EnemyCar.nitroCooldown) in E. vm_compute in E.
      discriminate E.
    + vm_compute. reflexivity.
Qed.

(** ** Rubber-band nitro (C9) *)

Section RubberBand.

Context (W : World).

Lemma laneSwitch_drive (dt : Q) (c : EnemyCar.state) (g : Rng) :
  drive (fst (EnemyCar.laneSwitch dt c g)) = drive c.
Proof.
  unfold EnemyCar.laneSwitch. cbv zeta.
  cbn [EnemyCar.tLane EnemyCar.set_tLane].
  destruct (JS.leb (EnemyCar.tLane c - dt) 0); reflexivity.
Qed.

Lemma advance_drive (dt : Q) (leader : option Q) (c : EnemyCar.state) (g : Rng) :
  let h := EnemyCar.nitroHeuristic leader (EnemyCar.cooldownTick dt c) g in
  drive (fst (EnemyCar.advance W dt leader c g))
  = drive (fst (EnemyCar.nitroDrive dt (fst h) (snd h))).
Proof.
  unfold EnemyCar.advance. cbv zeta.
  destruct (EnemyCar.nitroHeuristic leader (EnemyCar.cooldownTick dt c) g) as [c1 g1].
  cbn [fst snd].
  destruct (EnemyCar.nitroDrive dt c1 g1) as [c2 g2]. cbn [fst].
  pose proof (laneSwitch_drive dt (EnemyCar.progressStep dt c2) g2) as L.
  destruct (EnemyCar.laneSwitch dt (EnemyCar.progressStep dt c2) g2) as [c3 g3].
  exact L.
Qed.

(** A trailing rival whose cooldown runs out in this frame is granted
    nitro by the heuristic without a draw being read. *)
Lemma heuristic_grants (dt leader : Q) (c : EnemyCar.state) (g : Rng) :
  EnemyCar.isNitroActive c = false ->
  EnemyCar.nitroCooldown c <= dt ->
  EnemyCar.progress c + 0.05 < leader ->
  let c0 := EnemyCar.cooldownTick dt c in
  fst (EnemyCar.requestNitro c0) = true /\
  EnemyCar.nitroHeuristic (Some leader) c0 g = (snd (EnemyCar.requestNitro c0), g).
Proof.
  intros Hn Hcd Hp. cbv zeta.
  assert (Hz : JS.leb (EnemyCar.nitroCooldown (EnemyCar.cooldownTick dt c)) 0 = true).
  { apply leb_true. cbn. apply Q.max_lub; lra. }
  assert (Hz' : JS.ltb 0 (EnemyCar.nitroCooldown (EnemyCar.cooldownTick dt c)) = false).
  { apply ltb_false. now apply leb_true. }
  unfold EnemyCar.nitroHeuristic, EnemyCar.requestNitro.
  rewrite Hz, Hz'.
  change (EnemyCar.isNitroActive (EnemyCar.cooldownTick dt c))
    with (EnemyCar.isNitroActive c).
  rewrite Hn. cbn [negb andb orb].
  unfold EnemyCar.trailing.
  change (EnemyCar.progress (EnemyCar.cooldownTick dt c)) with (EnemyCar.progress c).
  apply ltb_true in Hp. rewrite Hp. split; reflexivity.
Qed.

Lemma requestNitro_granted (c : EnemyCar.state) :
  EnemyCar.isNitroActive c = false ->
  EnemyCar.nitroCooldown c <= 0 ->
  EnemyCar.requestNitro c
  = (true, EnemyCar.emit EvNitroStart
             (EnemyCar.set_nitroTimer (EnemyCar.nitroDuration (EnemyCar.config c))
                (EnemyCar.set_isNitroActive true c))).
Proof.
  intros Hn Hcd. unfold EnemyCar.requestNitro. rewrite Hn.
  apply ltb_false in Hcd. rewrite Hcd. reflexivity.
Qed.

(** The nitro branch of the drive stage. *)
Lemma nitroDrive_active (dt : Q) (c : EnemyCar.state) (g : Rng) :
  EnemyCar.isNitroActive c = true ->
  let cfg := EnemyCar.config c in
  let ended := JS.leb (EnemyCar.nitroTimer c - dt) 0 in
  drive (fst (EnemyCar.nitroDrive dt c g))
  = (EnemyCar.events c ++ (if ended then [EvNitroEnd] else []),
     EnemyCar.nitroTimer c - dt, negb ended,
     JS.lerp (EnemyCar.speed c) (EnemyCar.baseSpeed cfg * EnemyCar.nitroMultiplier cfg)
       (Qmin 1 (dt * 6))).
Proof.
  intros Ha. cbv zeta. unfold EnemyCar.nitroDrive. rewrite Ha.
  cbn [EnemyCar.nitroTimer EnemyCar.set_nitroTimer EnemyCar.set_speed
       EnemyCar.set_nitroFlareVisible EnemyCar.set_exhaustIntensity
       EnemyCar.set_underglowIntensity].
  destruct (JS.leb (EnemyCar.nitroTimer c - dt) 0).
  - unfold drive. cbn. reflexivity.
  - unfold drive. cbn. rewrite Ha, app_nil_r. reflexivity.
Qed.

(** C9. A rival that is not nitro-active and whose cooldown has
    run out by this frame (in particular one whose cooldown is 0), when
    [update] is called with a leader progress more than 0.05 ahead of
    its own: whatever the stream of draws, nitro is granted in that
    frame.  The [nitroStart] event is emitted, the timer is started and
    already charged with this frame, the speed is pulled toward the
    nitro speed, and the rival leaves the frame nitro-active unless the
    whole nitro duration fits in this one [dt]. *)
Theorem trailing_rival_gets_nitro (dt leader : Q) (r : EnemyCar.state) (g : Rng) :
  0 < dt ->
  EnemyCar.isNitroActive r = false ->
  EnemyCar.nitroCooldown r <= dt ->
  EnemyCar.progress r + 0.05 < leader ->
  let r' := fst (EnemyCar.update W (JS.DtNumber dt) (Some leader) r g) in
  let cfg := EnemyCar.config r in
  (exists tail, EnemyCar.events r' = EnemyCar.events r ++ EvNitroStart :: tail) /\
  EnemyCar.nitroTimer r' = EnemyCar.nitroDuration cfg - dt /\
  EnemyCar.isNitroActive r' = JS.ltb dt (EnemyCar.nitroDuration cfg) /\
  EnemyCar.speed r'
  = JS.lerp (EnemyCar.speed r) (EnemyCar.baseSpeed cfg * EnemyCar.nitroMultiplier cfg)
      (Qmin 1 (dt * 6)).
Proof.
  intros Hdt Hn Hcd Hp r' cfg.
  assert (Hr : JS.dt_rejected (JS.DtNumber dt) = false).
  { unfold JS.dt_rejected. cbn. apply orb_false_iff. split.
    - apply eqb_false. lra.
    - apply leb_false. exact Hdt. }
  assert (E : r' = fst (EnemyCar.advance W dt (Some leader) r g)).
  { unfold r', EnemyCar.update. rewrite Hr. reflexivity. }
  set (c0 := EnemyCar.cooldownTick dt r).
  assert (Hz : EnemyCar.nitroCooldown c0 <= 0) by (cbn; apply Q.max_lub; lra).
  assert (Hn0 : EnemyCar.isNitroActive c0 = false) by exact Hn.
  pose proof (advance_drive dt (Some leader) r g) as D. cbv zeta in D. fold c0 in D.
  destruct (heuristic_grants dt leader r g Hn Hcd Hp) as [_ Hh]. fold c0 in Hh.
  rewrite Hh, (requestNitro_granted c0 Hn0 Hz) in D. cbn [fst snd] in D.
  rewrite nitroDrive_active in D by reflexivity. rewrite <- E in D. clear E Hh.
  assert (Hact : JS.leb (EnemyCar.nitroDuration cfg - dt) 0
                 = negb (JS.ltb dt (EnemyCar.nitroDuration cfg))).
  { destruct (JS.ltb dt (EnemyCar.nitroDuration cfg)) eqn:E1; cbn [negb].
    - apply ltb_true in E1. apply leb_false. lra.
    - apply ltb_false in E1. apply leb_true. lra. }
  pose proof (f_equal (fun v => fst (fst (fst v))) D) as D1.
  pose proof (f_equal (fun v => snd (fst (fst v))) D) as D2.
  pose proof (f_equal (fun v => snd (fst v)) D) as D3.
  pose proof (f_equal snd D) as D4. clear D.
  unfold drive in D1, D2, D3, D4. cbn [fst snd] in D1, D2, D3, D4.
  split; [|split; [exact D2|split; [|exact D4]]].
  - rewrite D1. eexists. cbn [EnemyCar.events EnemyCar.emit EnemyCar.set_events
      EnemyCar.set_nitroTimer EnemyCar.set_isNitroActive c0 EnemyCar.cooldownTick
      EnemyCar.set_nitroCooldown].
    rewrite <- app_assoc. reflexivity.
  - rewrite D3.
    change (JS.leb _ 0) with (JS.leb (EnemyCar.nitroDuration cfg - dt) 0).
    rewrite Hact. apply negb_involutive.
Qed.

End RubberBand.

Lemma trailing_rival_witness :
  let r := EnemyCar.set_nitroCooldown 0 (EnemyCar.set_progress 0.10 Examples.rivalAtStart) in
  let r' := fst (EnemyCar.update Reference.world (JS.DtNumber 0.016) (Some 0.20) r
                   Examples.halves) in
  0 < 0.016 /\ EnemyCar.isNitroActive r = false /\ EnemyCar.nitroCooldown r <= 0.016 /\
  EnemyCar.progress r + 0.05 < 0.20 /\
  (exists tail, EnemyCar.events r' = EnemyCar.events r ++ EvNitroStart :: tail) /\
  EnemyCar.isNitroActive r' = true.
Proof.
  intros r r'.
  assert (H1 : 0 < 0.016) by reflexivity.
  assert (H2 : EnemyCar.isNitroActive r = false) by reflexivity.
  assert (H3 : EnemyCar.nitroCooldown r <= 0.016) by (cbn; lra).
  assert (H4 : EnemyCar.progress r + 0.05 < 0.20) by (cbn; lra).
  destruct (trailing_rival_gets_nitro Reference.world 0.016 0.20 r Examples.halves
              H1 H2 H3 H4) as (He & _ & Ha & _).
  repeat (split; [assumption|]). exact Ha.
Defined.

(** ** [fromJSON] on arbitrary data (C10) *)

Lemma get_empty (k : string) : JS.get ∅ k = JS.Undefined.
Proof. unfold JS.get. now rewrite lookup_empty. Qed.

Lemma assign_number_lookup (data : gmap string JS.value) (src f k : string)
    (this : gmap string JS.value) :
  Saved.assign_number data src f this !! k
  = if bool_decide (k = f) && JS.is_number (JS.get data src)
    then Some (JS.get data src) else this !! k.
Proof.
  unfold Saved.assign_number.
  destruct (JS.is_number (JS.get data src)); [|now rewrite andb_false_r].
  rewrite andb_true_r. case_bool_decide as E.
  - subst. apply lookup_insert_eq.
  - apply lookup_insert_ne. congruence.
Qed.

Lemma assign_present_lookup (data : gmap string JS.value) (f k : string)
    (this : gmap string JS.value) :
  Saved.assign_present data f this !! k
  = if bool_decide (k = f) && JS.not_nullish (JS.get data f)
    then Some (JS.get data f) else this !! k.
Proof.
  unfold Saved.assign_present.
  destruct (JS.not_nullish (JS.get data f)); [|now rewrite andb_false_r].
  rewrite andb_true_r. case_bool_decide as E.
  - subst. apply lookup_insert_eq.
  - apply lookup_insert_ne. congruence.
Qed.

Lemma fromArray_lookup (a : JS.value) (k : string) (this : gmap string JS.value) :
  Saved.fromArray a this !! k
  = if bool_decide (k = "mesh.position.x") then Some (JS.index a 0)
    else if bool_decide (k = "mesh.position.y") then Some (JS.index a 1)
    else if bool_decide (k = "mesh.position.z") then Some (JS.index a 2)
    else this !! k.
Proof.
  unfold Saved.fromArray.
  repeat case_bool_decide; subst;
    rewrite ?lookup_insert_eq; try reflexivity;
    repeat (rewrite lookup_insert_ne by congruence; rewrite ?lookup_insert_eq);
    reflexivity.
Qed.

Lemma enemy_fromJSON_lookup (data this : gmap string JS.value) (k : string) :
  Saved.enemy_fromJSON (Some data) this !! k
  = match enemy_written data k with Some v => Some v | None => this !! k end.
Proof.
  unfold Saved.enemy_fromJSON, Saved.data_or_empty, enemy_written. cbv iota beta.
  rewrite !assign_present_lookup.
  repeat case_bool_decide; subst; try discriminate; cbn [andb];
    repeat match goal with
    | |- context [JS.not_nullish ?v] => destruct (JS.not_nullish v)
    end; reflexivity.
Qed.

Lemma car_fromJSON_lookup (data this : gmap string JS.value) (k : string) :
  Saved.car_fromJSON (Some data) this !! k
  = match car_written data k with Some v => Some v | None => this !! k end.
Proof.
  unfold Saved.car_fromJSON, Saved.data_or_empty, car_written. cbv iota beta.
  rewrite !assign_number_lookup.
  assert (P : (if JS.truthy (JS.get data "position")
               then Saved.fromArray (JS.get data "position") this else this) !! k
              = if JS.truthy (JS.get data "position")
                then Saved.fromArray (JS.get data "position") this !! k
                else this !! k)
    by (destruct (JS.truthy _); reflexivity).
  rewrite P, fromArray_lookup. clear P.
  repeat case_bool_decide; subst; try discriminate; cbn [andb];
    repeat match goal with
    | |- context [JS.is_number ?v] => destruct (JS.is_number v)
    end;
    destruct (JS.truthy (JS.get data "position")); reflexivity.
Qed.

Lemma written_empty (k : string) : car_written ∅ k = None /\ enemy_written ∅ k = None.
Proof.
  unfold car_written, enemy_written. rewrite !get_empty. cbn.
  repeat case_bool_decide; auto.
Qed.

(** C10, as the code has it.  [Car.fromJSON] overwrites each of
    rotation, speed, health, nitroAmount and progress exactly when the
    value of its key is of type number, and the three coordinates of the
    position, with the first three elements of [data.position], exactly
    when that value is truthy, of whatever type; [EnemyCar.fromJSON]
    overwrites each of progress, laneOffset, speed and isNitroActive
    exactly when the value of its key is neither [null] nor [undefined],
    of whatever type.  Every other property of the vehicle is left as
    it was, and [fromJSON({})] and [fromJSON()] change nothing. *)
Theorem fromJSON_frame (this : gmap string JS.value) :
  (forall data k,
     Saved.car_fromJSON (Some data) this !! k
     = match car_written data k with Some v => Some v | None => this !! k end) /\
  (forall data k,
     Saved.enemy_fromJSON (Some data) this !! k
     = match enemy_written data k with Some v => Some v | None => this !! k end) /\
  Saved.car_fromJSON (Some ∅) this = this /\
  Saved.car_fromJSON None this = this /\
  Saved.enemy_fromJSON (Some ∅) this = this /\
  Saved.enemy_fromJSON None this = this.
Proof.
  assert (C : Saved.car_fromJSON (Some ∅) this = this).
  { apply map_eq. intros k. rewrite car_fromJSON_lookup.
    now rewrite (proj1 (written_empty k)). }
  assert (E : Saved.enemy_fromJSON (Some ∅) this = this).
  { apply map_eq. intros k. rewrite enemy_fromJSON_lookup.
    now rewrite (proj2 (written_empty k)). }
  repeat split; auto using car_fromJSON_lookup, enemy_fromJSON_lookup.
Qed.

(** A rival's speed saved as a string is stored as it is, and a car's
    position saved as a number wipes the three coordinates: neither
    field has the expected type, and both are overwritten. *)
Lemma fromJSON_overwrites_wrong_types :
  let this : gmap string JS.value := {["speed" := JS.Number 0.3]} in
  let data : gmap string JS.value := {["speed" := JS.Str "fast"]} in
  enemy_expected "speed" (JS.get data "speed") = false /\
  Saved.enemy_fromJSON (Some data) this !! "speed" = Some (JS.Str "fast") /\
  ~ enemy_typed_overwrite data this /\
  Saved.car_fromJSON (Some {["position" := JS.Number 5]})
    (Saved.car_props (Car.create Car.defaults)) !! "mesh.position.x"
  = Some JS.Undefined.
Proof.
  cbv zeta. split; [reflexivity|]. split; [reflexivity|]. split; [|reflexivity].
  intros H. specialize (H "speed"). vm_compute in H. discriminate H.
Qed.

(** *** The typed [fromJSON] is [fromJSON] on well-typed data *)

Lemma insert_lookup_cases (k : string) (v : JS.value) (tl : gmap string JS.value) :
  forall k', (<[k := v]> tl) !! k' = if bool_decide (k' = k) then Some v else tl !! k'.
Proof.
  intros k'. case_bool_decide as E.
  - subst. apply lookup_insert_eq.
  - apply lookup_insert_ne. congruence.
Qed.

(** Reading a car from the object its [toJSON] built, on the property
    maps, is the typed [Car.fromJSON]. *)
Lemma car_fromJSON_typed (d : Car.saved) (c : Car.state) :
  Saved.car_fromJSON (Some (Saved.car_encode d)) (Saved.car_props c)
  = Saved.car_props (Car.fromJSON d c).
Proof.
  apply map_eq. intros k. rewrite car_fromJSON_lookup.
  unfold car_written.
  change (JS.get (Saved.car_encode d) "rotation") with (JS.Number (Car.s_rotation d)).
  change (JS.get (Saved.car_encode d) "speed") with (JS.Number (Car.s_speed d)).
  change (JS.get (Saved.car_encode d) "health") with (JS.Number (Car.s_health d)).
  change (JS.get (Saved.car_encode d) "nitro") with (JS.Number (Car.s_nitro d)).
  change (JS.get (Saved.car_encode d) "progress") with (JS.Number (Car.s_progress d)).
  change (JS.get (Saved.car_encode d) "position")
    with (JS.Arr [JS.Number (vx (Car.s_position d)); JS.Number (vy (Car.s_position d));
                  JS.Number (vz (Car.s_position d))]).
  cbn [JS.is_number JS.typeof JS.truthy JS.index nth].
  unfold Saved.car_props.
  cbn [Car.fromJSON Car.set_position Car.set_rotation Car.set_speed Car.set_health
       Car.set_nitroAmount Car.set_progress Car.speed Car.maxSpeed Car.acceleration
       Car.friction Car.rotation Car.steeringPower Car.driftFactor Car.maxHealth
       Car.health Car.invulnerable Car.nitroAmount Car.nitroCooldown Car.progress
       Car.position Car.meshRotY Car.meshRotZ Car.accSmoothed Car.wheelSpinVel
       Car.cameraShake Car.lastCollisionTime Car.boundingRadius].
  rewrite !insert_lookup_cases.
  repeat (case_bool_decide; [subst; reflexivity|]); reflexivity.
Qed.

(** * Further properties of the code *)

(** ** Further properties of the track queries *)

Section Sampling.

Context (W : World) (p : Vec3).

(** After the samples 0 to [n] the loop holds the first sample of least
    squared distance. *)
Lemma sampling_prefix (n : nat) :
  exists j, (j <= n)%nat /\
    fold_left (Track.sampleStep W p) (seq 0 (S n)) (None, 0)
    = (Some (sampleDist W p j), Track.sampleAt j) /\
    (forall i, (i <= n)%nat -> sampleDist W p j <= sampleDist W p i) /\
    (forall i, (i < j)%nat -> sampleDist W p j < sampleDist W p i).
Proof.
  induction n as [|n (j & Hj & Hf & Hmin & Hfirst)].
  - exists 0%nat. split; [lia|]. split; [reflexivity|]. split.
    + intros i Hi. replace i with 0%nat by lia. apply Qle_refl.
    + intros i Hi. lia.
  - rewrite seq_S, fold_left_app, Hf. cbn [fold_left plus].
    unfold Track.sampleStep. cbv zeta. cbn [fst].
    fold (sampleDist W p (S n)).
    destruct (JS.ltb (sampleDist W p (S n)) (sampleDist W p j)) eqn:E.
    + apply ltb_true in E. exists (S n). split; [lia|]. split; [reflexivity|]. split.
      * intros i Hi. destruct (Nat.eq_dec i (S n)) as [->|]; [apply Qle_refl|].
        specialize (Hmin i ltac:(lia)). lra.
      * intros i Hi. specialize (Hmin i ltac:(lia)). lra.
    + apply ltb_false in E. exists j. split; [lia|]. split; [reflexivity|]. split.
      * intros i Hi. destruct (Nat.eq_dec i (S n)) as [->|]; [exact E|].
        apply Hmin. lia.
      * exact Hfirst.
Qed.

(** [getTrackProgress] returns the parameter of one of its 201 samples,
    one at least squared distance from the position, and among those
    the first: ties go to the lowest parameter. *)
Theorem getTrackProgress_first_minimum :
  exists j, (j <= 200)%nat /\
    Track.getTrackProgress W p = Track.sampleAt j /\
    (forall i, (i <= 200)%nat -> sampleDist W p j <= sampleDist W p i) /\
    (forall i, (i < j)%nat -> sampleDist W p j < sampleDist W p i).
Proof.
  destruct (sampling_prefix 200) as (j & Hj & Hf & Hmin & Hfirst).
  exists j. split; [exact Hj|]. split; [|split; assumption].
  unfold Track.getTrackProgress. change Track.samples with 200%nat. now rewrite Hf.
Qed.

Lemma distanceToSquared_eqv (a b : Vec3) :
  V3.eqv a b -> V3.distanceToSquared a p == V3.distanceToSquared b p.
Proof.
  intros (Hx & Hy & Hz). unfold V3.distanceToSquared, V3.lengthSq, V3.sub.
  cbn [vx vy vz]. rewrite Hx, Hy, Hz. reflexivity.
Qed.

(** On a closed curve, whose parameters 0 and 1 name the same point,
    the progress returned lies in [[0, 1)]: the last sample never wins
    against the first. *)
Theorem getTrackProgress_unit_interval :
  V3.eqv (getPointAt W (Track.sampleAt 200)) (getPointAt W (Track.sampleAt 0)) ->
  0 <= Track.getTrackProgress W p < 1.
Proof.
  intros Hclosed.
  destruct (sampling_prefix 200) as (j & Hj & Hf & Hmin & Hfirst).
  assert (E : Track.getTrackProgress W p = Track.sampleAt j).
  { unfold Track.getTrackProgress. change Track.samples with 200%nat. now rewrite Hf. }
  rewrite E. split; [apply sampleAt_range; exact Hj|].
  apply sampleAt_below_one.
  destruct (Nat.eq_dec j 200%nat) as [->|]; [|lia].
  specialize (Hfirst 0%nat ltac:(lia)).
  pose proof (distanceToSquared_eqv _ _ Hclosed) as D.
  unfold sampleDist in Hfirst. lra.
Qed.

(** With its default of 200 samples, [getClosestPointOnTrack] finds the
    parameter [getTrackProgress] returns, reports the curve point at
    that parameter and its squared distance to the position. *)
Theorem getClosestPointOnTrack_agrees :
  let c := Track.getClosestPointOnTrack W p 200 in
  Track.closest_t c = Track.getTrackProgress W p /\
  Track.point c = getPointAt W (Track.getTrackProgress W p) /\
  Track.distanceSq c
  = Some (V3.distanceToSquared (getPointAt W (Track.getTrackProgress W p)) p).
Proof.
  cbv zeta. unfold Track.getClosestPointOnTrack.
  assert (S : forall l best,
            fold_left (Track.closestStep W p 200) l best
            = fold_left (Track.sampleStep W p) l best).
  { induction l as [|i l IH]; intros best; [reflexivity|].
    cbn [fold_left]. rewrite IH. reflexivity. }
  rewrite S. cbn [Track.point Track.closest_t Track.distanceSq].
  destruct (sampling_prefix 200) as (j & Hj & Hf & _).
  unfold Track.getTrackProgress. change Track.samples with 200%nat.
  rewrite Hf. cbn [fst snd]. repeat split.
Qed.

End Sampling.

Lemma getTrackProgress_unit_interval_witness :
  let W := Reference.world in
  let p := mkVec3 100 0 150 in
  V3.eqv (getPointAt W (Track.sampleAt 200)) (getPointAt W (Track.sampleAt 0)) /\
  0 <= Track.getTrackProgress W p < 1.
Proof.
  intros W p.
  assert (H : V3.eqv (getPointAt W (Track.sampleAt 200)) (getPointAt W (Track.sampleAt 0)))
    by (vm_compute; repeat split; reflexivity).
  split; [exact H|]. exact (getTrackProgress_unit_interval W p H).
Defined.

(** ** Further properties of the rivals *)

Section Rival.

Context (W : World).

(** [advance] as the composition of its stages. *)
Lemma advance_stages (dt : Q) (leader : option Q) (c : EnemyCar.state) (g : Rng) :
  let h := EnemyCar.nitroHeuristic leader (EnemyCar.cooldownTick dt c) g in
  let d := EnemyCar.nitroDrive dt (fst h) (snd h) in
  let l := EnemyCar.laneSwitch dt (EnemyCar.progressStep dt (fst d)) (snd d) in
  EnemyCar.advance W dt leader c g = (EnemyCar.place W (fst l), snd l).
Proof.
  cbv zeta. unfold EnemyCar.advance.
  destruct (EnemyCar.nitroHeuristic leader (EnemyCar.cooldownTick dt c) g) as [c1 g1].
  cbn [fst snd]. destruct (EnemyCar.nitroDrive dt c1 g1) as [c2 g2]. cbn [fst snd].
  destruct (EnemyCar.laneSwitch dt (EnemyCar.progressStep dt c2) g2) as [c3 g3].
  reflexivity.
Qed.

Lemma accepted_number (dt : Q) : 0 < dt -> JS.dt_rejected (JS.DtNumber dt) = false.
Proof.
  intros Hdt. unfold JS.dt_rejected. cbn. apply orb_false_iff. split.
  - apply eqb_false. lra.
  - apply leb_false. exact Hdt.
Qed.

Lemma update_number (dt : Q) (leader : option Q) (c : EnemyCar.state) (g : Rng) :
  0 < dt ->
  EnemyCar.update W (JS.DtNumber dt) leader c g = EnemyCar.advance W dt leader c g.
Proof.
  intros Hdt. unfold EnemyCar.update. now rewrite (accepted_number dt Hdt).
Qed.

(** The heuristic either leaves the rival alone or grants the request;
    it reads at most one draw. *)
Lemma heuristic_cases (leader : option Q) (c : EnemyCar.state) (g : Rng) :
  let h := EnemyCar.nitroHeuristic leader c g in
  (fst h = c \/
   (EnemyCar.isNitroActive c = false /\ EnemyCar.nitroCooldown c <= 0 /\
    fst h = EnemyCar.emit EvNitroStart
              (EnemyCar.set_nitroTimer (EnemyCar.nitroDuration (EnemyCar.config c))
                 (EnemyCar.set_isNitroActive true c)))) /\
  draws (snd h) = draws g /\
  (cursor g <= cursor (snd h) <= cursor g + 1)%nat.
Proof.
  cbv zeta. unfold EnemyCar.nitroHeuristic.
  destruct (EnemyCar.isNitroActive c) eqn:Ha; cbn [negb andb];
    [split; [left; reflexivity | split; [reflexivity | cbn; lia]]|].
  destruct (JS.leb (EnemyCar.nitroCooldown c) 0) eqn:Hc;
    [apply leb_true in Hc | split; [left; reflexivity | split; [reflexivity | cbn; lia]]].
  assert (G : snd (EnemyCar.requestNitro c)
              = EnemyCar.emit EvNitroStart
                  (EnemyCar.set_nitroTimer (EnemyCar.nitroDuration (EnemyCar.config c))
                     (EnemyCar.set_isNitroActive true c)))
    by now rewrite (requestNitro_granted c Ha Hc).
  destruct (EnemyCar.trailing leader c).
  - cbn [fst snd]. split; [right; auto | split; [reflexivity | lia]].
  - unfold random. cbn [fst snd draws cursor].
    destruct (JS.ltb (draws g (cursor g)) 0.002); cbn [fst snd draws cursor].
    + split; [right; auto | split; [reflexivity | lia]].
    + split; [left; reflexivity | split; [reflexivity | lia]].
Qed.

(** The drive stage: speed, timer, activity and cooldown it leaves. *)
Lemma nitroDrive_cases (dt : Q) (c : EnemyCar.state) (g : Rng) :
  let d := EnemyCar.nitroDrive dt c g in
  let cfg := EnemyCar.config c in
  EnemyCar.config (fst d) = cfg /\ EnemyCar.progress (fst d) = EnemyCar.progress c /\
  EnemyCar.laneOffset (fst d) = EnemyCar.laneOffset c /\
  EnemyCar.targetLaneOffset (fst d) = EnemyCar.targetLaneOffset c /\
  EnemyCar.tLane (fst d) = EnemyCar.tLane c /\
  draws (snd d) = draws g /\ (cursor g <= cursor (snd d) <= cursor g + 1)%nat /\
  ((EnemyCar.isNitroActive c = false /\ EnemyCar.isNitroActive (fst d) = false /\
    EnemyCar.speed (fst d) = JS.lerp (EnemyCar.speed c) (EnemyCar.baseSpeed cfg) (dt * 0.5) /\
    EnemyCar.nitroCooldown (fst d) = EnemyCar.nitroCooldown c /\
    EnemyCar.events (fst d) = EnemyCar.events c)
   \/
   (EnemyCar.isNitroActive c = true /\
    EnemyCar.speed (fst d)
    = JS.lerp (EnemyCar.speed c) (EnemyCar.baseSpeed cfg * EnemyCar.nitroMultiplier cfg)
        (Qmin 1 (dt * 6)) /\
    EnemyCar.nitroTimer (fst d) = EnemyCar.nitroTimer c - dt /\
    ((0 < EnemyCar.nitroTimer c - dt /\ EnemyCar.isNitroActive (fst d) = true /\
      EnemyCar.nitroCooldown (fst d) = EnemyCar.nitroCooldown c /\
      EnemyCar.events (fst d) = EnemyCar.events c)
     \/
     (EnemyCar.nitroTimer c - dt <= 0 /\ EnemyCar.isNitroActive (fst d) = false /\
      EnemyCar.nitroCooldown (fst d)
      = EnemyCar.nitroCooldownMin cfg
        + draws g (cursor g) * (EnemyCar.nitroCooldownMax cfg - EnemyCar.nitroCooldownMin cfg) /\
      EnemyCar.events (fst d) = EnemyCar.events c ++ [EvNitroEnd])))).
Proof.
  cbv zeta. unfold EnemyCar.nitroDrive.
  destruct (EnemyCar.isNitroActive c) eqn:Ha.
  - cbn [EnemyCar.nitroTimer EnemyCar.set_nitroTimer EnemyCar.set_speed
         EnemyCar.set_nitroFlareVisible EnemyCar.set_exhaustIntensity
         EnemyCar.set_underglowIntensity].
    destruct (JS.leb (EnemyCar.nitroTimer c - dt) 0) eqn:Ht;
      [apply leb_true in Ht | apply leb_false in Ht]; cbn; rewrite ?Ha;
      repeat split; try lia; right; repeat split; auto.
  - cbn. rewrite ?Ha. repeat split; try lia. left. repeat split.
Qed.

Lemma laneSwitch_cases (dt : Q) (c : EnemyCar.state) (g : Rng) :
  let l := EnemyCar.laneSwitch dt c g in
  let cfg := EnemyCar.config c in
  let rate := Qmin 1 (dt * (if EnemyCar.isNitroActive c then 2.8 else 1.6)) in
  EnemyCar.config (fst l) = cfg /\ EnemyCar.progress (fst l) = EnemyCar.progress c /\
  EnemyCar.speed (fst l) = EnemyCar.speed c /\
  EnemyCar.isNitroActive (fst l) = EnemyCar.isNitroActive c /\
  EnemyCar.nitroTimer (fst l) = EnemyCar.nitroTimer c /\
  EnemyCar.nitroCooldown (fst l) = EnemyCar.nitroCooldown c /\
  EnemyCar.events (fst l) = EnemyCar.events c /\
  draws (snd l) = draws g /\ (cursor g <= cursor (snd l) <= cursor g + 2)%nat /\
  EnemyCar.laneOffset (fst l)
  = JS.lerp (EnemyCar.laneOffset c) (EnemyCar.targetLaneOffset (fst l)) rate /\
  (EnemyCar.targetLaneOffset (fst l) = EnemyCar.targetLaneOffset c \/
   EnemyCar.targetLaneOffset (fst l)
   = (draws g (cursor g) - 0.5) * EnemyCar.laneWidth cfg * 2).
Proof.
  cbv zeta. unfold EnemyCar.laneSwitch. cbv zeta.
  cbn [EnemyCar.tLane EnemyCar.set_tLane].
  destruct (JS.leb (EnemyCar.tLane c - dt) 0); cbn; repeat split; auto; lia.
Qed.

Lemma place_frame (c : EnemyCar.state) :
  EnemyCar.config (EnemyCar.place W c) = EnemyCar.config c /\
  EnemyCar.progress (EnemyCar.place W c) = EnemyCar.progress c /\
  EnemyCar.speed (EnemyCar.place W c) = EnemyCar.speed c /\
  EnemyCar.isNitroActive (EnemyCar.place W c) = EnemyCar.isNitroActive c /\
  EnemyCar.nitroTimer (EnemyCar.place W c) = EnemyCar.nitroTimer c /\
  EnemyCar.nitroCooldown (EnemyCar.place W c) = EnemyCar.nitroCooldown c /\
  EnemyCar.events (EnemyCar.place W c) = EnemyCar.events c /\
  EnemyCar.laneOffset (EnemyCar.place W c) = EnemyCar.laneOffset c /\
  EnemyCar.targetLaneOffset (EnemyCar.place W c) = EnemyCar.targetLaneOffset c.
Proof. repeat split. Qed.

Lemma heuristic_frame (leader : option Q) (c : EnemyCar.state) (g : Rng) :
  let h := EnemyCar.nitroHeuristic leader c g in
  EnemyCar.config (fst h) = EnemyCar.config c /\
  EnemyCar.progress (fst h) = EnemyCar.progress c /\
  EnemyCar.speed (fst h) = EnemyCar.speed c /\
  EnemyCar.nitroCooldown (fst h) = EnemyCar.nitroCooldown c /\
  EnemyCar.laneOffset (fst h) = EnemyCar.laneOffset c /\
  EnemyCar.targetLaneOffset (fst h) = EnemyCar.targetLaneOffset c.
Proof.
  cbv zeta. destruct (heuristic_cases leader c g) as [[E | (_ & _ & E)] _];
    rewrite E; repeat split.
Qed.

Lemma lerp_between (x y t lo hi : Q) :
  0 <= t <= 1 -> lo <= x <= hi -> lo <= y <= hi -> lo <= JS.lerp x y t <= hi.
Proof. unfold JS.lerp. intros Ht Hx Hy. split; nra. Qed.

Lemma min1_unit (x : Q) : 0 <= x -> 0 <= Qmin 1 x <= 1.
Proof.
  intros Hx. split; [apply Q.min_glb; lra | apply Q.le_min_l].
Qed.

(** A rival that moves forward stays on the lap: with a non-negative
    speed and progress before a frame of at most two seconds, it leaves
    [update] with a non-negative speed and a progress in [[0, 1)]. *)
Theorem rival_forward_progress (dt : Q) (leader : option Q) (r : EnemyCar.state) (g : Rng) :
  0 < dt -> dt <= 2 ->
  0 <= EnemyCar.baseSpeed (EnemyCar.config r) ->
  0 <= EnemyCar.nitroMultiplier (EnemyCar.config r) ->
  0 <= EnemyCar.speed r -> 0 <= EnemyCar.progress r ->
  let r' := fst (EnemyCar.update W (JS.DtNumber dt) leader r g) in
  0 <= EnemyCar.speed r' /\ 0 <= EnemyCar.progress r' < 1.
Proof.
  intros Hdt Hdt2 Hb Hm Hs Hp r'. unfold r'.
  rewrite (update_number dt leader r g Hdt), advance_stages. cbn [fst].
  set (c0 := EnemyCar.cooldownTick dt r).
  set (h := EnemyCar.nitroHeuristic leader c0 g).
  set (d := EnemyCar.nitroDrive dt (fst h) (snd h)).
  set (c3 := EnemyCar.progressStep dt (fst d)).
  destruct (heuristic_frame leader c0 g) as (Hcfg1 & Hp1 & Hs1 & _). fold h in Hcfg1, Hp1, Hs1.
  destruct (nitroDrive_cases dt (fst h) (snd h)) as (Hcfg2 & Hp2 & _ & _ & _ & _ & _ & Hd).
  fold d in Hcfg2, Hp2, Hd. rewrite Hcfg1, Hs1 in Hd.
  change (EnemyCar.config c0) with (EnemyCar.config r) in Hd.
  change (EnemyCar.speed c0) with (EnemyCar.speed r) in Hd.
  assert (Hs2 : 0 <= EnemyCar.speed (fst d)).
  { destruct Hd as [(_ & _ & -> & _) | (_ & -> & _)].
    - apply (lerp_between _ _ _ 0 (EnemyCar.speed r + EnemyCar.baseSpeed (EnemyCar.config r)));
        lra.
    - pose proof (min1_unit (dt * 6) ltac:(lra)) as Hf.
      apply (lerp_between _ _ _ 0
               (EnemyCar.speed r + EnemyCar.baseSpeed (EnemyCar.config r)
                                   * EnemyCar.nitroMultiplier (EnemyCar.config r)));
        [exact Hf | nra | nra]. }
  destruct (laneSwitch_cases dt c3 (snd d)) as (_ & Hp4 & Hs4 & _).
  destruct (place_frame (fst (EnemyCar.laneSwitch dt c3 (snd d)))) as (_ & Hp5 & Hs5 & _).
  rewrite Hp5, Hs5, Hp4, Hs4.
  split; [exact Hs2|].
  apply (proj1 (progressStep_range dt (fst d))).
  rewrite Hp2, Hp1. change (EnemyCar.progress c0) with (EnemyCar.progress r). nra.
Qed.

(** The rival keeps to its lanes: when the draws lie in [[0, 1]], a
    lateral offset and a target within the lane width on both sides stay
    within it through [update]. *)
Theorem rival_stays_in_lanes (dt : Q) (leader : option Q) (r : EnemyCar.state) (g : Rng) :
  0 < dt ->
  (forall n, 0 <= draws g n <= 1) ->
  let w := EnemyCar.laneWidth (EnemyCar.config r) in
  - w <= EnemyCar.laneOffset r <= w ->
  - w <= EnemyCar.targetLaneOffset r <= w ->
  let r' := fst (EnemyCar.update W (JS.DtNumber dt) leader r g) in
  (- w <= EnemyCar.laneOffset r' <= w) /\ (- w <= EnemyCar.targetLaneOffset r' <= w).
Proof.
  intros Hdt Hdraws w Ho Ht r'. unfold r'.
  rewrite (update_number dt leader r g Hdt), advance_stages. cbn [fst].
  set (c0 := EnemyCar.cooldownTick dt r).
  set (h := EnemyCar.nitroHeuristic leader c0 g).
  set (d := EnemyCar.nitroDrive dt (fst h) (snd h)).
  set (c3 := EnemyCar.progressStep dt (fst d)).
  destruct (heuristic_frame leader c0 g) as (Hcfg1 & _ & _ & _ & Ho1 & Ht1).
  fold h in Hcfg1, Ho1, Ht1.
  destruct (heuristic_cases leader c0 g) as (_ & Hdr1 & _). fold h in Hdr1.
  destruct (nitroDrive_cases dt (fst h) (snd h)) as (Hcfg2 & _ & Ho2 & Ht2 & _ & Hdr2 & _).
  fold d in Hcfg2, Ho2, Ht2, Hdr2.
  destruct (laneSwitch_cases dt c3 (snd d)) as (_ & _ & _ & _ & _ & _ & _ & _ & _ & Hl & Htl).
  destruct (place_frame (fst (EnemyCar.laneSwitch dt c3 (snd d))))
    as (_ & _ & _ & _ & _ & _ & _ & Ho5 & Ht5).
  rewrite Ho5, Ht5.
  change (EnemyCar.config c3) with (EnemyCar.config (fst d)) in Htl.
  change (EnemyCar.targetLaneOffset c3) with (EnemyCar.targetLaneOffset (fst d)) in Htl.
  change (EnemyCar.laneOffset c3) with (EnemyCar.laneOffset (fst d)) in Hl.
  rewrite Hcfg2, Hcfg1 in Htl. change (EnemyCar.config c0) with (EnemyCar.config r) in Htl.
  fold w in Htl. rewrite Ht2, Ht1 in Htl. rewrite Ho2, Ho1 in Hl.
  change (EnemyCar.targetLaneOffset c0) with (EnemyCar.targetLaneOffset r) in Htl.
  change (EnemyCar.laneOffset c0) with (EnemyCar.laneOffset r) in Hl.
  assert (Hw : 0 <= w) by lra.
  assert (Htarget : - w <= EnemyCar.targetLaneOffset (fst (EnemyCar.laneSwitch dt c3 (snd d)))
                    <= w).
  { destruct Htl as [-> | ->]; [exact Ht|].
    rewrite Hdr2, Hdr1. specialize (Hdraws (cursor (snd d))). split; nra. }
  split; [|exact Htarget]. rewrite Hl.
  apply lerp_between; [|exact Ho|exact Htarget].
  apply min1_unit. destruct (EnemyCar.isNitroActive c3); lra.
Qed.

(** The nitro state a rival leaves [update] with: the cooldown is never
    negative; a rival still boosting has time left on its timer; and a
    rival whose boost ended in this frame starts a cooldown drawn from
    the configured range. *)
Theorem rival_nitro_after_update (dt : Q) (leader : option Q) (r : EnemyCar.state)
    (g : Rng) :
  0 < dt ->
  (forall n, 0 <= draws g n <= 1) ->
  let cfg := EnemyCar.config r in
  0 <= EnemyCar.nitroCooldownMin cfg <= EnemyCar.nitroCooldownMax cfg ->
  let r' := fst (EnemyCar.update W (JS.DtNumber dt) leader r g) in
  0 <= EnemyCar.nitroCooldown r' /\
  (EnemyCar.isNitroActive r' = true -> 0 < EnemyCar.nitroTimer r') /\
  (EnemyCar.isNitroActive r = true -> EnemyCar.isNitroActive r' = false ->
   EnemyCar.nitroCooldownMin cfg <= EnemyCar.nitroCooldown r'
   <= EnemyCar.nitroCooldownMax cfg).
Proof.
  intros Hdt Hdraws cfg Hrange r'. unfold r'.
  rewrite (update_number dt leader r g Hdt), advance_stages. cbn [fst].
  set (c0 := EnemyCar.cooldownTick dt r).
  set (h := EnemyCar.nitroHeuristic leader c0 g).
  set (d := EnemyCar.nitroDrive dt (fst h) (snd h)).
  set (c3 := EnemyCar.progressStep dt (fst d)).
  assert (Hc0 : 0 <= EnemyCar.nitroCooldown c0) by (cbn; apply Q.le_max_l).
  destruct (heuristic_frame leader c0 g) as (Hcfg1 & _ & _ & Hcd1 & _).
  fold h in Hcfg1, Hcd1.
  destruct (heuristic_cases leader c0 g) as (Hh & Hdr1 & _). fold h in Hh, Hdr1.
  destruct (nitroDrive_cases dt (fst h) (snd h)) as (_ & _ & _ & _ & _ & _ & _ & Hd).
  fold d in Hd. rewrite Hcfg1, Hcd1 in Hd.
  change (EnemyCar.config c0) with cfg in Hd.
  destruct (laneSwitch_cases dt c3 (snd d)) as (_ & _ & _ & Ha4 & Ht4 & Hc4 & _).
  destruct (place_frame (fst (EnemyCar.laneSwitch dt c3 (snd d))))
    as (_ & _ & _ & Ha5 & Ht5 & Hc5 & _).
  rewrite Ha5, Ht5, Hc5, Ha4, Ht4, Hc4.
  change (EnemyCar.isNitroActive c3) with (EnemyCar.isNitroActive (fst d)).
  change (EnemyCar.nitroTimer c3) with (EnemyCar.nitroTimer (fst d)).
  change (EnemyCar.nitroCooldown c3) with (EnemyCar.nitroCooldown (fst d)).
  assert (Hdrawn : EnemyCar.nitroCooldownMin cfg
                   <= EnemyCar.nitroCooldownMin cfg
                      + draws (snd h) (cursor (snd h))
                        * (EnemyCar.nitroCooldownMax cfg - EnemyCar.nitroCooldownMin cfg)
                   <= EnemyCar.nitroCooldownMax cfg).
  { rewrite Hdr1. specialize (Hdraws (cursor (snd h))). split; nra. }
  destruct Hd as [(Ha & Ha' & _ & Hcd & _) | (Ha & _ & Ht & [(Hpos & Ha' & Hcd & _) | (Hneg & Ha' & Hcd & _)])];
    rewrite Ha', Hcd.
  - split; [exact Hc0|]. split; [discriminate|]. intros Hr.
    destruct Hh as [E | (Hn & _)].
    + rewrite E in Ha. change (EnemyCar.isNitroActive c0) with (EnemyCar.isNitroActive r) in Ha.
      congruence.
    + change (EnemyCar.isNitroActive c0) with (EnemyCar.isNitroActive r) in Hn. congruence.
  - split; [exact Hc0|]. split; [intros _; rewrite Ht; exact Hpos | discriminate].
  - split; [lra|]. split; [discriminate|]. intros _ _. exact Hdrawn.
Qed.

(** A request for nitro is granted exactly when the rival is neither
    boosting nor cooling down.  A refused request changes nothing and
    emits nothing; a granted one starts the timer at the configured
    duration and emits one [nitroStart], and a second request right
    after it is refused. *)
Theorem requestNitro_once (c : EnemyCar.state) :
  let ok := fst (EnemyCar.requestNitro c) in
  let c' := snd (EnemyCar.requestNitro c) in
  ok = negb (EnemyCar.isNitroActive c || JS.ltb 0 (EnemyCar.nitroCooldown c)) /\
  (ok = false -> c' = c) /\
  (ok = true ->
   EnemyCar.isNitroActive c' = true /\
   EnemyCar.nitroTimer c' = EnemyCar.nitroDuration (EnemyCar.config c) /\
   EnemyCar.events c' = EnemyCar.events c ++ [EvNitroStart] /\
   EnemyCar.requestNitro c' = (false, c')).
Proof.
  cbv zeta.
  destruct (EnemyCar.isNitroActive c || JS.ltb 0 (EnemyCar.nitroCooldown c)) eqn:E.
  - unfold EnemyCar.requestNitro. rewrite E. cbn [fst snd negb].
    split; [reflexivity|]. split; [reflexivity | discriminate].
  - apply orb_false_iff in E as [Ha Hc]. apply ltb_false in Hc.
    rewrite (requestNitro_granted c Ha Hc). cbn [fst snd negb].
    split; [reflexivity|]. split; [discriminate|]. intros _.
    split; [reflexivity|]. split; [reflexivity|]. split; [reflexivity|].
    unfold EnemyCar.requestNitro. cbn. reflexivity.
Qed.

End Rival.



Lemma rival_forward_witness :
  let r := Examples.rivalAtStart in
  let r' := fst (EnemyCar.update Reference.world (JS.DtNumber 0.05) None r Examples.halves) in
  0 < 0.05 /\ 0.05 <= 2 /\ 0 <= EnemyCar.baseSpeed (EnemyCar.config r) /\
  0 <= EnemyCar.nitroMultiplier (EnemyCar.config r) /\
  0 <= EnemyCar.speed r /\ 0 <= EnemyCar.progress r /\
  0 <= EnemyCar.speed r' /\ 0 <= EnemyCar.progress r' < 1.
Proof.
  intros r r'.
  assert (H1 : 0 < 0.05) by reflexivity.
  assert (H2 : 0.05 <= 2) by (intros E; discriminate E).
  assert (H3 : 0 <= EnemyCar.baseSpeed (EnemyCar.config r)) by (cbn; lra).
  assert (H4 : 0 <= EnemyCar.nitroMultiplier (EnemyCar.config r)) by (cbn; lra).
  assert (H5 : 0 <= EnemyCar.speed r) by (cbn; lra).
  assert (H6 : 0 <= EnemyCar.progress r) by (cbn; lra).
  split; [exact H1|]. split; [exact H2|]. split; [exact H3|]. split; [exact H4|].
  split; [exact H5|]. split; [exact H6|].
  exact (rival_forward_progress Reference.world 0.05 None r Examples.halves
           H1 H2 H3 H4 H5 H6).
Defined.

Lemma rival_lanes_witness :
  let r := Examples.rivalAtStart in
  let g := Examples.halves in
  let w := EnemyCar.laneWidth (EnemyCar.config r) in
  let r' := fst (EnemyCar.update Reference.world (JS.DtNumber 3.5) None r g) in
  0 < 3.5 /\ (forall n, 0 <= draws g n <= 1) /\
  (- w <= EnemyCar.laneOffset r <= w) /\ (- w <= EnemyCar.targetLaneOffset r <= w) /\
  (- w <= EnemyCar.laneOffset r' <= w) /\ (- w <= EnemyCar.targetLaneOffset r' <= w).
Proof.
  intros r g w r'.
  assert (H1 : 0 < 3.5) by reflexivity.
  assert (H2 : forall n, 0 <= draws g n <= 1) by (intros n; cbn; lra).
  assert (H3 : - w <= EnemyCar.laneOffset r <= w) by (cbn; lra).
  assert (H4 : - w <= EnemyCar.targetLaneOffset r <= w) by (cbn; lra).
  split; [exact H1|]. split; [exact H2|]. split; [exact H3|]. split; [exact H4|].
  exact (rival_stays_in_lanes Reference.world 3.5 None r g H1 H2 H3 H4).
Defined.

Lemma rival_nitro_witness :
  let r := EnemyCar.set_nitroTimer 0.01 (EnemyCar.set_isNitroActive true
             (EnemyCar.set_nitroCooldown 0 Examples.rivalAtStart)) in
  let g := Examples.halves in
  let cfg := EnemyCar.config r in
  let r' := fst (EnemyCar.update Reference.world (JS.DtNumber 0.05) None r g) in
  0 < 0.05 /\ (forall n, 0 <= draws g n <= 1) /\
  0 <= EnemyCar.nitroCooldownMin cfg <= EnemyCar.nitroCooldownMax cfg /\
  EnemyCar.isNitroActive r = true /\ EnemyCar.isNitroActive r' = false /\
  EnemyCar.nitroCooldownMin cfg <= EnemyCar.nitroCooldown r' <= EnemyCar.nitroCooldownMax cfg.
Proof.
  intros r g cfg r'.
  assert (H1 : 0 < 0.05) by reflexivity.
  assert (H2 : forall n, 0 <= draws g n <= 1) by (intros n; cbn; lra).
  assert (H3 : 0 <= EnemyCar.nitroCooldownMin cfg <= EnemyCar.nitroCooldownMax cfg)
    by (cbn; lra).
  assert (H4 : EnemyCar.isNitroActive r = true) by reflexivity.
  assert (H5 : EnemyCar.isNitroActive r' = false) by (vm_compute; reflexivity).
  split; [exact H1|]. split; [exact H2|]. split; [exact H3|]. split; [exact H4|].
  split; [exact H5|].
  exact (proj2 (proj2 (rival_nitro_after_update Reference.world 0.05 None r g H1 H2 H3))
           H4 H5).
Defined.

(** ** Further properties of the player's car *)

Section PlayerCar.

Context (W : World).

Ltac split_ifs :=
  repeat match goal with
  | |- context [if ?b then _ else _] => destruct b
  end.

Lemma accelerate_static keys dt c : static (Car.accelerate keys dt c) = static c.
Proof. unfold Car.accelerate. split_ifs; reflexivity. Qed.

Lemma nitro_static keys dt c : static (Car.nitro keys dt c) = static c.
Proof. unfold Car.nitro, Car.useNitro, Car.regenNitro. split_ifs; reflexivity. Qed.

Lemma limitSpeed_static c : static (Car.limitSpeed c) = static c.
Proof. unfold Car.limitSpeed. split_ifs; reflexivity. Qed.

Lemma steer_static keys dt c : static (Car.steer keys dt c) = static c.
Proof. unfold Car.steer. split_ifs; reflexivity. Qed.

Lemma driftEvent_static c : static (Car.driftEvent c) = static c.
Proof. unfold Car.driftEvent. split_ifs; reflexivity. Qed.

Lemma move_static c : static (Car.move W c) = static c.
Proof. reflexivity. Qed.

Lemma pose_static dt c : static (Car.pose dt c) = static c.
Proof. reflexivity. Qed.

Lemma applyFriction_static dt c : static (Car.applyFriction W dt c) = static c.
Proof. reflexivity. Qed.

Lemma advance_static keys dt c : static (Car.advance W keys dt c) = static c.
Proof.
  unfold Car.advance, Car.throughLimiter.
  now rewrite driftEvent_static, move_static, pose_static, steer_static,
    applyFriction_static, limitSpeed_static, nitro_static, accelerate_static.
Qed.

Lemma update_static input d c : static (Car.update W input d c) = static c.
Proof.
  unfold Car.update. destruct (JS.dt_rejected d); [reflexivity|].
  destruct (JS.dt_toNumber d); [apply advance_static | reflexivity].
Qed.

Lemma static_health c c' :
  static c' = static c ->
  Car.health c' = Car.health c /\ Car.maxHealth c' = Car.maxHealth c /\
  Car.invulnerable c' = Car.invulnerable c.
Proof.
  intros E.
  pose proof (f_equal (fun '(_, _, _, _, _, mh, h, i, _, _, _, _) => (h, mh, i)) E) as E'.
  cbn in E'. injection E' as E1 E2 E3. auto.
Qed.

Lemma applyDamage_health (amount : Q) (c : Car.state) :
  0 <= amount -> 0 <= Car.health c <= Car.maxHealth c ->
  0 <= Car.health (Car.applyDamage amount c) <= Car.maxHealth c /\
  Car.maxHealth (Car.applyDamage amount c) = Car.maxHealth c.
Proof.
  intros Ha Hh. unfold Car.applyDamage.
  destruct (Car.invulnerable c); [auto|].
  cbn [Car.health Car.set_health Car.emit Car.set_events].
  destruct (JS.leb (Car.health c - amount) 0) eqn:E;
    [apply leb_true in E | apply leb_false in E]; cbn; split; auto; lra.
Qed.

Lemma apply_health (o : Car.op) (c : Car.state) :
  op_nonneg o -> 0 <= Car.health c <= Car.maxHealth c ->
  0 <= Car.health (Car.apply W o c) <= Car.maxHealth c /\
  Car.maxHealth (Car.apply W o c) = Car.maxHealth c.
Proof.
  intros Ho Hh. destruct o as [input d|amount|amount|now normal severity|p|];
    cbn [Car.apply op_nonneg] in *.
  - destruct (static_health _ _ (update_static input d c)) as (-> & -> & _). auto.
  - now apply applyDamage_health.
  - unfold Car.repair. cbn. split; [|reflexivity]. split.
    + apply Q.min_glb; lra.
    + apply Q.le_min_l.
  - unfold Car.handleCollisionWithObject.
    destruct (JS.ltb (now - Car.lastCollisionTime c) 100); [auto|].
    cbn [Car.health Car.maxHealth Car.emit Car.set_events Car.set_cameraShake
         Car.set_speed Car.set_position].
    apply (applyDamage_health _ (Car.set_lastCollisionTime now c)); [|exact Hh].
    cbn [Car.speed Car.set_lastCollisionTime]. pose proof (Qabs_nonneg (Car.speed c)). nra.
  - cbn. split; [lra | reflexivity].
  - cbn. auto.
Qed.

(** Health stays in [[0, maxHealth]] under any sequence of updates,
    damage, repairs, collisions and resets whose amounts and severities
    are not negative. *)
Theorem health_stays_in_range (os : list Car.op) (c : Car.state) :
  Forall op_nonneg os ->
  0 <= Car.health c <= Car.maxHealth c ->
  0 <= Car.health (Run.ops W os c) <= Car.maxHealth c.
Proof.
  revert c. induction os as [|o os IH]; intros c Hos Hh; [exact Hh|].
  inversion Hos as [|? ? Ho Hos']; subst.
  cbn [Run.ops fold_left]. fold (Run.ops W os (Car.apply W o c)).
  destruct (apply_health o c Ho Hh) as [Hh' Hm].
  rewrite <- Hm. apply IH; [exact Hos'|]. now rewrite Hm.
Qed.

(** A collision within 100 ms of a resolved one is ignored: of two
    calls that close together only the first has an effect. *)
Theorem second_collision_debounced (now1 now2 : Q) (n1 n2 : Vec3) (s1 s2 : Q)
    (c : Car.state) :
  100 <= now1 - Car.lastCollisionTime c ->
  now2 - now1 < 100 ->
  Car.handleCollisionWithObject now2 n2 s2 (Car.handleCollisionWithObject now1 n1 s1 c)
  = Car.handleCollisionWithObject now1 n1 s1 c.
Proof.
  intros H1 H2. destruct (player_resolved now1 n1 s1 c H1) as (_ & Ht & _).
  apply player_debounced. rewrite Ht. exact H2.
Qed.



Lemma nitro_view_parts (c c' : Car.state) :
  nitro_view c' = nitro_view c ->
  Car.config c' = Car.config c /\ Car.nitroAmount c' = Car.nitroAmount c /\
  Car.nitroCooldown c' = Car.nitroCooldown c.
Proof.
  intros E.
  pose proof (f_equal (fun v => fst (fst v)) E).
  pose proof (f_equal (fun v => snd (fst v)) E).
  pose proof (f_equal snd E). auto.
Qed.

Lemma advance_nitro_view (keys : Car.Keys) (dt : Q) (c : Car.state) :
  nitro_view (Car.advance W keys dt c)
  = nitro_view (Car.nitro keys dt (Car.accelerate keys dt c)).
Proof.
  unfold Car.advance, Car.throughLimiter.
  now rewrite driftEvent_nitro, move_nitro, pose_nitro, steer_nitro,
    applyFriction_nitro, limitSpeed_nitro.
Qed.

(** The nitro stage on its own, by cases. *)
Lemma nitro_stage_table (keys : Car.Keys) (dt : Q) (c : Car.state) :
  let c' := Car.nitro keys dt c in
  let cfg := Car.config c in
  (0 < Car.nitroCooldown c ->
   Car.nitroAmount c' = Car.nitroAmount c /\
   Car.nitroCooldown c' = Qmax 0 (Car.nitroCooldown c - dt)) /\
  (Car.nitroCooldown c <= 0 -> Car.key_shift keys = false \/ Car.nitroAmount c <= 0 ->
   Car.nitroAmount c'
   = Qmin (Car.nitroCapacity cfg) (Car.nitroAmount c + Car.nitroRegenRate cfg * dt) /\
   Car.nitroCooldown c' = Car.nitroCooldown c) /\
  (Car.nitroCooldown c <= 0 -> Car.key_shift keys = true -> 0 < Car.nitroAmount c ->
   Car.nitroAmount c' = Qmax 0 (Car.nitroAmount c - Car.nitroDrainRate cfg * dt) /\
   Car.nitroCooldown c'
   = if Qeq_bool (Qmax 0 (Car.nitroAmount c - Car.nitroDrainRate cfg * dt)) 0
     then Car.nitroCooldownSec cfg else Car.nitroCooldown c).
Proof.
  cbv zeta. unfold Car.nitro, Car.isUsingNitro. split; [|split].
  - intros Hcd. assert (F : JS.leb (Car.nitroCooldown c) 0 = false) by now apply leb_false.
    rewrite F, andb_false_r. unfold Car.regenNitro.
    apply ltb_true in Hcd. rewrite Hcd. split; reflexivity.
  - intros Hcd Hidle.
    assert (F : Car.key_shift keys && JS.ltb 0 (Car.nitroAmount c) = false).
    { destruct Hidle as [-> | Ha]; [reflexivity|].
      apply ltb_false in Ha. rewrite Ha. apply andb_false_r. }
    rewrite F. cbn [andb]. unfold Car.regenNitro.
    apply ltb_false in Hcd. rewrite Hcd. split; reflexivity.
  - intros Hcd Hk Ha.
    pose proof (proj2 (leb_true _ _) Hcd) as F1.
    pose proof (proj2 (ltb_true _ _) Ha) as F2.
    rewrite Hk, F1, F2. cbn [andb]. unfold Car.useNitro.
    apply ltb_false in Hcd. rewrite Hcd.
    assert (F3 : JS.leb (Car.nitroAmount c) 0 = false) by now apply leb_false.
    rewrite F3. cbn [Car.nitroAmount Car.set_nitroAmount Car.config].
    destruct (Qeq_bool _ 0); cbn; split; reflexivity.
Qed.

(** The nitro state machine as [update] runs it.  While the cooldown
    runs the tank is frozen and the cooldown counts down, whatever the
    keys.  Otherwise, without the nitro key or with an empty tank, the
    tank refills toward its capacity (an empty tank starts no
    cooldown); with the key and fuel it drains, and the cooldown starts
    in the frame the tank reaches zero. *)
Theorem nitro_transitions (keys : Car.Keys) (dt : Q) (c : Car.state) :
  0 < dt ->
  let c' := Car.update W (Some keys) (JS.DtNumber dt) c in
  let cfg := Car.config c in
  (0 < Car.nitroCooldown c ->
   Car.nitroAmount c' = Car.nitroAmount c /\
   Car.nitroCooldown c' = Qmax 0 (Car.nitroCooldown c - dt)) /\
  (Car.nitroCooldown c <= 0 -> Car.key_shift keys = false \/ Car.nitroAmount c <= 0 ->
   Car.nitroAmount c'
   = Qmin (Car.nitroCapacity cfg) (Car.nitroAmount c + Car.nitroRegenRate cfg * dt) /\
   Car.nitroCooldown c' = Car.nitroCooldown c) /\
  (Car.nitroCooldown c <= 0 -> Car.key_shift keys = true -> 0 < Car.nitroAmount c ->
   Car.nitroAmount c' = Qmax 0 (Car.nitroAmount c - Car.nitroDrainRate cfg * dt) /\
   Car.nitroCooldown c'
   = if Qeq_bool (Qmax 0 (Car.nitroAmount c - Car.nitroDrainRate cfg * dt)) 0
     then Car.nitroCooldownSec cfg else Car.nitroCooldown c).
Proof.
  intros Hdt. cbv zeta. unfold Car.update. rewrite (accepted_number dt Hdt).
  cbn [JS.dt_toNumber].
  destruct (nitro_view_parts _ _ (advance_nitro_view keys dt c)) as (_ & -> & ->).
  destruct (nitro_view_parts _ _ (accelerate_nitro keys dt c)) as (Ecfg & Ea & Ec).
  pose proof (nitro_stage_table keys dt (Car.accelerate keys dt c)) as T.
  cbv zeta in T. rewrite Ecfg, Ea, Ec in T. exact T.
Qed.

Lemma driftEvent_acc c : Car.accSmoothed (Car.driftEvent c) = Car.accSmoothed c.
Proof. unfold Car.driftEvent. split_ifs; reflexivity. Qed.

Lemma steer_acc keys dt c : Car.accSmoothed (Car.steer keys dt c) = Car.accSmoothed c.
Proof. unfold Car.steer. split_ifs; reflexivity. Qed.

Lemma limitSpeed_acc c : Car.accSmoothed (Car.limitSpeed c) = Car.accSmoothed c.
Proof. unfold Car.limitSpeed. split_ifs; reflexivity. Qed.

Lemma nitro_acc keys dt c : Car.accSmoothed (Car.nitro keys dt c) = Car.accSmoothed c.
Proof. unfold Car.nitro, Car.useNitro, Car.regenNitro. split_ifs; reflexivity. Qed.

(** The smoothed acceleration of a car, from its construction on and
    through any sequence of updates, is an intent in [[-1, 1]]. *)
Theorem smoothed_acceleration_is_an_intent (cfg : Car.Config)
    (inputs : list (option Car.Keys * JS.dt_value)) :
  intent_in_range (Car.accSmoothed (Run.car W inputs (Car.create cfg))).
Proof.
  assert (Step : forall input d c, intent_in_range (Car.accSmoothed c) ->
                   intent_in_range (Car.accSmoothed (Car.update W input d c))).
  { intros input d c Hc. unfold Car.update.
    destruct (JS.dt_rejected d) eqn:Hr; [exact Hc|].
    destruct (dt_accepted d Hr) as (q & -> & Hq).
    set (keys := match input with Some k => k | None => Car.no_keys end).
    assert (E : Car.accSmoothed (Car.advance W keys q c)
                = Car.accSmoothed (Car.accelerate keys q c)).
    { unfold Car.advance, Car.throughLimiter.
      rewrite driftEvent_acc. cbn [Car.move Car.pose Car.accSmoothed Car.set_position
        Car.set_wheelSpinVel Car.set_meshRotZ Car.set_meshRotY].
      rewrite steer_acc. cbn [Car.applyFriction Car.accSmoothed Car.set_speed].
      now rewrite limitSpeed_acc, nitro_acc. }
    rewrite E. unfold Car.accelerate. cbv zeta.
    assert (A : intent_in_range
                  (Some (JS.lerp (match Car.accSmoothed c with Some a => a | None => 0 end)
                           ((if Car.key_w keys then 1 else 0)
                            - (if Car.key_s keys then 1 else 0))
                           (Qmin 1 (q * 8))))).
    { cbn [intent_in_range]. apply lerp_between.
      - apply min1_unit. lra.
      - destruct (Car.accSmoothed c); cbn in Hc; lra.
      - destruct (Car.key_w keys), (Car.key_s keys); lra. }
    split_ifs; exact A. }
  generalize (Car.create cfg) (I : intent_in_range (Car.accSmoothed (Car.create cfg))).
  induction inputs as [|i inputs IH]; intros c Hc; [exact Hc|].
  cbn [Run.car fold_left]. apply IH. now apply Step.
Qed.

Lemma static_friction c c' : static c' = static c -> Car.friction c' = Car.friction c.
Proof.
  intros E.
  exact (f_equal (fun '(_, _, _, f, _, _, _, _, _, _, _, _) => f) E).
Qed.

Lemma kinematics_view_frame (keys : Car.Keys) (dt : Q) (c : Car.state) :
  Car.maxSpeed (Car.accelerate keys dt c) = Car.maxSpeed c /\
  Car.driftFactor (Car.accelerate keys dt c) = Car.driftFactor c /\
  Car.maxSpeed (Car.nitro keys dt c) = Car.maxSpeed c /\
  Car.driftFactor (Car.nitro keys dt c) = Car.driftFactor c /\
  Car.driftFactor (Car.limitSpeed c) = Car.driftFactor c /\
  Car.speed (Car.steer keys dt c) = Car.speed c /\
  Car.speed (Car.driftEvent c) = Car.speed c /\
  Car.driftFactor (Car.driftEvent c) = Car.driftFactor c.
Proof.
  unfold Car.accelerate, Car.nitro, Car.useNitro, Car.regenNitro, Car.limitSpeed,
    Car.steer, Car.driftEvent.
  repeat split; split_ifs; reflexivity.
Qed.

Lemma steer_drift_bounded (keys : Car.Keys) (dt : Q) (c : Car.state) :
  0 < dt -> 0 < Car.maxSpeed c ->
  - Car.maxSpeed c <= Car.speed c <= Car.maxSpeed c ->
  -0.25 <= Car.driftFactor c <= 0.25 ->
  -0.25 <= Car.driftFactor (Car.steer keys dt c) <= 0.25.
Proof.
  intros Hdt Hm Hs Hd.
  assert (Hscale : 0 <= Qabs (Car.speed c) / Car.maxSpeed c <= 1).
  { split.
    - apply Qle_shift_div_l; [exact Hm|]. pose proof (Qabs_nonneg (Car.speed c)). lra.
    - apply Qle_shift_div_r; [exact Hm|]. apply Qabs_Qle_condition. lra. }
  pose proof (min1_unit (dt * 6) ltac:(lra)) as H6.
  pose proof (min1_unit (dt * 8) ltac:(lra)) as H8.
  unfold Car.steer. cbv zeta.
  destruct (JS.ltb 0.03 (Qabs (Car.speed c))).
  - destruct (Car.key_a keys); [|destruct (Car.key_d keys)];
      cbn [Car.driftFactor Car.set_driftFactor Car.set_rotation];
      apply lerp_between; try assumption; set (k := Qabs _ / _) in *; lra.
  - cbn [Car.driftFactor Car.set_driftFactor]. apply lerp_between; try assumption; lra.
Qed.

(** Where [Math.pow] gives a friction factor in [[0, 1]], the car
    leaves [update] with a speed in [[-maxSpeed/2, maxSpeed]], nitro or
    not, and a drift factor that was within a quarter on either side
    stays within it. *)
Theorem speed_and_drift_bounded (keys : Car.Keys) (dt : Q) (c : Car.state) :
  0 < dt -> 0 < Car.maxSpeed c ->
  0 <= Math_pow W (Car.friction c) (dt * 60 * 0.016) <= 1 ->
  -0.25 <= Car.driftFactor c <= 0.25 ->
  let c' := Car.update W (Some keys) (JS.DtNumber dt) c in
  (- Car.maxSpeed c / 2 <= Car.speed c' <= Car.maxSpeed c) /\
  (-0.25 <= Car.driftFactor c' <= 0.25).
Proof.
  intros Hdt Hm Hf Hd. cbv zeta. unfold Car.update. rewrite (accepted_number dt Hdt).
  cbn [JS.dt_toNumber]. unfold Car.advance, Car.throughLimiter.
  set (c1 := Car.accelerate keys dt c).
  set (c2 := Car.nitro keys dt c1).
  set (c3 := Car.limitSpeed c2).
  set (c4 := Car.applyFriction W dt c3).
  set (c5 := Car.steer keys dt c4).
  destruct (kinematics_view_frame keys dt c) as (M1 & D1 & _). fold c1 in M1, D1.
  destruct (kinematics_view_frame keys dt c1) as (_ & _ & M2 & D2 & _). fold c2 in M2, D2.
  destruct (kinematics_view_frame keys dt c2) as (_ & _ & _ & _ & D3 & _). fold c3 in D3.
  assert (M3 : Car.maxSpeed c3 = Car.maxSpeed c).
  { unfold c3. rewrite limitSpeed_maxSpeed. congruence. }
  assert (F3 : Car.friction c3 = Car.friction c).
  { unfold c3, c2, c1.
    rewrite (static_friction _ _ (limitSpeed_static _)),
      (static_friction _ _ (nitro_static keys dt _)).
    apply (static_friction _ _ (accelerate_static keys dt c)). }
  assert (S3 : - Car.maxSpeed c / 2 <= Car.speed c3 <= Car.maxSpeed c).
  { pose proof (limitSpeed_range c2) as R. fold c3 in R. rewrite M2, M1 in R.
    apply R. lra. }
  assert (S4 : - Car.maxSpeed c / 2 <= Car.speed c4 <= Car.maxSpeed c).
  { unfold c4, Car.applyFriction. cbn [Car.speed Car.set_speed]. rewrite F3.
    set (f := Math_pow W _ _) in *. revert S3. generalize (Car.speed c3). intros s S3.
    assert (Hh : - Car.maxSpeed c / 2 == - (Car.maxSpeed c * (1 # 2))) by (field).
    rewrite Hh in *. split; nra. }
  assert (M4 : Car.maxSpeed c4 = Car.maxSpeed c) by exact M3.
  assert (D4 : Car.driftFactor c4 = Car.driftFactor c).
  { unfold c4. cbn [Car.applyFriction Car.driftFactor Car.set_speed]. congruence. }
  destruct (kinematics_view_frame keys dt c4) as (_ & _ & _ & _ & _ & S5 & _). fold c5 in S5.
  assert (D5 : -0.25 <= Car.driftFactor c5 <= 0.25).
  { apply steer_drift_bounded; [exact Hdt | now rewrite M4 | | now rewrite D4].
    rewrite M4. assert (Hh : - Car.maxSpeed c / 2 == - (Car.maxSpeed c * (1 # 2))) by field.
    rewrite Hh in S4. lra. }
  destruct (kinematics_view_frame keys dt (Car.move W (Car.pose dt c5)))
    as (_ & _ & _ & _ & _ & _ & S7 & D7).
  rewrite S7, D7.
  cbn [Car.move Car.pose Car.speed Car.driftFactor Car.set_position Car.set_wheelSpinVel
       Car.set_meshRotZ Car.set_meshRotY].
  rewrite S5. split; [exact S4 | exact D5].
Qed.

(** After [reset] the car is at full health and nitro, at rest, and
    invulnerable; until the invulnerability is ended no damage, collision
    or update takes any health away. *)
Theorem reset_protects_health (p : Vec3) (os : list Car.op) (c : Car.state) :
  Forall (fun o => op_nonneg o /\ o <> Car.OpEndInvulnerability) os ->
  let c0 := Car.reset p c in
  Car.health c0 = Car.maxHealth c /\ Car.nitroAmount c0 = Car.nitroCapacity (Car.config c) /\
  Car.nitroCooldown c0 = 0 /\ Car.speed c0 = 0 /\ Car.position c0 = p /\
  Car.invulnerable (Run.ops W os c0) = true /\
  Car.health (Run.ops W os c0) == Car.maxHealth c.
Proof.
  intros Hos. cbv zeta. repeat (split; [reflexivity|]).
  assert (G : forall os x,
            Forall (fun o => op_nonneg o /\ o <> Car.OpEndInvulnerability) os ->
            Car.invulnerable x = true -> Car.health x == Car.maxHealth x ->
            Car.invulnerable (Run.ops W os x) = true /\
            Car.health (Run.ops W os x) == Car.maxHealth x).
  { clear. induction os as [|o os IH]; intros x Hos Hi Hh; [auto|].
    inversion Hos as [|? ? [Ho Hne] Hos']; subst.
    cbn [Run.ops fold_left]. fold (Run.ops W os (Car.apply W o x)).
    assert (Step : Car.invulnerable (Car.apply W o x) = true /\
                   Car.health (Car.apply W o x) == Car.maxHealth x /\
                   Car.maxHealth (Car.apply W o x) = Car.maxHealth x).
    { destruct o as [input d|amount|amount|now normal severity|q|];
        cbn [Car.apply op_nonneg] in *.
      - destruct (static_health _ _ (update_static input d x)) as (-> & -> & ->). auto.
      - unfold Car.applyDamage. rewrite Hi. auto.
      - unfold Car.repair. cbn. split; [exact Hi|]. split; [|reflexivity].
        rewrite Q.min_l; [reflexivity | lra].
      - unfold Car.handleCollisionWithObject.
        destruct (JS.ltb (now - Car.lastCollisionTime x) 100); [auto|].
        unfold Car.applyDamage. cbn [Car.invulnerable Car.set_lastCollisionTime].
        rewrite Hi. cbn. auto.
      - cbn. split; [reflexivity|]. split; reflexivity.
      - congruence. }
    destruct Step as (Hi' & Hh' & Hm'). rewrite <- Hm'.
    apply IH; [exact Hos' | exact Hi' | now rewrite Hm']. }
  apply (G os (Car.reset p c) Hos); reflexivity.
Qed.

Lemma normalize_zero (a : Vec3) :
  (forall q, q == 0 -> Math_sqrt W q == 0) ->
  V3.eqv (v3_normalize W (V3.sub a a)) V3.zero.
Proof.
  intros Hsqrt. unfold v3_normalize, v3_length.
  assert (Hl : Math_sqrt W (V3.lengthSq (V3.sub a a)) == 0).
  { apply Hsqrt. unfold V3.lengthSq, V3.sub. cbn [vx vy vz]. ring. }
  apply eqb_true in Hl. rewrite Hl.
  unfold V3.eqv, V3.multiplyScalar, V3.sub, V3.zero. cbn [vx vy vz].
  repeat split; field.
Qed.

(** Two vehicles at the same position: the direction between them
    normalises to the zero vector, so neither the rival nor the player
    is displaced, while the speeds are still reversed and halved. *)
Theorem coincident_centres_no_push (now : Q) (r : EnemyCar.state) (c : Car.state) :
  (forall q, q == 0 -> Math_sqrt W q == 0) ->
  100 <= now - Car.lastCollisionTime c ->
  let r' := EnemyCar.handleCollisionSimple W (EnemyCar.position r) r in
  let c' := Car.handleCollisionSimple W now (Car.position c) c in
  V3.eqv (EnemyCar.position r') (EnemyCar.position r) /\
  EnemyCar.speed r' = EnemyCar.speed r * -0.5 /\
  V3.eqv (Car.position c') (Car.position c) /\
  Car.lastCollisionTime c' = now.
Proof.
  intros Hsqrt Hnow. cbv zeta.
  destruct (normalize_zero (EnemyCar.position r) Hsqrt) as (Rx & Ry & Rz).
  destruct (normalize_zero (Car.position c) Hsqrt) as (Cx & Cy & Cz).
  split; [|split; [reflexivity|]].
  - unfold EnemyCar.handleCollisionSimple, V3.eqv, V3.addScaledVector.
    cbn [EnemyCar.position EnemyCar.emit EnemyCar.set_events EnemyCar.set_speed
         EnemyCar.set_position vx vy vz].
    rewrite Rx, Ry, Rz. cbn [V3.zero vx vy vz]. repeat split; ring.
  - unfold Car.handleCollisionSimple.
    destruct (player_resolved now
                (v3_normalize W (V3.sub (Car.position c) (Car.position c))) 1 c Hnow)
      as (-> & -> & _).
    split; [|reflexivity].
    unfold V3.eqv, V3.add, V3.multiplyScalar. cbn [vx vy vz].
    rewrite Cx, Cy, Cz. cbn [V3.zero vx vy vz]. repeat split; ring.
Qed.

End PlayerCar.

Lemma health_range_witness :
  let os := [Car.OpDamage 30; Car.OpCollide 5000 (mkVec3 1 0 0) 1; Car.OpRepair 500;
             Car.OpUpdate None (JS.DtNumber 0.016); Car.OpDamage 1000] in
  let c := Examples.fastCar in
  Forall op_nonneg os /\ 0 <= Car.health c <= Car.maxHealth c /\
  0 <= Car.health (Run.ops Reference.world os c) <= Car.maxHealth c.
Proof.
  intros os c.
  assert (H1 : Forall op_nonneg os) by (repeat constructor; cbn; lra).
  assert (H2 : 0 <= Car.health c <= Car.maxHealth c) by (cbn; lra).
  split; [exact H1|]. split; [exact H2|].
  exact (health_stays_in_range Reference.world os c H1 H2).
Defined.

Lemma second_collision_witness :
  let c := Examples.fastCar in
  let once := Car.handleCollisionWithObject 5000 (mkVec3 1 0 0) 1 c in
  100 <= 5000 - Car.lastCollisionTime c /\ 5016 - 5000 < 100 /\
  Car.handleCollisionWithObject 5016 (mkVec3 0 0 1) 2 once = once.
Proof.
  intros c once.
  assert (H1 : 100 <= 5000 - Car.lastCollisionTime c) by (cbn; lra).
  assert (H2 : 5016 - 5000 < 100) by lra.
  split; [exact H1|]. split; [exact H2|].
  exact (second_collision_debounced 5000 5016 (mkVec3 1 0 0) (mkVec3 0 0 1) 1 2 c H1 H2).
Defined.

Lemma nitro_transitions_witness :
  let c := Car.set_nitroAmount 0 (Car.create Car.defaults) in
  let c' := Car.update Reference.world (Some Examples.keys_shift) (JS.DtNumber 0.1) c in
  0 < 0.1 /\ Car.nitroCooldown c <= 0 /\ Car.nitroAmount c <= 0 /\
  Car.nitroAmount c' == 0.5 /\ Car.nitroCooldown c' == 0.
Proof.
  intros c c'.
  assert (H1 : 0 < 0.1) by reflexivity.
  assert (H2 : Car.nitroCooldown c <= 0) by (cbn; lra).
  assert (H3 : Car.nitroAmount c <= 0) by (cbn; lra).
  split; [exact H1|]. split; [exact H2|]. split; [exact H3|].
  destruct (proj1 (proj2 (nitro_transitions Reference.world Examples.keys_shift 0.1 c H1))
              H2 (or_intror H3)) as [Ea Ec].
  fold c' in Ea, Ec. rewrite Ea, Ec. split; vm_compute; reflexivity.
Defined.

Lemma speed_and_drift_witness :
  let c := Examples.fastCar in
  let keys := Examples.keys_w_shift in
  let c' := Car.update Reference.world (Some keys) (JS.DtNumber 0.05) c in
  0 < 0.05 /\ 0 < Car.maxSpeed c /\
  0 <= Math_pow Reference.world (Car.friction c) (0.05 * 60 * 0.016) <= 1 /\
  -0.25 <= Car.driftFactor c <= 0.25 /\
  (- Car.maxSpeed c / 2 <= Car.speed c' <= Car.maxSpeed c) /\
  (-0.25 <= Car.driftFactor c' <= 0.25).
Proof.
  intros c keys c'.
  assert (H1 : 0 < 0.05) by reflexivity.
  assert (H2 : 0 < Car.maxSpeed c) by reflexivity.
  assert (H3 : 0 <= Math_pow Reference.world (Car.friction c) (0.05 * 60 * 0.016) <= 1)
    by (vm_compute; split; discriminate).
  assert (H4 : -0.25 <= Car.driftFactor c <= 0.25) by (cbn; lra).
  split; [exact H1|]. split; [exact H2|]. split; [exact H3|]. split; [exact H4|].
  exact (speed_and_drift_bounded Reference.world keys 0.05 c H1 H2 H3 H4).
Defined.

Lemma reset_protects_witness :
  let os := [Car.OpCollide 5000 (mkVec3 1 0 0) 1; Car.OpDamage 500;
             Car.OpUpdate None (JS.DtNumber 0.016)] in
  let c := Car.set_health 12 Examples.fastCar in
  Forall (fun o => op_nonneg o /\ o <> Car.OpEndInvulnerability) os /\
  Car.health (Run.ops Reference.world os (Car.reset (mkVec3 0 5 0) c)) == 100.
Proof.
  intros os c.
  assert (H : Forall (fun o => op_nonneg o /\ o <> Car.OpEndInvulnerability) os)
    by (repeat constructor; cbn; try lra; discriminate).
  split; [exact H|].
  exact (proj2 (proj2 (proj2 (proj2 (proj2 (proj2
           (reset_protects_health Reference.world (mkVec3 0 5 0) os c H))))))).
Defined.

Lemma sqrt_of_zero (q : Q) : q == 0 -> Math_sqrt Reference.world q == 0.
Proof.
  intros E. cbn [Math_sqrt Reference.world]. unfold Reference.sqrt.
  rewrite Qred_correct. destruct q as [n d]. unfold Qeq in *. cbn [Qnum Qden] in *.
  assert (n = 0%Z) by lia. subst. reflexivity.
Qed.

Lemma coincident_centres_witness :
  let r := Examples.rivalNear in
  let c := Car.set_position (mkVec3 3 0 0) Examples.fastCar in
  (forall q, q == 0 -> Math_sqrt Reference.world q == 0) /\
  100 <= 5000 - Car.lastCollisionTime c /\
  V3.eqv (EnemyCar.position
            (EnemyCar.handleCollisionSimple Reference.world (EnemyCar.position r) r))
         (EnemyCar.position r) /\
  V3.eqv (Car.position (Car.handleCollisionSimple Reference.world 5000 (Car.position c) c))
         (Car.position c).
Proof.
  intros r c.
  assert (H2 : 100 <= 5000 - Car.lastCollisionTime c) by (cbn; lra).
  split; [exact sqrt_of_zero|]. split; [exact H2|].
  destruct (coincident_centres_no_push Reference.world 5000 r c sqrt_of_zero H2)
    as (Hr & _ & Hc & _).
  split; [exact Hr | exact Hc].
Defined.

(** ** The keyboard *)

Section Keyboard.

Lemma write_aliases (k : Input.Key) (v : bool) (st : Input.state) :
  input_aliased st -> input_aliased (Input.write k v st).
Proof.
  unfold input_aliased. intros (Hw & Hs & Ha & Hd).
  destruct k; cbn; repeat split; assumption.
Qed.

Lemma keyboard_aliases (es : list (bool * string)) (st : Input.state) :
  input_aliased st -> input_aliased (Run.keyboard es st).
Proof.
  revert st. induction es as [|[down code] es IH]; intros st H; [exact H|].
  apply IH. cbn [fst snd]. unfold Input.onKeyDown, Input.onKeyUp.
  destruct down, (Input.keyOf code); auto using write_aliases.
Qed.

(** The aliases [w], [s], [a], [d] of an [Input] object mirror
    [forward], [backward], [left] and [right] after any sequence of key
    events on a new object. *)
Theorem keyboard_aliases_agree (es : list (bool * string)) :
  input_aliased (Run.keyboard es Input.create).
Proof.
  apply keyboard_aliases. repeat split.
Qed.

Lemma key_state_write (k k' : Input.Key) (v : bool) (st : Input.state) :
  key_state k (Input.write k' v st) = if same_key k' k then v else key_state k st.
Proof.
  destruct k, k'; reflexivity.
Qed.

Lemma keyboard_snoc (es : list (bool * string)) (e : bool * string) (st : Input.state) :
  Run.keyboard (es ++ [e]) st =
  if fst e then Input.onKeyDown (snd e) (Run.keyboard es st)
  else Input.onKeyUp (snd e) (Run.keyboard es st).
Proof.
  unfold Run.keyboard. rewrite fold_left_app. reflexivity.
Qed.

(** After any sequence of key events, each flag of an [Input] object
    is the direction (down or up) of the last event whose code belongs
    to it, and its earlier value if there was none; codes outside the
    [switch] change nothing. *)
Theorem keyboard_tracks_last_event (k : Input.Key) (es : list (bool * string))
    (st : Input.state) :
  key_state k (Run.keyboard es st) =
  match last_event k es with Some down => down | None => key_state k st end.
Proof.
  induction es as [|[down code] es IH] using rev_ind; [reflexivity|].
  rewrite keyboard_snoc. unfold last_event in *. rewrite fold_left_app.
  cbn [fold_left fst snd]. unfold Input.onKeyDown, Input.onKeyUp.
  destruct (Input.keyOf code) as [k'|].
  - destruct down; rewrite key_state_write; destruct (same_key k' k); auto.
  - destruct down; exact IH.
Qed.

End Keyboard.

(** ** The game's input and HUD *)

Section GameInput.

Lemma handle_gyroLane (e : Run.InputEvent) (st : Game.Input * Game.GameState) :
  0 <= Game.gyroLane (fst st) <= 2 ->
  0 <= Game.gyroLane (fst (Run.handle e st)) <= 2.
Proof.
  intros H. destruct e as [key|key|z down|[tilt|]]; cbn; try exact H.
  - destruct z; exact H.
  - split; [apply Q.le_max_l|].
    apply Q.max_lub; [lra|apply Q.le_min_l].
Qed.

Lemma inputs_gyroLane (es : list Run.InputEvent) (st : Game.Input * Game.GameState) :
  0 <= Game.gyroLane (fst st) <= 2 ->
  0 <= Game.gyroLane (fst (Run.inputs es st)) <= 2.
Proof.
  revert st. induction es as [|e es IH]; intros st H; [exact H|].
  apply IH, handle_gyroLane, H.
Qed.

(** Whatever reaches the page (keys, touches, device orientation), the
    steering input the main loop reads is a lane in [[0, 2]], with or
    without the gyroscope. *)
Theorem steering_within_lanes (gyro : bool) (es : list Run.InputEvent) (s : Game.GameState) :
  0 <= Game.getSteeringInput gyro (fst (Run.inputs es (Game.initialInput, s))) <= 2.
Proof.
  unfold Game.getSteeringInput. destruct gyro.
  - apply inputs_gyroLane. cbn. lra.
  - set (i := fst _).
    destruct (Game.held i "arrowleft" || Game.held i "a" || Game.touchLeft i);
      destruct (Game.held i "arrowright" || Game.held i "d" || Game.touchRight i);
      lra.
Qed.

Lemma handle_in_race (e : Run.InputEvent) (st : Game.Input * Game.GameState) :
  (in_race (snd st) = false -> snd (Run.handle e st) = snd st) /\
  (in_race (snd st) = true -> in_race (snd (Run.handle e st)) = true).
Proof.
  destruct st as [i s]. destruct e as [key|key|z down|gamma]; cbn [Run.handle fst snd];
    try (split; [reflexivity | exact (fun H => H)]).
  unfold Game.handleKeyDown. cbn [snd].
  destruct (String.eqb key "p") eqn:Ep.
  - apply String.eqb_eq in Ep. subst key. cbn [String.eqb Ascii.eqb Bool.eqb andb].
    destruct s; split; intros H; try discriminate H; reflexivity.
  - destruct (String.eqb key "escape"); cbn [andb];
      destruct s; split; intros H; try discriminate H; reflexivity.
Qed.

(** Input events only pause and resume: a game that is not being
    raced (loading, menu, game over) keeps its state under any
    sequence of events, and a race stays a race, running or paused. *)
Theorem input_only_pauses (es : list Run.InputEvent) (i : Game.Input) (s : Game.GameState) :
  if in_race s then in_race (snd (Run.inputs es (i, s))) = true
  else snd (Run.inputs es (i, s)) = s.
Proof.
  change s with (snd (i, s)) at 1 4. generalize (i, s). clear i s.
  induction es as [|e es IH]; intros st.
  - cbn. destruct (in_race (snd st)); reflexivity.
  - cbn [Run.inputs fold_left]. fold (Run.inputs es (Run.handle e st)).
    specialize (IH (Run.handle e st)).
    destruct (handle_in_race e st) as [Hout Hin].
    destruct (in_race (snd st)) eqn:E.
    + rewrite (Hin eq_refl) in IH. exact IH.
    + rewrite (Hout eq_refl), E in IH. exact IH.
Qed.

Lemma updateUI_range (dt : Q) (i : Game.Input) (s : Game.GameState) (h : Game.Hud) :
  0 <= dt <= 0.05 -> 0 <= Game.maxNitro h ->
  -1.5 <= Game.nitroAmount h <= Game.maxNitro h ->
  Game.maxNitro (Game.updateUI dt i s h) = Game.maxNitro h /\
  -1.5 <= Game.nitroAmount (Game.updateUI dt i s h) <= Game.maxNitro h.
Proof.
  intros Hdt Hmax Hn. unfold Game.updateUI.
  destruct (negb (Game.is_playing s)); [split; [reflexivity|exact Hn]|].
  destruct (Game.getNitroInput i && JS.ltb 0 (Game.nitroAmount h)) eqn:E;
    cbn [Game.nitroAmount Game.maxNitro]; (split; [reflexivity|]).
  - apply andb_true_iff in E as [_ E]. apply ltb_true in E. lra.
  - split; [|apply Q.le_min_l].
    apply Q.min_glb; lra.
Qed.

(** The HUD's nitro gauge over any run of frames whose time step is
    the clamped clock delta (between 0 and 0.05): it never exceeds
    [maxNitro], never falls below -1.5, and the width shown stays in
    [[0, maxNitro]]. *)
Theorem hud_gauge_in_range (s : Game.GameState) (fs : list (Q * Game.Input)) (h : Game.Hud) :
  Forall (fun f => 0 <= fst f <= 0.05) fs ->
  0 <= Game.maxNitro h ->
  -1.5 <= Game.nitroAmount h <= Game.maxNitro h ->
  let h' := Run.hud s fs h in
  Game.maxNitro h' = Game.maxNitro h /\
  -1.5 <= Game.nitroAmount h' <= Game.maxNitro h /\
  0 <= Game.nitroFillWidth h' <= Game.maxNitro h.
Proof.
  intros Hfs Hmax Hn. cbv zeta.
  assert (H : Game.maxNitro (Run.hud s fs h) = Game.maxNitro h /\
              -1.5 <= Game.nitroAmount (Run.hud s fs h) <= Game.maxNitro h).
  { revert h Hmax Hn. induction Hfs as [|[dt i] fs Hdt _ IH]; intros h Hmax Hn.
    - split; [reflexivity|exact Hn].
    - cbn [Run.hud fold_left fst snd].
      destruct (updateUI_range dt i s h Hdt Hmax Hn) as [E R].
      destruct (IH (Game.updateUI dt i s h)) as [E' R'];
        [rewrite E; exact Hmax | rewrite E; exact R |].
      unfold Run.hud in E', R'. rewrite E', E in *. split; [reflexivity|exact R']. }
  destruct H as [E R]. split; [exact E|]. split; [exact R|].
  unfold Game.nitroFillWidth. split; [apply Q.le_max_l|].
  apply Q.max_lub; [exact Hmax | apply R].
Qed.

End GameInput.

Lemma hud_gauge_witness :
  let fs := [(0.05, Game.touch Game.ZoneNitro true Game.initialInput);
             (0.016, Game.initialInput); (0.05, Game.initialInput)] in
  let h := Game.mkHud 1 100 in
  Forall (fun f => 0 <= fst f <= 0.05) fs /\
  0 <= Game.maxNitro h /\
  -1.5 <= Game.nitroAmount h <= Game.maxNitro h /\
  -1.5 <= Game.nitroAmount (Run.hud Game.PLAYING fs h) <= Game.maxNitro h.
Proof.
  intros fs h.
  assert (H1 : Forall (fun f => 0 <= fst f <= 0.05) fs)
    by (repeat constructor; cbn; lra).
  assert (H2 : 0 <= Game.maxNitro h) by (cbn; lra).
  assert (H3 : -1.5 <= Game.nitroAmount h <= Game.maxNitro h) by (cbn; lra).
  split; [exact H1|]. split; [exact H2|]. split; [exact H3|].
  exact (proj1 (proj2 (hud_gauge_in_range Game.PLAYING fs h H1 H2 H3))).
Defined.

(** ** Lap times, ranks and saved rivals *)

Section Display.

Lemma floor_unique (x : Q) (z : Z) :
  inject_Z z <= x -> x < inject_Z (z + 1) -> Qfloor x = z.
Proof.
  intros Hl Hu.
  pose proof (Qfloor_le x) as Fl. pose proof (Qlt_floor x) as Fu.
  assert (A : inject_Z z < inject_Z (Qfloor x + 1)) by lra.
  assert (B : inject_Z (Qfloor x) < inject_Z (z + 1)) by lra.
  rewrite <- Zlt_Qlt in A, B. lia.
Qed.

Lemma trunc_floor (q : Q) : 0 <= q -> JS.trunc q = Qfloor q.
Proof.
  intros H. destruct q as [n d]. unfold JS.trunc, Qfloor. cbn [Qnum Qden].
  apply Z.quot_div_nonneg; [|lia].
  unfold Qle in H. cbn in H. lia.
Qed.

Lemma rem_nonneg (a b : Q) :
  0 <= a -> 0 < b -> JS.rem a b == a - b * inject_Z (Qfloor (a / b)).
Proof.
  intros Ha Hb. unfold JS.rem. rewrite trunc_floor; [reflexivity|].
  apply Qle_shift_div_l; lra.
Qed.

Lemma floor_div_bounds (a b : Q) :
  0 < b ->
  b * inject_Z (Qfloor (a / b)) <= a /\ a < b * inject_Z (Qfloor (a / b) + 1).
Proof.
  intros Hb.
  pose proof (Qfloor_le (a / b)) as Fl. pose proof (Qlt_floor (a / b)) as Fu.
  assert (E : a == b * (a / b)) by (field; lra).
  split.
  - rewrite E at 2. apply Qmult_le_l; assumption.
  - rewrite E at 1. apply Qmult_lt_l; assumption.
Qed.

(** The three numbers [formatTime] prints for a time that is not
    negative: whole minutes, seconds below 60 and tenths below 10,
    which together are the time rounded down to a tenth of a second. *)
Theorem formatTime_parts (seconds : Q) :
  0 <= seconds ->
  let '(mins, secs, tenths) := Game.timeParts seconds in
  (0 <= mins)%Z /\ (0 <= secs < 60)%Z /\ (0 <= tenths < 10)%Z /\
  inject_Z (60 * mins + secs) + inject_Z tenths / 10 <= seconds /\
  seconds < inject_Z (60 * mins + secs) + inject_Z (tenths + 1) / 10.
Proof.
  intros Hs. unfold Game.timeParts.
  set (m := Qfloor (seconds / 60)). set (f := Qfloor (seconds / 1)).
  assert (R60 : JS.rem seconds 60 == seconds - 60 * inject_Z m)
    by (apply rem_nonneg; lra).
  assert (R1 : JS.rem seconds 1 == seconds - 1 * inject_Z f)
    by (apply rem_nonneg; lra).
  destruct (floor_div_bounds seconds 60) as [M1 M2]; [lra|]. fold m in M1, M2.
  destruct (floor_div_bounds seconds 1) as [F1 F2]; [lra|]. fold f in F1, F2.
  rewrite inject_Z_plus in M2, F2. change (inject_Z 1) with 1 in M2, F2.
  assert (Es : Qfloor (JS.rem seconds 60) = (f - 60 * m)%Z).
  { apply floor_unique; rewrite R60.
    - unfold Zminus. rewrite inject_Z_plus, inject_Z_opp, inject_Z_mult.
      change (inject_Z 60) with 60. lra.
    - replace (f - 60 * m + 1)%Z with ((f + 1) - 60 * m)%Z by lia.
      unfold Zminus. rewrite !inject_Z_plus, inject_Z_opp, inject_Z_mult.
      change (inject_Z 60) with 60. change (inject_Z 1) with 1. lra. }
  set (t := Qfloor (JS.rem seconds 1 * 10)).
  pose proof (Qfloor_le (JS.rem seconds 1 * 10)) as T1.
  pose proof (Qlt_floor (JS.rem seconds 1 * 10)) as T2. fold t in T1, T2.
  rewrite R1 in T1, T2. rewrite inject_Z_plus in T2. change (inject_Z 1) with 1 in T2.
  rewrite Es.
  assert (Hm : (0 <= m)%Z).
  { assert (0 < inject_Z (m + 1)) by (rewrite inject_Z_plus; change (inject_Z 1) with 1; lra).
    change 0 with (inject_Z 0) in H. rewrite <- Zlt_Qlt in H. lia. }
  assert (Hl : (60 * m <= f)%Z).
  { assert (A : inject_Z (60 * m) < inject_Z (f + 1)).
    { rewrite inject_Z_plus, inject_Z_mult. change (inject_Z 60) with 60.
      change (inject_Z 1) with 1. lra. }
    rewrite <- Zlt_Qlt in A. lia. }
  assert (Hu : (f < 60 * m + 60)%Z).
  { assert (A : inject_Z f < inject_Z (60 * m + 60)).
    { rewrite inject_Z_plus, inject_Z_mult. change (inject_Z 60) with 60. lra. }
    rewrite <- Zlt_Qlt in A. exact A. }
  assert (Ht0 : (0 <= t)%Z).
  { assert (A : inject_Z 0 < inject_Z (t + 1)).
    { rewrite inject_Z_plus. change (inject_Z 1) with 1. change (inject_Z 0) with 0. lra. }
    rewrite <- Zlt_Qlt in A. lia. }
  assert (Ht1 : (t < 10)%Z).
  { assert (A : inject_Z t < inject_Z 10) by (change (inject_Z 10) with 10; lra).
    rewrite <- Zlt_Qlt in A. exact A. }
  split; [exact Hm|]. split; [lia|]. split; [lia|].
  replace (60 * m + (f - 60 * m))%Z with f by lia.
  rewrite inject_Z_plus. change (inject_Z 1) with 1.
  assert (E1 : inject_Z t / 10 == inject_Z t * (1 # 10)) by field.
  assert (E2 : (inject_Z t + 1) / 10 == (inject_Z t + 1) * (1 # 10)) by field.
  rewrite E1, E2. split; lra.
Qed.

Lemma rank_fold (p : Q) (rs : list EnemyCar.state) (z : Z) :
  fold_left (fun worse r =>
               if JS.ltb p (EnemyCar.progress r) then (worse + 1)%Z else worse) rs z =
  (z + Z.of_nat (length (List.filter (fun r => JS.ltb p (EnemyCar.progress r)) rs)))%Z.
Proof.
  revert z. induction rs as [|r rs IH]; intros z; cbn [fold_left List.filter].
  - cbn. lia.
  - rewrite IH. destruct (JS.ltb p (EnemyCar.progress r)); cbn [length]; lia.
Qed.

(** [computeRank] is one more than the number of rivals whose progress
    is strictly greater than the player's: between 1 and the number of
    cars, with ties going to the player. *)
Theorem rank_counts_rivals_ahead (g : Game.state) :
  Game.computeRank g = (1 + Z.of_nat (length (List.filter (ahead g) (Game.rivals g))))%Z /\
  (1 <= Game.computeRank g <= 1 + Z.of_nat (length (Game.rivals g)))%Z.
Proof.
  unfold Game.computeRank. rewrite rank_fold. fold (ahead g).
  split; [reflexivity|].
  pose proof (List.filter_length_le (ahead g) (Game.rivals g)). lia.
Qed.

End Display.

Lemma formatTime_witness :
  0 <= 83.47 /\ Game.timeParts 83.47 = (1, 23, 4)%Z /\
  inject_Z (60 * 1 + 23) + inject_Z 4 / 10 <= 83.47.
Proof.
  assert (H : 0 <= 83.47) by (vm_compute; discriminate).
  split; [exact H|]. split; [reflexivity|].
  exact (proj1 (proj2 (proj2 (proj2 (formatTime_parts 83.47 H))))).
Defined.

Section SavedRival.

Lemma get_insert (o : gmap string JS.value) (k k' : string) (v : JS.value) :
  JS.get (<[k := v]> o) k' = if decide (k = k') then v else JS.get o k'.
Proof.
  unfold JS.get. destruct (decide (k = k')) as [->|N].
  - now rewrite lookup_insert_eq.
  - now rewrite lookup_insert_ne.
Qed.

Lemma insert_get_id (o : gmap string JS.value) (k : string) :
  JS.not_nullish (JS.get o k) = true -> <[k := JS.get o k]> o = o.
Proof.
  unfold JS.get. intros H. destruct (o !! k) as [v|] eqn:E; [|discriminate H].
  now apply insert_id.
Qed.

Lemma assign_present_get (data this : gmap string JS.value) (k k' : string) :
  JS.get (Saved.assign_present data k this) k' =
  if bool_decide (k = k') && JS.not_nullish (JS.get data k) then JS.get data k
  else JS.get this k'.
Proof.
  unfold Saved.assign_present.
  destruct (JS.not_nullish (JS.get data k)); [rewrite get_insert|];
    case_bool_decide; try reflexivity.
  - now rewrite decide_True.
  - now rewrite decide_False.
Qed.

Lemma assign_present_other (data this : gmap string JS.value) (k k' : string) :
  k <> k' -> Saved.assign_present data k this !! k' = this !! k'.
Proof.
  intros N. unfold Saved.assign_present.
  destruct (JS.not_nullish (JS.get data k)); [now rewrite lookup_insert_ne|reflexivity].
Qed.

Lemma assign_present_self (this data : gmap string JS.value) (k : string) :
  JS.get data k = JS.get this k -> Saved.assign_present data k this = this.
Proof.
  intros E. unfold Saved.assign_present. rewrite E.
  destruct (JS.not_nullish (JS.get this k)) eqn:H; [|reflexivity].
  now apply insert_get_id.
Qed.

Lemma enemy_toJSON_get (this : gmap string JS.value) (k : string) :
  k ∈ enemy_saved_keys -> JS.get (Saved.enemy_toJSON this) k = JS.get this k.
Proof.
  intros H. unfold Saved.enemy_toJSON, enemy_saved_keys in *.
  rewrite !get_insert.
  repeat (apply elem_of_cons in H as [->|H]; [reflexivity|]).
  now apply elem_of_nil in H.
Qed.

(** A rival's save and restore as written: [fromJSON(r.toJSON())] on a
    rival [r'] gives it every saved property of [r] that is neither
    [null] nor [undefined], whatever its type, and leaves every other
    property of [r'] alone; restoring a rival from its own save changes
    nothing. *)
Theorem rival_save_restore (r r' : gmap string JS.value) :
  let restored := Saved.enemy_fromJSON (Some (Saved.enemy_toJSON r)) r' in
  (forall k, k ∈ enemy_saved_keys ->
     JS.get restored k =
     if JS.not_nullish (JS.get r k) then JS.get r k else JS.get r' k) /\
  (forall k, k ∉ enemy_saved_keys -> restored !! k = r' !! k) /\
  Saved.enemy_fromJSON (Some (Saved.enemy_toJSON r)) r = r.
Proof.
  cbv zeta. unfold Saved.enemy_fromJSON, Saved.data_or_empty.
  split; [|split].
  - intros k Hk. rewrite !assign_present_get.
    rewrite !enemy_toJSON_get by (apply list_elem_of_In; cbn; tauto).
    unfold enemy_saved_keys in Hk.
    repeat (apply elem_of_cons in Hk as [->|Hk];
            [repeat (case_bool_decide; try discriminate; cbn [andb]);
             try congruence; repeat (destruct (JS.not_nullish _); try reflexivity)|]).
    now apply elem_of_nil in Hk.
  - intros k Hk. unfold enemy_saved_keys in Hk.
    rewrite !assign_present_other; [reflexivity|..]; intros <-; apply Hk, list_elem_of_In; cbn; tauto.
  - rewrite (assign_present_self r _ "progress"), (assign_present_self r _ "laneOffset"),
      (assign_present_self r _ "speed"), (assign_present_self r _ "isNitroActive");
      [reflexivity|..]; apply enemy_toJSON_get, list_elem_of_In; cbn; tauto.
Qed.

End SavedRival.

(** ** The course of a race *)

Section RaceCourse.

Context (W : World).

Lemma best_improves_refl (o : option Q) : best_improves o o.
Proof. destruct o; cbn; [lra|exact I]. Qed.

Lemma best_improves_trans (a b c : option Q) :
  best_improves a b -> best_improves b c -> best_improves a c.
Proof.
  destruct a, b, c; cbn; try tauto; lra.
Qed.

Ltac game_fields :=
  cbn [Game.gameState Game.score Game.lap Game.maxLaps Game.checkpointReached
       Game.lapStartTime Game.bestLapTime Game.currentLapTime Game.cameraShake
       Game.player Game.rivals Game.destructibles Game.colliders Game.startLinePos
       Game.halfwayPos Game.set_lapStartTime Game.set_bestLapTime
       Game.set_checkpointReached Game.set_lap Game.set_gameState Game.set_player
       Game.set_currentLapTime Car.speed Car.set_speed].

Lemma armCheckpoint_standing (pos : Vec3) (g : Game.state) :
  standing (Game.armCheckpoint pos g) = standing g /\
  Game.player (Game.armCheckpoint pos g) = Game.player g.
Proof.
  unfold Game.armCheckpoint. destruct (_ && _); split; reflexivity.
Qed.

Lemma completeLap_standing (now : Q) (g : Game.state) :
  let g' := Game.completeLap now g in
  Game.lap g' = (Game.lap g + 1)%Z /\ Game.maxLaps g' = Game.maxLaps g /\
  best_improves (Game.bestLapTime g) (Game.bestLapTime g') /\
  (if (Game.maxLaps g <? Game.lap g + 1)%Z
   then Game.gameState g' = Game.GAMEOVER /\ Car.speed (Game.player g') = 0
   else Game.gameState g' = Game.gameState g /\ Game.player g' = Game.player g).
Proof.
  cbv zeta. unfold Game.completeLap, Game.finishRace.
  destruct (Game.bestLapTime g) as [best|] eqn:B; game_fields; rewrite ?B.
  - destruct (JS.ltb _ best) eqn:L; game_fields; rewrite ?B;
      destruct (_ <? _)%Z; game_fields; rewrite ?B; repeat split;
      cbn [best_improves]; try lra.
    all: apply ltb_true in L; lra.
  - destruct (_ <? _)%Z; game_fields; repeat split.
Qed.

(** One frame of race logic on a game that is being played. *)
Lemma raceFrame_playing (f : Vec3 * Q) (g : Game.state) :
  Game.gameState g = Game.PLAYING ->
  let g' := Run.raceFrame W f g in
  Game.maxLaps g' = Game.maxLaps g /\
  best_improves (Game.bestLapTime g) (Game.bestLapTime g') /\
  ((standing g' = standing g) \/
   (Game.lap g' = (Game.lap g + 1)%Z /\
    if (Game.maxLaps g <? Game.lap g + 1)%Z
    then Game.gameState g' = Game.GAMEOVER /\ Car.speed (Game.player g') = 0
    else Game.gameState g' = Game.PLAYING)).
Proof.
  intros P. cbv zeta. destruct f as [pos now].
  unfold Run.raceFrame, Game.updateRaceLogic. cbn [fst snd].
  cbn [Game.gameState Game.set_player]. rewrite P. cbn [Game.is_playing negb].
  cbn [Game.player Game.set_player Car.position Car.set_position].
  set (g0 := Game.set_player _ (Game.set_player _ g)).
  assert (S0 : standing g0 = standing g) by reflexivity.
  destruct (armCheckpoint_standing pos g0) as [S1 _].
  set (g1 := Game.armCheckpoint pos g0) in *.
  rewrite S0 in S1. clear S0.
  injection S1 as E1 E2 E3 E4.
  unfold Game.finishLine.
  destruct (Game.checkpointReached g1 && Game.nearStart g1 pos).
  - destruct (completeLap_standing now g1) as (L & M & B & F).
    rewrite E2, E3, E4 in *.
    set (g2 := Game.completeLap now g1) in *.
    destruct (Game.maxLaps g <? Game.lap g + 1)%Z.
    + destruct F as [F1 F2]. rewrite F1. cbn [Game.is_playing].
      split; [exact M|]. split; [exact B|]. right. auto.
    + destruct F as [F1 _]. rewrite F1, E1, P. cbn [Game.is_playing].
      cbn [Game.maxLaps Game.bestLapTime Game.lap Game.gameState Game.set_currentLapTime].
      split; [exact M|]. split; [exact B|]. right. rewrite F1, E1, P. auto.
  - rewrite E1, P. cbn [Game.is_playing].
    cbn [Game.maxLaps Game.bestLapTime Game.set_currentLapTime].
    rewrite E3, E4. split; [reflexivity|]. split; [apply best_improves_refl|].
    left. unfold standing.
    cbn [Game.maxLaps Game.bestLapTime Game.lap Game.gameState Game.set_currentLapTime].
    now rewrite E1, E2, E3, E4.
Qed.

(** One frame on a game that is not being played. *)
Lemma raceFrame_idle (f : Vec3 * Q) (g : Game.state) :
  Game.gameState g <> Game.PLAYING ->
  standing (Run.raceFrame W f g) = standing g /\
  Car.speed (Game.player (Run.raceFrame W f g)) = Car.speed (Game.player g).
Proof.
  intros P. unfold Run.raceFrame, Game.updateRaceLogic.
  cbn [Game.gameState Game.set_player].
  destruct (Game.gameState g) eqn:E; try (exfalso; apply P; reflexivity);
    cbn [Game.is_playing negb]; unfold standing;
    cbn [Game.gameState Game.lap Game.maxLaps Game.bestLapTime Game.player
         Game.set_player Car.speed Car.set_position];
    rewrite E; split; reflexivity.
Qed.

Lemma race_cons (f : Vec3 * Q) (fs : list (Vec3 * Q)) (g : Game.state) :
  Run.race W (f :: fs) g = Run.race W fs (Run.raceFrame W f g).
Proof. reflexivity. Qed.

Lemma race_after_finish (fs : list (Vec3 * Q)) : forall g,
  Game.gameState g = Game.GAMEOVER ->
  standing (Run.race W fs g) = standing g /\
  Car.speed (Game.player (Run.race W fs g)) = Car.speed (Game.player g).
Proof.
  induction fs as [|f fs IH]; intros g G; [split; reflexivity|].
  rewrite race_cons.
  destruct (raceFrame_idle f g) as [S V]; [rewrite G; discriminate|].
  destruct (IH (Run.raceFrame W f g)) as [S' V'].
  - injection S as E _ _ _. now rewrite E.
  - rewrite S', V'. auto.
Qed.

(** A race of [maxLaps] laps: from a game being played with its lap
    counter within the limit, any run of frames leaves the lap counter
    where it was or higher, and either the race is still on with the
    counter within the limit, or the game is over, the counter is one
    past the limit and the player's car has been stopped. *)
Theorem race_ends_after_last_lap (fs : list (Vec3 * Q)) (g : Game.state) :
  Game.gameState g = Game.PLAYING ->
  (Game.lap g <= Game.maxLaps g)%Z ->
  let g' := Run.race W fs g in
  Game.maxLaps g' = Game.maxLaps g /\ (Game.lap g <= Game.lap g')%Z /\
  ((Game.gameState g' = Game.PLAYING /\ (Game.lap g' <= Game.maxLaps g)%Z) \/
   (Game.gameState g' = Game.GAMEOVER /\ Game.lap g' = (Game.maxLaps g + 1)%Z /\
    Car.speed (Game.player g') = 0)).
Proof.
  cbv zeta. revert g. induction fs as [|f fs IH]; intros g P L.
  - cbn. split; [reflexivity|]. split; [lia|]. left. auto.
  - rewrite race_cons. set (g1 := Run.raceFrame W f g).
    destruct (raceFrame_playing f g P) as (M & _ & [S|[L1 F]]); fold g1 in M, S || fold g1 in M, L1, F.
    + injection S as E1 E2 E3 E4.
      destruct (IH g1) as (M' & L' & H); [congruence | lia |].
      rewrite M in *. rewrite E2 in *. auto.
    + destruct (Game.maxLaps g <? Game.lap g + 1)%Z eqn:C.
      * destruct F as [F1 F2]. apply Z.ltb_lt in C.
        destruct (race_after_finish fs g1 F1) as [S V].
        injection S as E1 E2 E3 E4.
        rewrite E3, M, E2, L1, V, E1, F1, F2.
        split; [reflexivity|]. split; [lia|]. right.
        split; [reflexivity|]. split; [lia|reflexivity].
      * apply Z.ltb_ge in C.
        destruct (IH g1) as (M' & L' & H); [exact F | lia |].
        rewrite M in *. rewrite L1 in *. split; [exact M'|]. split; [lia|exact H].
Qed.

Lemma raceFrame_best (f : Vec3 * Q) (g : Game.state) :
  best_improves (Game.bestLapTime g) (Game.bestLapTime (Run.raceFrame W f g)) /\
  (Game.lap g <= Game.lap (Run.raceFrame W f g))%Z /\
  (Game.lap (Run.raceFrame W f g) = Game.lap g ->
   Game.bestLapTime (Run.raceFrame W f g) = Game.bestLapTime g).
Proof.
  destruct (Game.gameState g) eqn:E.
  1, 2, 4, 5: destruct (raceFrame_idle f g) as [S _]; [rewrite E; discriminate|];
    injection S as _ E2 _ E4; rewrite E2, E4;
    split; [apply best_improves_refl|]; split; [lia|reflexivity].
  destruct (raceFrame_playing f g E) as (_ & B & [S|[L _]]).
  - injection S as _ E2 _ E4. rewrite E2, E4.
    split; [apply best_improves_refl|]. split; [lia|reflexivity].
  - split; [exact B|]. split; lia.
Qed.

(** The best lap time over any run of frames, in any state of the
    game: once set it stays set and never grows, and it is left as it
    was by a run that completes no lap. *)
Theorem best_lap_never_worsens (fs : list (Vec3 * Q)) (g : Game.state) :
  best_improves (Game.bestLapTime g) (Game.bestLapTime (Run.race W fs g)) /\
  (Game.lap g <= Game.lap (Run.race W fs g))%Z /\
  (Game.lap (Run.race W fs g) = Game.lap g ->
   Game.bestLapTime (Run.race W fs g) = Game.bestLapTime g).
Proof.
  revert g. induction fs as [|f fs IH]; intros g.
  - cbn. split; [apply best_improves_refl|]. split; [lia|reflexivity].
  - rewrite race_cons.
    destruct (raceFrame_best f g) as (B & L & K).
    destruct (IH (Run.raceFrame W f g)) as (B' & L' & K').
    split; [eapply best_improves_trans; eassumption|]. split; [lia|].
    intros E. rewrite K' by lia. apply K. lia.
Qed.

End RaceCourse.

Lemma race_ends_witness :
  let g := Game.set_lap 3 (Game.set_checkpointReached true Examples.game0) in
  let fs := [(Game.startLinePos g, 90000)] in
  Game.gameState g = Game.PLAYING /\ (Game.lap g <= Game.maxLaps g)%Z /\
  Game.gameState (Run.race Reference.world fs g) = Game.GAMEOVER /\
  Game.lap (Run.race Reference.world fs g) = 4%Z.
Proof.
  intros g fs.
  assert (H1 : Game.gameState g = Game.PLAYING) by reflexivity.
  assert (H2 : (Game.lap g <= Game.maxLaps g)%Z) by (cbn; lia).
  split; [exact H1|]. split; [exact H2|].
  destruct (race_ends_after_last_lap Reference.world fs g H1 H2) as (_ & _ & [[P L]|(G & L & _)]).
  - exfalso. revert P. vm_compute. discriminate.
  - split; [exact G | exact L].
Defined.

(** ** The main loop *)

Section MainLoop.

Context (W : World).

Ltac car_fields :=
  cbn [Car.speed Car.maxSpeed Car.rotation Car.events Car.position Car.driftFactor
       Car.friction Car.meshRotY Car.meshRotZ Car.accSmoothed Car.nitroAmount
       Car.nitroCooldown Car.config Car.health Car.lastCollisionTime
       Car.boundingRadius Car.invulnerable Car.progress
       Car.set_speed Car.set_rotation Car.set_events Car.set_position
       Car.set_driftFactor Car.set_meshRotY Car.set_meshRotZ Car.set_accSmoothed
       Car.set_nitroAmount Car.set_nitroCooldown Car.set_wheelSpinVel
       Car.set_health Car.set_lastCollisionTime Car.set_cameraShake
       Car.set_progress Car.set_invulnerable Car.emit].

Lemma min_one (x : Q) : 1 <= x -> Qmin 1 x == 1.
Proof. intros H. now apply Q.min_l. Qed.

Lemma lerp_full (x y t : Q) : t == 1 -> JS.lerp x y t == y.
Proof. intros E. unfold JS.lerp. rewrite E. ring. Qed.

(** Without keys and with a step of one second the acceleration stage
    only resets the smoothed intent. *)
Lemma accelerate_idle (c : Car.state) :
  exists a, a == 0 /\ Car.accelerate Car.no_keys 1 c = Car.set_accSmoothed (Some a) c.
Proof.
  unfold Car.accelerate. cbn [Car.key_w Car.key_s Car.no_keys].
  set (a := JS.lerp _ _ _).
  assert (Ha : a == 0).
  { unfold a. rewrite lerp_full; [ring | apply min_one; lra]. }
  exists a. split; [exact Ha|]. cbv zeta. clearbody a.
  assert (E1 : JS.ltb 0.01 a = false) by (apply ltb_false; lra).
  assert (E2 : JS.ltb a (-0.01) = false) by (apply ltb_false; lra).
  now rewrite E1, E2.
Qed.

Lemma regenNitro_kinematics (dt : Q) (c : Car.state) :
  Car.speed (Car.regenNitro dt c) = Car.speed c /\
  Car.maxSpeed (Car.regenNitro dt c) = Car.maxSpeed c /\
  Car.rotation (Car.regenNitro dt c) = Car.rotation c /\
  Car.events (Car.regenNitro dt c) = Car.events c /\
  Car.position (Car.regenNitro dt c) = Car.position c.
Proof.
  unfold Car.regenNitro. destruct (JS.ltb 0 (Car.nitroCooldown c)); repeat split.
Qed.

Lemma limitSpeed_kinematics (c : Car.state) :
  Car.maxSpeed (Car.limitSpeed c) = Car.maxSpeed c /\
  Car.rotation (Car.limitSpeed c) = Car.rotation c /\
  Car.events (Car.limitSpeed c) = Car.events c /\
  Car.position (Car.limitSpeed c) = Car.position c /\
  (at_rest c -> Car.speed (Car.limitSpeed c) = Car.speed c).
Proof.
  unfold Car.limitSpeed. cbv zeta.
  destruct (JS.ltb (Car.maxSpeed c) (Car.speed c)) eqn:E1; car_fields;
    destruct (JS.ltb _ _) eqn:E2 in |- *; car_fields; repeat split;
    intros [Hs Hm]; exfalso.
  all: try (apply ltb_true in E1; lra).
  all: apply ltb_true in E2; revert E2; car_fields; intros E2.
  all: assert (- Car.maxSpeed c / 2 == - (Car.maxSpeed c * (1 # 2))) by field; lra.
Qed.

(** The rest of an update without keys and with a step of one second:
    the drift factor is reset, the heading is kept and nothing is
    emitted. *)
Lemma coast_idle (c : Car.state) :
  let c' := Car.driftEvent (Car.move W (Car.pose 1 (Car.steer Car.no_keys 1
              (Car.applyFriction W 1 c)))) in
  Car.maxSpeed c' = Car.maxSpeed c /\ Car.rotation c' = Car.rotation c /\
  Car.events c' = Car.events c /\
  Car.speed c' = Car.speed c * Math_pow W (Car.friction c) (1 * 60 * 0.016) /\
  Car.position c'
  = V3.addScaledVector (Car.position c)
      (mkVec3 (- Math_sin W (Car.rotation c)) 0 (- Math_cos W (Car.rotation c)))
      (Car.speed c * Math_pow W (Car.friction c) (1 * 60 * 0.016)).
Proof.
  cbv zeta. unfold Car.applyFriction.
  set (c1 := Car.set_speed _ c).
  assert (S5 : exists d, d == 0 /\ Car.steer Car.no_keys 1 c1 = Car.set_driftFactor d c1).
  { unfold Car.steer. cbn [Car.key_a Car.key_d Car.no_keys].
    destruct (JS.ltb 0.03 (Qabs (Car.speed c1))); cbv zeta;
      (eexists; split; [|reflexivity]); apply lerp_full, min_one; lra. }
  destruct S5 as (d & Hd & ->).
  unfold Car.driftEvent, Car.move, Car.pose, Car.forward. cbv zeta. car_fields.
  assert (E : JS.ltb 0.15 (Qabs d) = false).
  { apply ltb_false. rewrite Hd. change (Qabs 0) with 0. lra. }
  rewrite E. unfold c1. car_fields. repeat split.
Qed.

Lemma advance_idle (c : Car.state) :
  let c' := Car.advance W Car.no_keys 1 c in
  Car.maxSpeed c' = Car.maxSpeed c /\ Car.rotation c' = Car.rotation c /\
  Car.events c' = Car.events c /\
  (at_rest c -> Car.speed c' == 0 /\ V3.eqv (Car.position c') (Car.position c)).
Proof.
  cbv zeta. unfold Car.advance, Car.throughLimiter.
  destruct (accelerate_idle c) as (a & _ & ->).
  unfold Car.nitro, Car.isUsingNitro. cbn [Car.key_shift Car.no_keys andb].
  set (c1 := Car.set_accSmoothed (Some a) c).
  destruct (regenNitro_kinematics 1 c1) as (R1 & R2 & R3 & R4 & R5).
  set (c2 := Car.regenNitro 1 c1) in *.
  destruct (limitSpeed_kinematics c2) as (L1 & L2 & L3 & L4 & L5).
  set (c3 := Car.limitSpeed c2) in *.
  destruct (coast_idle c3) as (C1 & C2 & C3 & C4 & C5). cbv zeta in C1, C2, C3, C4, C5.
  rewrite C1, C2, C3, C4, C5, L1, L2, L3, L4, R2, R3, R4, R5.
  split; [reflexivity|]. split; [reflexivity|]. split; [reflexivity|].
  intros [Hs Hm].
  assert (Hs3 : Car.speed c3 == 0).
  { rewrite L5; [rewrite R1; exact Hs|]. split; [rewrite R1; exact Hs | rewrite R2; exact Hm]. }
  unfold c1 at 1 2 3. car_fields.
  split; [rewrite Hs3; ring|].
  unfold V3.eqv, V3.addScaledVector. cbn [vx vy vz]. rewrite Hs3.
  repeat split; ring.
Qed.

Lemma update_in_loop (b : bool) (c : Car.state) :
  Car.update W None (JS.DtBoolean b) c
  = if b then Car.advance W Car.no_keys 1 c else c.
Proof.
  destruct b; [|reflexivity].
  unfold Car.update. change (JS.dt_rejected (JS.DtBoolean true)) with false.
  reflexivity.
Qed.

(** The player's update as the main loop calls it, for every input and
    every state: it never turns the car and emits no event, so that
    drifting never scores; without the nitro input it changes nothing
    at all. *)
Theorem main_loop_never_steers (i : Game.Input) (g : Game.state) :
  let g' := Game.playerUpdate W i g in
  Car.rotation (Game.player g') = Car.rotation (Game.player g) /\
  Car.events (Game.player g') = Car.events (Game.player g) /\
  Car.maxSpeed (Game.player g') = Car.maxSpeed (Game.player g) /\
  Game.score g' = Game.score g /\
  (Game.getNitroInput i = false -> Game.player g' = Game.player g).
Proof.
  cbv zeta. unfold Game.playerUpdate. rewrite update_in_loop.
  cbn [Game.player Game.set_player Game.set_score Game.score].
  destruct (Game.getNitroInput i).
  - destruct (advance_idle (Game.player g)) as (M & R & E & _). cbv zeta in M, R, E.
    rewrite E, drop_all. cbn [fold_left]. repeat split; try assumption. discriminate.
  - rewrite drop_all. cbn [fold_left]. repeat split.
Qed.


Ltac game_parts :=
  cbn [Game.gameState Game.score Game.lap Game.maxLaps Game.checkpointReached
       Game.lapStartTime Game.bestLapTime Game.currentLapTime Game.cameraShake
       Game.player Game.rivals Game.destructibles Game.colliders Game.startLinePos
       Game.halfwayPos Game.set_lapStartTime Game.set_bestLapTime
       Game.set_checkpointReached Game.set_lap Game.set_gameState Game.set_player
       Game.set_currentLapTime Game.set_cameraShake Game.set_score Game.set_rivals
       Game.set_destructibles].














End MainLoop.


(** ** The collision pass as wired *)

Section WiredCollisions.

Context (W : World).

Ltac game_parts :=
  cbn [Game.gameState Game.score Game.lap Game.maxLaps Game.checkpointReached
       Game.lapStartTime Game.bestLapTime Game.currentLapTime Game.cameraShake
       Game.player Game.rivals Game.destructibles Game.colliders Game.startLinePos
       Game.halfwayPos Game.set_lapStartTime Game.set_bestLapTime
       Game.set_checkpointReached Game.set_lap Game.set_gameState Game.set_player
       Game.set_currentLapTime Game.set_cameraShake Game.set_score Game.set_rivals
       Game.set_destructibles].

Lemma existsb_pointwise {A : Type} (f h : A -> bool) (l : list A) :
  (forall x, f x = h x) -> existsb f l = existsb h l.
Proof.
  intros E. induction l as [|x l IH]; [reflexivity|].
  cbn [existsb]. now rewrite E, IH.
Qed.

Lemma contact_touches (g g' : Game.state) (r : EnemyCar.state) :
  contact g' = contact g -> Game.Wired.touches r g' = Game.Wired.touches r g.
Proof.
  unfold contact, Game.Wired.touches, Game.playerRadius. intros E.
  injection E as E1 E2 E3. now rewrite E1, E2.
Qed.

Lemma contact_resolves (now : Q) (g g' : Game.state) :
  contact g' = contact g ->
  Game.Wired.playerResolves now g' = Game.Wired.playerResolves now g.
Proof.
  unfold contact, Game.Wired.playerResolves. intros E.
  injection E as E1 E2 E3. now rewrite E3.
Qed.

Lemma destructiblesPass_contact (g : Game.state) :
  contact (Game.destructiblesPass W g) = contact g /\
  Game.rivals (Game.destructiblesPass W g) = Game.rivals g.
Proof.
  unfold Game.destructiblesPass.
  assert (L : forall objs,
            contact (snd (Game.destructiblesLoop W objs g)) = contact g /\
            Game.rivals (snd (Game.destructiblesLoop W objs g)) = Game.rivals g).
  { induction objs as [|o objs IH]; [split; reflexivity|].
    cbn [Game.destructiblesLoop fold_right]. fold (Game.destructiblesLoop W objs g).
    unfold Game.visitCrate.
    destruct (Track.hit o); [exact IH|].
    destruct (Game.overlapsCrate W _ o); [|exact IH].
    cbn [snd]. exact IH. }
  specialize (L (Game.destructibles g)).
  destruct (Game.destructiblesLoop W (Game.destructibles g) g) as [objs g'].
  exact L.
Qed.

(** One turn that does not throw leaves what the tests read of the
    player as it was. *)
Lemma visitRival_quiet (now : Q) (r : EnemyCar.state) (g : Game.state) :
  snd (Game.Wired.visitRival W now r g)
  = Game.Wired.touches r g && Game.Wired.playerResolves now g /\
  (snd (Game.Wired.visitRival W now r g) = false ->
   contact (snd (fst (Game.Wired.visitRival W now r g))) = contact g) /\
  fst (fst (Game.Wired.visitRival W now r g))
  = (if Game.Wired.touches r g
     then EnemyCar.handleCollisionSimple W (Car.position (Game.player g)) r else r) /\
  (Game.Wired.touches r g = false -> snd (fst (Game.Wired.visitRival W now r g)) = g).
Proof.
  unfold Game.Wired.visitRival, Game.visitRival.
  change (V3.distanceTo_lt (Car.position (Game.player g)) (EnemyCar.position r)
            (Game.playerRadius g + Game.rivalRadius r)) with (Game.Wired.touches r g).
  destruct (Game.Wired.touches r g); cbn [andb fst snd].
  - destruct (Game.Wired.playerResolves now g) eqn:R; cbn [fst snd];
      (split; [reflexivity|]); (split; [|split; [reflexivity|discriminate]]).
    + discriminate.
    + intros _. unfold contact. game_parts. unfold Car.handleCollisionSimple.
      rewrite player_debounced; [reflexivity|].
      unfold Game.Wired.playerResolves in R. apply negb_false_iff, ltb_true in R. exact R.
  - repeat split.
Qed.

Lemma rivalsLoop_thrown (now : Q) (rs : list EnemyCar.state) : forall g,
  snd (Game.Wired.rivalsLoop W now rs g)
  = Game.Wired.playerResolves now g && existsb (fun r => Game.Wired.touches r g) rs.
Proof.
  induction rs as [|r rs IH]; intros g; cbn [Game.Wired.rivalsLoop existsb].
  - now rewrite andb_false_r.
  - destruct (visitRival_quiet now r g) as (T & C & _).
    destruct (Game.Wired.visitRival W now r g) as [[r' g'] thrown]. cbn [fst snd] in T, C.
    destruct thrown; cbn [snd].
    + symmetry in T. apply andb_true_iff in T as [-> ->]. reflexivity.
    + specialize (IH g'). specialize (C eq_refl).
      destruct (Game.Wired.rivalsLoop W now rs g') as [[rest' g''] thrown'].
      cbn [snd] in *. rewrite IH, (contact_resolves now g g' C).
      rewrite (existsb_pointwise (fun r0 => Game.Wired.touches r0 g')
                           (fun r0 => Game.Wired.touches r0 g)) by
        (intros r0; now apply contact_touches).
      symmetry in T. apply andb_false_iff in T as [T|T]; rewrite T; cbn [orb andb];
        reflexivity.
Qed.

Lemma rivalsLoop_first_contact (now : Q) (rs : list EnemyCar.state) (g : Game.state) :
  Game.Wired.playerResolves now g = true ->
  snd (Game.Wired.rivalsLoop W now rs g) = true ->
  exists before r after,
    rs = before ++ r :: after /\
    Forall (fun x => Game.Wired.touches x g = false) before /\
    Game.Wired.touches r g = true /\
    fst (fst (Game.Wired.rivalsLoop W now rs g))
    = before ++ EnemyCar.handleCollisionSimple W (Car.position (Game.player g)) r :: after.
Proof.
  intros R. induction rs as [|r rs IH]; cbn [Game.Wired.rivalsLoop]; [discriminate|].
  destruct (visitRival_quiet now r g) as (T & _ & V & Q).
  destruct (Game.Wired.visitRival W now r g) as [[r' g'] thrown]. cbn [fst snd] in T, V, Q.
  rewrite R, andb_true_r in T.
  destruct thrown; cbn [fst snd].
  - intros _. exists [], r, rs. rewrite <- T in V. subst r'.
    repeat split; [constructor | now symmetry].
  - rewrite <- T in Q. specialize (Q eq_refl). subst g'. rewrite <- T in V. subst r'.
    destruct (Game.Wired.rivalsLoop W now rs g) as [[rest' g''] thrown'].
    cbn [fst snd] in *. intros H. destruct (IH H) as (before & x & after & E & F & Tx & L).
    exists (r :: before), x, after. subst rs. rewrite L.
    repeat split; [constructor; [now symmetry | exact F] | exact Tx].
Qed.

(** The collision pass with the listeners [init] wires.  The pass is
    left by the [TypeError] of the player's collision listener exactly
    when the game is being played, the player is outside its 100 ms
    debounce and some rival overlaps it; then only the first such rival
    is bumped, the rest of the rivals, the buildings and the void are
    not looked at, and the player's collision time is set. *)
Theorem collision_pass_interrupted (now : Q) (g : Game.state) :
  let res := Game.Wired.updateCollisions W now g in
  snd res
  = Game.is_playing (Game.gameState g) && Game.Wired.playerResolves now g
    && existsb (fun r => Game.Wired.touches r g) (Game.rivals g) /\
  (snd res = true ->
   exists before r after,
     Game.rivals g = before ++ r :: after /\
     Forall (fun x => Game.Wired.touches x g = false) before /\
     Game.Wired.touches r g = true /\
     Game.rivals (fst res)
     = before ++ EnemyCar.handleCollisionSimple W (Car.position (Game.player g)) r :: after).
Proof.
  cbv zeta. unfold Game.Wired.updateCollisions.
  destruct (Game.is_playing (Game.gameState g)); cbn [negb andb fst snd];
    [|split; [reflexivity|discriminate]].
  destruct (destructiblesPass_contact g) as [C Rv].
  set (g1 := Game.destructiblesPass W g) in *.
  unfold Game.Wired.rivalsPass.
  pose proof (rivalsLoop_thrown now (Game.rivals g1) g1) as T.
  pose proof (rivalsLoop_first_contact now (Game.rivals g1) g1) as F.
  destruct (Game.Wired.rivalsLoop W now (Game.rivals g1) g1) as [[rs g2] thrown].
  cbn [fst snd] in T, F.
  rewrite (contact_resolves now g g1 C), Rv in T.
  rewrite (existsb_pointwise (fun r0 => Game.Wired.touches r0 g1)
                       (fun r0 => Game.Wired.touches r0 g)) in T by
    (intros r0; now apply contact_touches).
  destruct thrown; cbn [fst snd]; (split; [exact T|]); [|discriminate].
  intros _. symmetry in T. apply andb_true_iff in T as [R _].
  rewrite (contact_resolves now g g1 C) in F.
  destruct (F R eq_refl) as (before & r & after & E & Hb & Tr & L).
  exists before, r, after. game_parts. rewrite <- Rv.
  split; [exact E|]. split.
  - eapply Forall_impl; [exact Hb|]. intros x Hx. cbn beta in *.
    now rewrite <- (contact_touches g g1 x C).
  - split; [now rewrite <- (contact_touches g g1 r C)|].
    rewrite L. assert (P : Car.position (Game.player g1) = Car.position (Game.player g)).
    { unfold contact in C. now injection C. }
    now rewrite P.
Qed.

End WiredCollisions.

(** ** Restarting a race *)

Section Restart.

Context (W : World).


End Restart.
